(** * Search-and-crawl pipeline of the [/api/ddg] route

    A shallow embedding of the pure and state-passing parts of
    [src/routes/api/ddg.ts] (first route file: gather mode, domain scoring,
    aggregation) and of the robots-aware variant (the one that defines
    [checkRobotsTxt] and [RateLimiter]).

    JavaScript strings are sequences of UTF-16 code units; they are modelled as
    [list N].  Lengths, statuses and scores are [Z].  Thrown exceptions are
    modelled with a sum type carrying the error message.  Platform services the
    handler only calls (URL parser, DOM parser, [fetch], the page workers,
    [String.prototype.toLowerCase]) are Section variables. *)

From Stdlib Require Import ZArith NArith List Bool Lia String Ascii.
From Stdlib Require Import Permutation Sorted DecimalString.
Import ListNotations.

Set Implicit Arguments.
Local Open Scope Z_scope.

(* ------------------------------------------------------------------ *)
(** ** JavaScript strings *)

Definition jsstring : Type := list N.

Module JS.

(** A source literal, character by character. *)
Definition lit (s : string) : jsstring :=
  map N_of_ascii (list_ascii_of_string s).

(** [s.length] *)
Definition len (s : jsstring) : Z := Z.of_nat (List.length s).

(** [a === b] on strings *)
Fixpoint eqb (a b : jsstring) : bool :=
  match a, b with
  | [], [] => true
  | x :: a', y :: b' => if N.eqb x y then eqb a' b' else false
  | _, _ => false
  end.

(** A thrown exception carries its [message]. *)
Inductive outcome (A : Type) : Type :=
| Ok (a : A)
| Throw (message : jsstring).
Arguments Ok {A} a.
Arguments Throw {A} message.

Definition bind {A B} (m : outcome A) (f : A -> outcome B) : outcome B :=
  match m with
  | Ok a => f a
  | Throw e => Throw e
  end.

Fixpoint mapM {A B} (f : A -> outcome B) (l : list A) : outcome (list B) :=
  match l with
  | [] => Ok []
  | x :: l' => bind (f x) (fun y => bind (mapM f l') (fun ys => Ok (y :: ys)))
  end.

(** [s.startsWith(p)] *)
Fixpoint startsWith (s p : jsstring) : bool :=
  match p, s with
  | [], _ => true
  | x :: p', y :: s' => if N.eqb x y then startsWith s' p' else false
  | _ :: _, [] => false
  end.

(** [s.includes(p)] *)
Fixpoint includes (s p : jsstring) : bool :=
  if startsWith s p then true
  else match s with
       | [] => false
       | _ :: s' => includes s' p
       end.

(** [s.slice(0, n)] for a non-negative [n] *)
Definition slice0 (n : Z) (s : jsstring) : jsstring := firstn (Z.to_nat n) s.

(** [s.substring(n)] for a non-negative [n] *)
Definition substring (n : Z) (s : jsstring) : jsstring := skipn (Z.to_nat n) s.

(** WhiteSpace and LineTerminator code units of ECMAScript: what [trim]
    strips and what the regular expression class [\s] contains. *)
Definition isSpace (c : N) : bool :=
  match c with
  | 9 | 10 | 11 | 12 | 13 | 32 | 160 | 5760 | 8232 | 8233 | 8239 | 8287
  | 12288 | 65279 => true
  | _ => (8192 <=? c) && (c <=? 8202)
  end%N.

Fixpoint trimStart (s : jsstring) : jsstring :=
  match s with
  | c :: s' => if isSpace c then trimStart s' else s
  | [] => []
  end.

Definition trimEnd (s : jsstring) : jsstring := rev (trimStart (rev s)).

(** [s.trim()] *)
Definition trim (s : jsstring) : jsstring := trimEnd (trimStart s).

(** [s.split(sep)] for a one-unit separator: never returns the empty list. *)
Fixpoint split (sep : N) (s : jsstring) : list jsstring :=
  match s with
  | [] => [[]]
  | c :: s' =>
      if N.eqb c sep then [] :: split sep s'
      else match split sep s' with
           | w :: ws => (c :: w) :: ws
           | [] => [[c]]
           end
  end.

(** Truthiness of a string: [if (s)] *)
Definition truthy (s : jsstring) : bool :=
  match s with [] => false | _ => true end.

Definition isUpperAZ (c : N) : bool := ((65 <=? c) && (c <=? 90))%N.
Definition isLowerAZ (c : N) : bool := ((97 <=? c) && (c <=? 122))%N.
Definition isDigit (c : N) : bool := ((48 <=? c) && (c <=? 57))%N.

(** ASCII part of [toLowerCase]; exact on strings of ASCII code units. *)
Definition asciiLower (s : jsstring) : jsstring :=
  map (fun c => if isUpperAZ c then (c + 32)%N else c) s.

End JS.

(* ------------------------------------------------------------------ *)
(** ** The regular expressions the route uses

    Every pattern in the source is built from literal ASCII characters,
    alternation, [\s*], [\w+], [s?], [\b] and [^], all under the [i] flag and
    without the [u] flag.  Only [RegExp.prototype.test] is called, which asks
    whether a match starts at some index. *)

Module Re.

Inductive cset : Type :=
| Lit (c : N)     (* a pattern character *)
| Word            (* \w *)
| Space.          (* \s *)

Inductive re : Type :=
| Eps
| One (cs : cset)
| Seq (a b : re)
| Alt (a b : re)
| StarOf (cs : cset)   (* cs* *)
| WordB                (* \b *)
| Bol.                 (* ^ *)

(** Canonicalize of the [i] flag without [u]: an ASCII pattern character is
    matched by itself and by its other case only, because a code unit above
    127 never canonicalizes to one below 128. *)
Definition canon (c : N) : N := if JS.isLowerAZ c then (c - 32)%N else c.

(** [\w] is [A-Za-z0-9_]; without [u] the [i] flag adds nothing to it. *)
Definition isWordChar (c : N) : bool :=
  JS.isUpperAZ c || JS.isLowerAZ c || JS.isDigit c || N.eqb c 95.

Definition inSet (cs : cset) (c : N) : bool :=
  match cs with
  | Lit p => N.eqb (canon p) (canon c)
  | Word => isWordChar c
  | Space => JS.isSpace c
  end.

Definition wordAt (o : option N) : bool :=
  match o with Some c => isWordChar c | None => false end.

(** Backtracking matcher in continuation-passing style.  [prev] is the code
    unit just before the current position ([None] at index 0), [s] the rest
    of the input; [k] continues after the pattern. *)
Fixpoint matchK (r : re) (k : option N -> jsstring -> bool)
         (prev : option N) (s : jsstring) {struct r} : bool :=
  match r with
  | Eps => k prev s
  | One cs =>
      match s with
      | c :: s' => if inSet cs c then k (Some c) s' else false
      | [] => false
      end
  | Seq a b => matchK a (matchK b k) prev s
  | Alt a b => if matchK a k prev s then true else matchK b k prev s
  | StarOf cs =>
      (fix star (prev : option N) (s : jsstring) {struct s} : bool :=
         match s with
         | c :: s' =>
             if inSet cs c
             then (if star (Some c) s' then true else k prev s)
             else k prev s
         | [] => k prev s
         end) prev s
  | WordB =>
      if xorb (wordAt prev) (wordAt (hd_error s)) then k prev s else false
  | Bol => match prev with None => k prev s | Some _ => false end
  end.

Definition matchHere (r : re) (prev : option N) (s : jsstring) : bool :=
  matchK r (fun _ _ => true) prev s.

Fixpoint searchFrom (r : re) (prev : option N) (s : jsstring) : bool :=
  if matchHere r prev s then true
  else match s with
       | [] => false
       | c :: s' => searchFrom r (Some c) s'
       end.

(** [re.test(s)] *)
Definition test (r : re) (s : jsstring) : bool := searchFrom r None s.

Definition chars (s : string) : re :=
  fold_right (fun c r => Seq (One (Lit c)) r) Eps (JS.lit s).

Definition plusOf (cs : cset) : re := Seq (One cs) (StarOf cs).
Definition opt (r : re) : re := Alt r Eps.

(** [r|r1|...|rn] *)
Fixpoint alts (r : re) (rs : list re) : re :=
  match rs with
  | [] => r
  | r' :: rs' => Alt r (alts r' rs')
  end.

Fixpoint seqs (rs : list re) : re :=
  match rs with
  | [] => Eps
  | r :: rs' => Seq r (seqs rs')
  end.

End Re.

(* ------------------------------------------------------------------ *)
(** ** Content admission gate *)

Module Admission.

Import Re.

(** The [signals] array of [isCloudflareChallenge]. *)
Definition signals : list re :=
  [ chars "cdn-cgi/challenge-platform/";
    seqs [WordB; chars "cf-chl-"; plusOf Word];
    seqs [WordB; chars "cRay"; WordB];
    chars "Just a moment...";
    seqs [chars "Attention Required!"; StarOf Space; chars "|"; StarOf Space;
          chars "Cloudflare"];
    chars "DDoS protection by Cloudflare";
    seqs [chars "enable "; Alt (chars "JavaScript") (chars "cookies");
          chars " and try again"];
    chars "Rocket Loader is loading your page";
    chars "/cdn-cgi/l/chk_jschl" ].

Definition isCloudflareChallenge (html : jsstring) : bool :=
  let text := JS.slice0 200000 html in
  existsb (fun r => test r text) signals.

(** [/adsense\/domains\/caf\.js/i] *)
Definition parkedRe : re := chars "adsense/domains/caf.js".

Definition looksLikeParkedOrAd (candidateHtml : jsstring) : bool :=
  (JS.len candidateHtml <? 400) || test parkedRe candidateHtml.

Inductive SkipReason : Type := parked_or_ad | cloudflare_challenge.

(** The skip branch of the worker: [Some reason] when the worker logs
    ["skipped"] with that reason and returns [null], [None] when the page goes
    on to extraction. *)
Definition admission (candidateHtml : jsstring) : option SkipReason :=
  if looksLikeParkedOrAd candidateHtml || isCloudflareChallenge candidateHtml
  then Some (if looksLikeParkedOrAd candidateHtml
             then parked_or_ad else cloudflare_challenge)
  else None.

End Admission.

(* ------------------------------------------------------------------ *)
(** ** URI component coding and form-urlencoded parsing *)

Module Uri.

Definition isLead (c : N) : bool := ((55296 <=? c) && (c <=? 56319))%N.
Definition isTrail (c : N) : bool := ((56320 <=? c) && (c <=? 57343))%N.

Definition pairToCodePoint (hi lo : N) : N :=
  ((hi - 55296) * 1024 + (lo - 56320) + 65536)%N.

(** UTF-16 encoding of one code point. *)
Definition utf16 (cp : N) : jsstring :=
  if (cp <? 65536)%N then [cp]
  else [55296 + (cp - 65536) / 1024; 56320 + (cp - 65536) mod 1024]%N.

(** UTF-8 encoding of one code point. *)
Definition utf8 (cp : N) : list N :=
  if (cp <? 128)%N then [cp]
  else if (cp <? 2048)%N then [192 + cp / 64; 128 + cp mod 64]%N
  else if (cp <? 65536)%N then
    [224 + cp / 4096; 128 + (cp / 64) mod 64; 128 + cp mod 64]%N
  else [240 + cp / 262144; 128 + (cp / 4096) mod 64;
        128 + (cp / 64) mod 64; 128 + cp mod 64]%N.

Definition hexDigit (v : N) : N := if (v <? 10)%N then (48 + v)%N else (55 + v)%N.

(** ["%XX"] with upper-case digits *)
Definition pct (b : N) : jsstring := [37; hexDigit (b / 16); hexDigit (b mod 16)]%N.

Definition pctAll (bs : list N) : jsstring := flat_map pct bs.

Definition hexVal (c : N) : option N :=
  if JS.isDigit c then Some (c - 48)%N
  else if ((65 <=? c) && (c <=? 70))%N then Some (c - 55)%N
  else if ((97 <=? c) && (c <=? 102))%N then Some (c - 87)%N
  else None.

Definition hexByte (h1 h2 : N) : option N :=
  match hexVal h1, hexVal h2 with
  | Some a, Some b => Some (16 * a + b)%N
  | _, _ => None
  end.

(** Code units that the form parser reads as themselves: ASCII other than
    [&], [+] and [=] (and than [%], which starts an escape). *)
Definition formPlain (c : N) : Prop :=
  (c < 128 /\ c <> 38 /\ c <> 43 /\ c <> 61)%N.

(** A Unicode scalar value: a code point that is not a surrogate. *)
Definition scalar (cp : N) : Prop :=
  (cp < 55296 \/ 57344 <= cp < 1114112)%N.

(** uriUnescaped: alphanumerics and [-_.!~*'()] *)
Definition unreserved (c : N) : bool :=
  JS.isUpperAZ c || JS.isLowerAZ c || JS.isDigit c ||
  existsb (N.eqb c) [45; 95; 46; 33; 126; 42; 39; 40; 41]%N.

(** [encodeURIComponent]; [None] is the URIError on a lone surrogate. *)
Fixpoint encodeURIComponent (s : jsstring) : option jsstring :=
  match s with
  | [] => Some []
  | c :: s1 =>
      if unreserved c then option_map (cons c) (encodeURIComponent s1)
      else if isTrail c then None
      else if isLead c then
        match s1 with
        | d :: s2 =>
            if isTrail d
            then option_map (app (pctAll (utf8 (pairToCodePoint c d))))
                            (encodeURIComponent s2)
            else None
        | [] => None
        end
      else option_map (app (pctAll (utf8 c))) (encodeURIComponent s1)
  end.

(** Number of leading one bits of an octet that has its top bit set. *)
Definition leadingOnes (b : N) : nat :=
  if (b <? 128)%N then 0%nat
  else if (b <? 192)%N then 1%nat
  else if (b <? 224)%N then 2%nat
  else if (b <? 240)%N then 3%nat
  else if (b <? 248)%N then 4%nat
  else 5%nat.

Definition isCont (b : N) : bool := ((128 <=? b) && (b <=? 191))%N.

(** The code point of a well-formed UTF-8 sequence, [None] otherwise
    (overlong forms, surrogates and values above U+10FFFF are ill-formed). *)
Definition utf8Value (octets : list N) : option N :=
  match octets with
  | [b0; b1] =>
      let cp := ((b0 - 192) * 64 + (b1 - 128))%N in
      if isCont b1 && (128 <=? cp)%N then Some cp else None
  | [b0; b1; b2] =>
      let cp := ((b0 - 224) * 4096 + (b1 - 128) * 64 + (b2 - 128))%N in
      if isCont b1 && isCont b2 && (2048 <=? cp)%N
         && negb ((55296 <=? cp) && (cp <=? 57343))%N
      then Some cp else None
  | [b0; b1; b2; b3] =>
      let cp := ((b0 - 240) * 262144 + (b1 - 128) * 4096
                 + (b2 - 128) * 64 + (b3 - 128))%N in
      if isCont b1 && isCont b2 && isCont b3
         && (65536 <=? cp)%N && (cp <=? 1114111)%N
      then Some cp else None
  | _ => None
  end.

(** The Decode operation behind [decodeURIComponent] (empty reserved set).
    [pending] is [Some (m, octets)] while [m + 1] continuation escapes of a
    multi-octet sequence are still to be read.  [None] is the URIError. *)
Fixpoint decodeGo (pending : option (nat * list N)) (s : jsstring)
  : option jsstring :=
  match pending with
  | None =>
      match s with
      | [] => Some []
      | c :: s1 =>
          if N.eqb c 37 then
            match s1 with
            | h1 :: h2 :: s3 =>
                match hexByte h1 h2 with
                | Some b =>
                    match leadingOnes b with
                    | O => option_map (cons b) (decodeGo None s3)
                    | S O => None
                    | S (S m) =>
                        if Nat.ltb 2 m then None
                        else decodeGo (Some (m, [b])) s3
                    end
                | None => None
                end
            | _ => None
            end
          else option_map (cons c) (decodeGo None s1)
      end
  | Some (m, octets) =>
      match s with
      | p :: h1 :: h2 :: s3 =>
          if N.eqb p 37 then
            match hexByte h1 h2 with
            | Some b =>
                match m with
                | O =>
                    match utf8Value (octets ++ [b]) with
                    | Some cp => option_map (app (utf16 cp)) (decodeGo None s3)
                    | None => None
                    end
                | S m' => decodeGo (Some (m', octets ++ [b])) s3
                end
            | None => None
            end
          else None
      | _ => None
      end
  end.

Definition decodeURIComponent (s : jsstring) : option jsstring :=
  decodeGo None s.

(** Conversion to scalar values then UTF-8: a lone surrogate becomes U+FFFD. *)
Fixpoint utf8Encode (s : jsstring) : list N :=
  match s with
  | [] => []
  | c :: s1 =>
      if isLead c then
        match s1 with
        | d :: s2 =>
            if isTrail d then utf8 (pairToCodePoint c d) ++ utf8Encode s2
            else utf8 65533 ++ utf8Encode s1
        | [] => utf8 65533
        end
      else if isTrail c then utf8 65533 ++ utf8Encode s1
      else utf8 c ++ utf8Encode s1
  end.

(** Percent-decode of the URL standard: a [%] not followed by two hex digits
    is kept. *)
Fixpoint percentDecode (bs : list N) : list N :=
  match bs with
  | [] => []
  | b :: bs1 =>
      if N.eqb b 37 then
        match bs1 with
        | h1 :: h2 :: bs3 =>
            match hexByte h1 h2 with
            | Some v => v :: percentDecode bs3
            | None => b :: percentDecode bs1
            end
        | _ => b :: percentDecode bs1
        end
      else b :: percentDecode bs1
  end.

(** State of the UTF-8 decoder of the Encoding standard. *)
Record Utf8State : Type := mkUtf8State
  { codePoint : N; bytesSeen : nat; bytesNeeded : nat; lower : N; upper : N }.

Definition utf8Init : Utf8State := mkUtf8State 0 0 0 128 191.

(** A byte read while no sequence is open. *)
Definition utf8Start (b : N) : Utf8State * jsstring :=
  if (b <=? 127)%N then (utf8Init, [b])
  else if ((194 <=? b) && (b <=? 223))%N
  then (mkUtf8State (b - 192) 0 1 128 191, [])
  else if ((224 <=? b) && (b <=? 239))%N
  then (mkUtf8State (b - 224) 0 2
          (if N.eqb b 224 then 160 else 128)
          (if N.eqb b 237 then 159 else 191), [])
  else if ((240 <=? b) && (b <=? 244))%N
  then (mkUtf8State (b - 240) 0 3
          (if N.eqb b 240 then 144 else 128)
          (if N.eqb b 244 then 143 else 191), [])
  else (utf8Init, [65533]%N).

Definition utf8Step (st : Utf8State) (b : N) : Utf8State * jsstring :=
  match bytesNeeded st with
  | O => utf8Start b
  | S _ =>
      if ((lower st <=? b) && (b <=? upper st))%N then
        let cp := (codePoint st * 64 + (b - 128))%N in
        let seen := S (bytesSeen st) in
        if Nat.eqb seen (bytesNeeded st) then (utf8Init, utf16 cp)
        else (mkUtf8State cp seen (bytesNeeded st) 128 191, [])
      else
        let '(st', out) := utf8Start b in (st', 65533%N :: out)
  end.

Fixpoint utf8DecodeFrom (st : Utf8State) (bs : list N) : jsstring :=
  match bs with
  | [] => match bytesNeeded st with O => [] | S _ => [65533%N] end
  | b :: bs' => let '(st', out) := utf8Step st b in out ++ utf8DecodeFrom st' bs'
  end.

(** UTF-8 decode without BOM *)
Definition utf8Decode (bs : list N) : jsstring := utf8DecodeFrom utf8Init bs.

Fixpoint splitFirst (sep : N) (bs : list N) : option (list N * list N) :=
  match bs with
  | [] => None
  | b :: bs' =>
      if N.eqb b sep then Some ([], bs')
      else option_map (fun '(x, y) => (b :: x, y)) (splitFirst sep bs')
  end.

Definition plusToSpace (bs : list N) : list N :=
  map (fun b => if N.eqb b 43 then 32%N else b) bs.

(** The application/x-www-form-urlencoded parser on a query string. *)
Definition parseForm (query : jsstring) : list (jsstring * jsstring) :=
  flat_map
    (fun bytes =>
       match bytes with
       | [] => []
       | _ =>
           let '(name, value) :=
             match splitFirst 61 bytes with
             | Some nv => nv
             | None => (bytes, [])
             end in
           [(utf8Decode (percentDecode (plusToSpace name)),
             utf8Decode (percentDecode (plusToSpace value)))]
       end)
    (JS.split 38 (utf8Encode query)).

(** [searchParams.get(name)]: [None] is [null]. *)
Definition paramsGet (name : jsstring) (params : list (jsstring * jsstring))
  : option jsstring :=
  option_map snd (find (fun p => JS.eqb (fst p) name) params).

(** Bytes the form serializer leaves as they are: [*-._] and alphanumerics. *)
Definition formSafe (b : N) : bool :=
  JS.isUpperAZ b || JS.isLowerAZ b || JS.isDigit b ||
  existsb (N.eqb b) [42; 45; 46; 95]%N.

Definition formByte (b : N) : jsstring :=
  if N.eqb b 32 then [43%N] else if formSafe b then [b] else pct b.

(** [new URLSearchParams({ q: v }).toString()] *)
Definition serializeQ (v : jsstring) : jsstring :=
  JS.lit "q=" ++ flat_map formByte (utf8Encode v).

End Uri.

(** The parts of a parsed URL the route reads.  [query] is the URL record's
    query ([None] when null), from which [searchParams] is built. *)
Record URL : Type := mkURL
  { href : jsstring;
    protocol : jsstring;
    host : jsstring;
    hostname : jsstring;
    pathname : jsstring;
    query : option jsstring }.

Definition searchParamsGet (name : jsstring) (u : URL) : option jsstring :=
  match query u with
  | None => None
  | Some q => Uri.paramsGet name (Uri.parseForm q)
  end.

(* ------------------------------------------------------------------ *)
(** ** Candidate normalization, filtering, scoring and ranking *)

Module Candidates.

Import JS Re.

(** One anchor as extracted from the results page. *)
Record RawResult : Type := mkRaw { rawHref : jsstring; isAd : bool }.

(** [/^https?:\/\//i] *)
Definition httpRe : re := seqs [Bol; chars "http"; opt (chars "s"); chars "://"].

(** [/google\.com\/adsense\/domains/i] *)
Definition adsenseRe : re := chars "google.com/adsense/domains".

(** [/wikipedia|stackoverflow|github|medium|reddit|docs\./i] *)
Definition qualityRe : re :=
  alts (chars "wikipedia")
       [chars "stackoverflow"; chars "github"; chars "medium"; chars "reddit";
        chars "docs."].

(** [/facebook|twitter|instagram|tiktok|pinterest/i] *)
Definition socialRe : re :=
  alts (chars "facebook")
       [chars "twitter"; chars "instagram"; chars "tiktok"; chars "pinterest"].

(** [/doubleclick|adservice|adsense|googleadservices/i] *)
Definition adDomainRe : re :=
  alts (chars "doubleclick")
       [chars "adservice"; chars "adsense"; chars "googleadservices"].

(** [Array.from(new Set(l))]: first occurrences, in insertion order. *)
Fixpoint dedupe (seen l : list jsstring) : list jsstring :=
  match l with
  | [] => []
  | x :: l' =>
      if existsb (JS.eqb x) seen then dedupe seen l'
      else x :: dedupe (x :: seen) l'
  end.

(** Insertion into a list sorted by [(a, b) => b.score - a.score]: [x] goes
    before the first entry it does not have to follow. *)
Fixpoint insertByScore (x : jsstring * Z) (l : list (jsstring * Z))
  : list (jsstring * Z) :=
  match l with
  | [] => [x]
  | y :: l' =>
      if (snd y - snd x <=? 0) then x :: y :: l'
      else y :: insertByScore x l'
  end.

(** The order the comparator asks for: descending score. *)
Definition byScoreDesc (a b : jsstring * Z) : Prop := snd a >= snd b.

(** [Array.prototype.sort] with that comparator.  The sort is stable by
    specification, and a stable sort by a key has one possible result. *)
Definition sortByScore (l : list (jsstring * Z)) : list (jsstring * Z) :=
  fold_right insertByScore [] l.

(** A redirector link for destination [d], as the results page writes them:
    [d] percent-encoded into the [uddg] parameter. *)
Definition wrapRedirect (d : jsstring) : option jsstring :=
  option_map (app (lit "https://duckduckgo.com/l/?uddg=")) (Uri.encodeURIComponent d).

Section WithPlatform.

(** [new URL(input, base)]; [Throw] is the TypeError of an invalid URL. *)
Variable URL_new : jsstring -> option jsstring -> outcome URL.
(** [String.prototype.toLowerCase] *)
Variable toLowerCase : jsstring -> jsstring.

Definition normalizeDuckHref (inputHref : jsstring) : outcome jsstring :=
  bind
    (if startsWith inputHref (lit "/")
     then bind (URL_new inputHref (Some (lit "https://html.duckduckgo.com")))
               (fun u => Ok (href u))
     else Ok inputHref)
    (fun candidate =>
       if includes candidate (lit "duckduckgo.com/l/?")
          || startsWith candidate (lit "/l/?")
       then
         bind (URL_new candidate (Some (lit "https://duckduckgo.com")))
              (fun urlObj =>
                 match searchParamsGet (lit "uddg") urlObj with
                 | Some uddg =>
                     if truthy uddg then
                       match Uri.decodeURIComponent uddg with
                       | Some decoded => Ok decoded
                       | None => Ok candidate  (* leave as-is *)
                       end
                     else Ok candidate
                 | None => Ok candidate
                 end)
       else Ok candidate).

(** An anchor that cannot become a candidate: flagged as an ad, or with a
    normalized href that is not http(s) or is an ad-network link. *)
Definition unusable (r : RawResult) : Prop :=
  isAd r = true
  \/ exists h, normalizeDuckHref (rawHref r) = Ok h
               /\ (test httpRe h = false \/ test adsenseRe h = true).

Definition preferredCandidates (rawResults : list RawResult)
  : outcome (list jsstring) :=
  bind (mapM (fun r => normalizeDuckHref (rawHref r))
             (filter (fun r => negb (isAd r)) rawResults))
       (fun hrefs =>
          Ok (dedupe []
                (filter (fun h => negb (test adsenseRe h))
                        (filter (fun h => test httpRe h) hrefs)))).

(** The body of the [try] block of [scoreDomain], with the local [score]
    threaded through the five tests. *)
Definition scoreDomainTry (url : jsstring) : outcome Z :=
  bind (URL_new url None)
       (fun u =>
          let hostname := toLowerCase (hostname u) in
          let score := 0 in
          let score := if test qualityRe hostname then score + 3 else score in
          let score := if test socialRe hostname then score - 5 else score in
          let score := if test adDomainRe hostname then score - 10 else score in
          let score := if startsWith url (lit "https://") then score + 1 else score in
          let score := if len url <? 100 then score + 1 else score in
          Ok score).

Definition scoreDomain (url : jsstring) : Z :=
  match scoreDomainTry url with
  | Ok score => score
  | Throw _ => -1
  end.

Definition scored (candidates : list jsstring) : list (jsstring * Z) :=
  map (fun url => (url, scoreDomain url)) candidates.

Definition rankedCandidates (candidates : list jsstring) : list jsstring :=
  map fst (firstn 8 (sortByScore (scored candidates))).

End WithPlatform.

End Candidates.

(* ------------------------------------------------------------------ *)
(** ** Gather-mode runner

    The runners are tasks on one event loop.  A runner executes without
    interruption from the completion of the worker it awaits up to its next
    [await]: it pushes the result, claims the next index and starts that
    worker.  Which of the pending workers completes next depends on the pages;
    it is given by a schedule, one choice per completion. *)

Module Runner.

Import JS.

Section Gather.

Variables TInput TResult : Type.

Record GState : Type := mkG
  { index : nat;                 (* the shared cursor *)
    results : list TResult;      (* the [results] array *)
    running : list nat }.        (* per live runner, the index it awaits *)

Variable inputs : list TInput.
Variable worker : TInput -> outcome (option TResult).

(** [await worker(input).catch(() => null)] *)
Definition settled (i : nat) : option TResult :=
  match nth_error inputs i with
  | Some input =>
      match worker input with
      | Ok out => out
      | Throw _ => None
      end
  | None => None
  end.

(** Number of runners started by the [for] loop. *)
Definition runnerCount (concurrency : Z) : nat :=
  Z.to_nat (Z.max 1 (Z.min concurrency (Z.of_nat (List.length inputs)))).

(** Each [runNext()] call runs up to its first [await]: the runners claim
    indices [0 .. n-1] in turn. *)
Definition start (concurrency : Z) : GState :=
  let n := runnerCount concurrency in
  mkG n [] (seq 0 n).

Definition replaceAt (k : nat) (v : nat) (l : list nat) : list nat :=
  firstn k l ++ v :: skipn (S k) l.

Definition removeAt (k : nat) (l : list nat) : list nat :=
  firstn k l ++ skipn (S k) l.

(** The [k]-th live runner resumes. *)
Definition step (k : nat) (st : GState) : GState :=
  match nth_error (running st) k with
  | None => st
  | Some myIndex =>
      let results' :=
        match settled myIndex with
        | Some out => results st ++ [out]
        | None => results st
        end in
      if Nat.ltb (index st) (List.length inputs)
      then mkG (S (index st)) results' (replaceAt k (index st) (running st))
      else mkG (index st) results' (removeAt k (running st))
  end.

(** Runs until every runner has returned; a schedule entry is taken modulo
    the number of live runners, and the first live runner resumes when the
    schedule is exhausted. *)
Fixpoint run (fuel : nat) (schedule : list nat) (st : GState) : GState :=
  match fuel with
  | O => st
  | S fuel' =>
      match running st with
      | [] => st
      | _ :: _ =>
          match schedule with
          | [] => run fuel' [] (step 0 st)
          | k :: schedule' =>
              run fuel' schedule' (step (k mod List.length (running st)) st)
          end
      end
  end.

Definition finalState (schedule : list nat) (concurrency : Z) : GState :=
  run (List.length inputs) schedule (start concurrency).

(** The indices of the workers in the order in which they complete during
    [run]. *)
Fixpoint completionOrder (fuel : nat) (schedule : list nat) (st : GState)
  : list nat :=
  match fuel with
  | O => []
  | S fuel' =>
      match running st with
      | [] => []
      | _ :: _ =>
          let k := match schedule with
                   | [] => O
                   | k :: _ => (k mod List.length (running st))%nat
                   end in
          match nth_error (running st) k with
          | Some myIndex =>
              myIndex :: completionOrder fuel' (tl schedule) (step k st)
          | None => []
          end
      end
  end.

Definition fetchAllWithConcurrency (schedule : list nat) (concurrency : Z)
  : list TResult :=
  match inputs with
  | [] => []
  | _ :: _ => results (finalState schedule concurrency)
  end.

(** Whether a candidate's worker produces a non-null result. *)
Definition succeeds (input : TInput) : bool :=
  match worker input with
  | Ok (Some _) => true
  | _ => false
  end.

(** The successful set in candidate order. *)
Definition successesInOrder : list TResult :=
  flat_map (fun input =>
              match worker input with
              | Ok (Some out) => [out]
              | _ => []
              end) inputs.

(** What the worker on index [i] contributes to [results]. *)
Definition contribution (i : nat) : list TResult :=
  match settled i with
  | Some out => [out]
  | None => []
  end.

(** Workers still to complete: the live ones and the unclaimed inputs. *)
Definition pendingCount (st : GState) : nat :=
  (List.length (running st) + (List.length inputs - index st))%nat.

(** Every success is in [results], awaited, or not yet claimed. *)
Definition accounted (st : GState) : Prop :=
  (index st <= List.length inputs)%nat
  /\ (running st = [] -> index st = List.length inputs)
  /\ Permutation
       (results st ++ flat_map contribution (running st)
        ++ flat_map contribution (seq (index st) (List.length inputs - index st)))
       (flat_map contribution (seq 0 (List.length inputs))).

(** With one runner the workers run one after the other. *)
Definition sequential (st : GState) : Prop :=
  (exists i, running st = [i] /\ index st = S i /\ (i < List.length inputs)%nat
             /\ results st = flat_map contribution (seq 0 i))
  \/ (running st = []
      /\ results st = flat_map contribution (seq 0 (List.length inputs))).

End Gather.

End Runner.

(* ------------------------------------------------------------------ *)
(** ** Aggregation of the accepted sources under the character budgets *)

Module Aggregation.

Import JS.

(** An accepted page: [{ url, html }]. *)
Record FetchResult : Type := mkFetch { url : jsstring; html : jsstring }.

(** What the handler reads from a parsed document; [None] is [null]. *)
Record Doc : Type := mkDoc
  { articleText : option jsstring;   (* querySelector("article")?.textContent *)
    bodyText : option jsstring;      (* document.body?.textContent *)
    documentText : option jsstring;  (* document.textContent *)
    titleText : option jsstring }.   (* querySelector("title")?.textContent *)

Record SourceText : Type := mkSource { srcUrl : jsstring; text : jsstring }.

Definition perSourceLimit : Z := 20000.
Definition maxTotal : Z := 120000.

(** [(articleEl?.textContent ?? document.textContent ?? "").trim()] with
    [articleEl = querySelector("article") ?? document.body] *)
Definition rawTextOf (d : Doc) : jsstring :=
  let articleEl := match articleText d with Some t => Some t | None => bodyText d end in
  trim (match articleEl with
        | Some t => t
        | None => match documentText d with Some t => t | None => [] end
        end).

Definition titleOf (d : Doc) : jsstring :=
  match titleText d with Some t => t | None => [] end.

Definition snippetOf (d : Doc) : jsstring :=
  let title := titleOf d in
  slice0 perSourceLimit
    ((if truthy title then lit "Title: " ++ title ++ [10; 10]%N else [])
     ++ rawTextOf d).

(** ["\n\n[Source: " + url + "]\n" + text] *)
Definition chunkOf (s : SourceText) : jsstring :=
  [10; 10]%N ++ lit "[Source: " ++ srcUrl s ++ lit "]" ++ [10%N] ++ text s.

(** The [for] loop that builds [combined] and [usedUrls]; [break] ends it. *)
Fixpoint combineLoop (combined : jsstring) (usedUrls : list jsstring)
         (sourceTexts : list SourceText) : jsstring * list jsstring :=
  match sourceTexts with
  | [] => (combined, usedUrls)
  | s :: rest =>
      let nextChunk := chunkOf s in
      if len combined + len nextChunk >? maxTotal then (combined, usedUrls)
      else combineLoop (combined ++ nextChunk) (usedUrls ++ [srcUrl s]) rest
  end.

Definition combine (sourceTexts : list SourceText) : jsstring * list jsstring :=
  combineLoop [] [] sourceTexts.

Record AggregatedInput : Type := mkAgg
  { sources : list SourceText;
    combinedText : jsstring;
    usedUrls : list jsstring }.

Section WithDom.

(** [parseHTML(html)] of linkedom. *)
Variable parseHTML : jsstring -> outcome Doc.

(** The loop over [successes]: a source without text is skipped. *)
Fixpoint sourceTextsOf (successes : list FetchResult) : outcome (list SourceText) :=
  match successes with
  | [] => Ok []
  | s :: rest =>
      bind (parseHTML (html s))
        (fun d =>
           bind (sourceTextsOf rest)
             (fun more =>
                if truthy (rawTextOf d)
                then Ok (mkSource (url s) (snippetOf d) :: more)
                else Ok more))
  end.

(** The [else] branch: no accepted page, the fallback [html] is the only
    source. *)
Definition fallbackSource (html : jsstring) (successUrl : option jsstring)
  : outcome (list SourceText) :=
  bind (parseHTML html)
    (fun d =>
       Ok [mkSource (match successUrl with Some u => u | None => lit "unknown" end)
                    (snippetOf d)]).

Definition aggregate (successes : list FetchResult) (html : jsstring)
           (successUrl : option jsstring) : outcome AggregatedInput :=
  bind (match successes with
        | _ :: _ => sourceTextsOf successes
        | [] => fallbackSource html successUrl
        end)
    (fun sourceTexts =>
       let '(combined, used) := combine sourceTexts in
       Ok (mkAgg sourceTexts combined used)).

End WithDom.

End Aggregation.

(* ------------------------------------------------------------------ *)
(** ** robots.txt policy check (robots-aware route variant) *)

Module Robots.

Import JS.

(** The fields of a [fetch] response the check reads. *)
Record HttpResponse : Type := mkHttp
  { status : Z;
    bodyText : outcome jsstring }.   (* await response.text() *)

(** [response.ok] *)
Definition ok (r : HttpResponse) : bool := (200 <=? status r) && (status r <=? 299).

Record ParseState : Type := mkParse
  { currentUserAgent : jsstring;
    disallowedPaths : list jsstring;
    allowedPaths : list jsstring }.

Section WithPlatform.

Variable URL_new : jsstring -> option jsstring -> outcome URL.
Variable toLowerCase : jsstring -> jsstring.
(** [fetch(robotsUrl, { headers: { "User-Agent": userAgent, ... } })];
    [Throw] is a rejected promise. *)
Variable fetch : jsstring -> jsstring -> outcome HttpResponse.

Definition groupApplies (st : ParseState) (userAgent : jsstring) : bool :=
  JS.eqb (currentUserAgent st) (lit "*")
  || JS.eqb (currentUserAgent st) (toLowerCase userAgent).

(** One iteration of the loop over the lines. *)
Definition parseLine (userAgent : jsstring) (st : ParseState) (line : jsstring)
  : ParseState :=
  let trimmed := toLowerCase (trim line) in
  if startsWith trimmed (lit "user-agent:") then
    mkParse (trim (substring 11 trimmed)) (disallowedPaths st) (allowedPaths st)
  else if startsWith trimmed (lit "disallow:") then
    if groupApplies st userAgent then
      let path := trim (substring 9 trimmed) in
      if truthy path
      then mkParse (currentUserAgent st) (disallowedPaths st ++ [path]) (allowedPaths st)
      else st
    else st
  else if startsWith trimmed (lit "allow:") then
    if groupApplies st userAgent then
      let path := trim (substring 6 trimmed) in
      if truthy path
      then mkParse (currentUserAgent st) (disallowedPaths st) (allowedPaths st ++ [path])
      else st
    else st
  else st.

Definition parseRobots (userAgent robotsText : jsstring) : ParseState :=
  fold_left (parseLine userAgent) (split 10 robotsText) (mkParse [] [] []).

(** The final loop: [false] at the first matching disallowed path. *)
Fixpoint pathAllowed (urlPath : jsstring) (disallowed : list jsstring) : bool :=
  match disallowed with
  | [] => true
  | disallowedPath :: rest =>
      if JS.eqb disallowedPath (lit "/") || startsWith urlPath disallowedPath
      then false
      else pathAllowed urlPath rest
  end.

(** What is decided once the lines are at hand. *)
Definition decideLines (urlObj : URL) (userAgent : jsstring) (lines : list jsstring)
  : bool :=
  pathAllowed (pathname urlObj)
    (disallowedPaths (fold_left (parseLine userAgent) lines (mkParse [] [] []))).

Definition decide (urlObj : URL) (userAgent robotsText : jsstring) : bool :=
  decideLines urlObj userAgent (split 10 robotsText).

Definition robotsUrlOf (urlObj : URL) : jsstring :=
  protocol urlObj ++ lit "//" ++ host urlObj ++ lit "/robots.txt".

(** The body of the [try] block. *)
Definition checkRobotsTry (url userAgent : jsstring) : outcome bool :=
  bind (URL_new url None)
    (fun urlObj =>
       let robotsUrl := robotsUrlOf urlObj in
       bind (fetch robotsUrl userAgent)
         (fun response =>
            if negb (ok response) then Ok true
            else bind (bodyText response)
                   (fun robotsText => Ok (decide urlObj userAgent robotsText)))).

Definition checkRobotsTxt (url userAgent : jsstring) : bool :=
  match checkRobotsTry url userAgent with
  | Ok allowed => allowed
  | Throw _ => true
  end.

(** *** What the parse loop records

    The loop lower-cases each trimmed line before it reads anything from it,
    so the user-agent values and the paths below are lower-cased ones. *)

Definition lowered (line : jsstring) : jsstring := toLowerCase (trim line).

Definition isUserAgentLine (line : jsstring) : bool :=
  startsWith (lowered line) (lit "user-agent:").
Definition userAgentOf (line : jsstring) : jsstring :=
  trim (substring 11 (lowered line)).

Definition isDisallowLine (line : jsstring) : bool :=
  startsWith (lowered line) (lit "disallow:").
Definition disallowPathOf (line : jsstring) : jsstring :=
  trim (substring 9 (lowered line)).

Definition isAllowLine (line : jsstring) : bool :=
  startsWith (lowered line) (lit "allow:").

(** A User-agent line opens a group. *)
Definition nextGroup (g : option jsstring) (line : jsstring) : option jsstring :=
  if isUserAgentLine line then Some (userAgentOf line) else g.

(** The group a line stands under: the value of the nearest User-agent line
    above it, if there is one. *)
Definition groupInForce (above : list jsstring) : option jsstring :=
  fold_left nextGroup above None.

(** [currentUserAgent] when the group in force is [g]. *)
Definition inForceOr (g : option jsstring) : jsstring :=
  match g with Some group => group | None => [] end.

Definition agentMatches (userAgent group : jsstring) : Prop :=
  group = lit "*" \/ group = toLowerCase userAgent.

(** [p] is pushed on [disallowedPaths]: the trimmed rest of a lower-cased
    Disallow line that stands under a User-agent line whose lower-cased value
    is [*] or the lower-cased requesting user-agent. *)
Definition PushedDisallow (userAgent : jsstring) (lines : list jsstring)
           (p : jsstring) : Prop :=
  exists above line below group,
    lines = above ++ line :: below
    /\ groupInForce above = Some group
    /\ agentMatches userAgent group
    /\ isDisallowLine line = true
    /\ disallowPathOf line = p
    /\ p <> [].

(** *** The policy as the specification words it

    A Disallow path is the path the line gives, as written; a group matches
    when its User-agent line gives [*] or the requesting user-agent, compared
    without regard to case. *)

(** The value a directive line gives after its [n]-unit name. *)
Definition valueWritten (n : Z) (line : jsstring) : jsstring :=
  trim (substring n (trim line)).

Definition specNextGroup (g : option jsstring) (line : jsstring) : option jsstring :=
  if isUserAgentLine line then Some (valueWritten 11 line) else g.

Definition specGroupInForce (above : list jsstring) : option jsstring :=
  fold_left specNextGroup above None.

Definition specAgentMatches (userAgent group : jsstring) : Prop :=
  group = lit "*" \/ toLowerCase group = toLowerCase userAgent.

(** [p] is a Disallow path recorded under a group whose User-agent line is
    [*] or equals the requesting user-agent case-insensitively. *)
Definition SpecRecordedDisallow (userAgent : jsstring) (lines : list jsstring)
           (p : jsstring) : Prop :=
  exists above line below group,
    lines = above ++ line :: below
    /\ specGroupInForce above = Some group
    /\ specAgentMatches userAgent group
    /\ isDisallowLine line = true
    /\ valueWritten 9 line = p
    /\ p <> [].

(** The URL path is disallowed: some recorded Disallow path is ["/"] or a
    prefix of it. *)
Definition SpecDisallowed (userAgent robotsText urlPath : jsstring) : Prop :=
  exists p,
    SpecRecordedDisallow userAgent (split 10 robotsText) p
    /\ (p = lit "/" \/ startsWith urlPath p = true).

End WithPlatform.

End Robots.

(* ------------------------------------------------------------------ *)
(** ** The GET handler *)

Module Handler.

Import JS.
Import Aggregation.

Record ReadabilityArticle : Type := mkArticle
  { title : jsstring; content : jsstring }.

Record Response : Type := mkResponse
  { status : Z; contentType : jsstring; body : jsstring }.

(** What one request did: the candidates handed to the page workers, and the
    response. *)
Record Run : Type := mkRun { visited : list jsstring; response : Response }.

Definition textPlain : jsstring := lit "text/plain; charset=utf-8".
Definition textHtml : jsstring := lit "text/html; charset=utf-8".

Definition dq : jsstring := [34%N].

Definition replaceAll (c : N) (by_ : jsstring) (s : jsstring) : jsstring :=
  flat_map (fun x => if N.eqb x c then by_ else [x]) s.

Definition escapeHtmlAttribute (input : jsstring) : jsstring :=
  replaceAll 39 (lit "&#039;")
    (replaceAll 34 (lit "&quot;")
       (replaceAll 62 (lit "&gt;")
          (replaceAll 60 (lit "&lt;")
             (replaceAll 38 (lit "&amp;") input)))).

Definition wrapAsHtmlDocument (article : ReadabilityArticle) : jsstring :=
  let safeTitle := escapeHtmlAttribute (title article) in
  lit "<!doctype html><html lang=" ++ dq ++ lit "en" ++ dq
  ++ lit "><head><meta charset=" ++ dq ++ lit "utf-8" ++ dq
  ++ lit "/><meta name=" ++ dq ++ lit "viewport" ++ dq
  ++ lit " content=" ++ dq ++ lit "width=device-width, initial-scale=1" ++ dq
  ++ lit "/><title>" ++ safeTitle
  ++ lit "</title><style>body{margin:2rem auto;max-width:800px;line-height:1.6;font-family:system-ui,-apple-system,Segoe UI,Roboto,Ubuntu,Cantarell,Noto Sans,sans-serif;padding:0 1rem} img,video,iframe{max-width:100%;height:auto} pre,code{white-space:pre-wrap;word-wrap:break-word}</style></head><body><article>"
  ++ content article ++ lit "</article></body></html>".

(** [query.replace(/\+/g, " ")] *)
Definition normalizedQueryOf (query : jsstring) : jsstring :=
  map (fun c => if N.eqb c 43 then 32%N else c) query.

Definition searchUrlOf (query : jsstring) : jsstring :=
  lit "https://html.duckduckgo.com/html/?" ++ Uri.serializeQ (normalizedQueryOf query).

(** [(url.searchParams.get("q") ?? "").trim()] *)
Definition queryOf (q : option jsstring) : jsstring :=
  trim (match q with Some v => v | None => [] end).

Definition decimal (n : nat) : jsstring :=
  lit (DecimalString.NilEmpty.string_of_uint (Nat.to_uint n)).

Fixpoint join (sep : jsstring) (l : list jsstring) : jsstring :=
  match l with
  | [] => []
  | [x] => x
  | x :: l' => x ++ sep ++ join sep l'
  end.

(** [catch (e) { throw new Error(prefix + e.message) }] *)
Definition rethrow {A} (prefix : string) (m : outcome A) : outcome A :=
  match m with
  | Ok a => Ok a
  | Throw e => Throw (lit prefix ++ e)
  end.

Definition noCandidatesMessage : jsstring :=
  lit "Failed to locate any non-ad search result links".

Section WithPlatform.

Variable URL_new : jsstring -> option jsstring -> outcome URL.
Variable toLowerCase : jsstring -> jsstring.
(** Browser launch, creation of the results page, its stealth setup. *)
Variable launch : outcome unit.
Variable newPage : outcome unit.
Variable stealth : outcome unit.
(** Navigation to the search URL and read of its HTML. *)
Variable serp : jsstring -> outcome jsstring.
(** The anchor-extraction script on the results page. *)
Variable evaluate : outcome (list Candidates.RawResult).
(** Opening a page on a candidate, navigating and reading the rendered HTML. *)
Variable visit : jsstring -> outcome jsstring.
(** [new Readability(document).parse()] on the HTML with its base URL. *)
Variable readability : jsstring -> jsstring -> outcome (option ReadabilityArticle).
Variable parseHTML : jsstring -> outcome Doc.
(** The summarization call: query, used URLs, combined text to [response.text]. *)
Variable generateContent :
  jsstring -> list jsstring -> jsstring -> outcome (option jsstring).
(** Completion order of the page workers. *)
Variable schedule : list nat.

(** The per-candidate worker; every failure inside it ends in [null]. *)
Definition worker (candidateUrl : jsstring) : outcome (option FetchResult) :=
  match visit candidateUrl with
  | Throw _ => Ok None
  | Ok candidateHtml =>
      match Admission.admission candidateHtml with
      | Some _ => Ok None
      | None =>
          match readability candidateHtml candidateUrl with
          | Ok (Some article) =>
              if truthy (content article) && truthy (title article)
              then Ok (Some (mkFetch candidateUrl (wrapAsHtmlDocument article)))
              else Ok (Some (mkFetch candidateUrl candidateHtml))
          | Ok None => Ok (Some (mkFetch candidateUrl candidateHtml))
          | Throw _ => Ok (Some (mkFetch candidateUrl candidateHtml))
          end
      end
  end.

(** The summarization [try] block: [Some] is the plain-text answer, [None]
    falls through to the HTML response. *)
Definition summarizeTry (query : jsstring) (successes : list FetchResult)
           (html : jsstring) (successUrl : option jsstring) : outcome (option Response) :=
  bind (aggregate parseHTML successes html successUrl)
    (fun agg =>
       bind (generateContent query (usedUrls agg) (combinedText agg))
         (fun text =>
            let summary := trim (match text with Some t => t | None => [] end) in
            if len summary >? 0 then
              let sourcesBlock :=
                match successes with
                | _ :: _ =>
                    [10; 10]%N ++ lit "Sources:" ++ [10%N]
                    ++ join [10%N]
                         (map (fun '(i, s) => decimal (i + 1) ++ lit ". " ++ url s)
                              (List.combine (seq 0 (List.length successes)) successes))
                | [] =>
                    match successUrl with
                    | Some u => if truthy u then [10; 10]%N ++ lit "Source: " ++ u else []
                    | None => []
                    end
                end in
              Ok (Some (mkResponse 200 textPlain (summary ++ sourcesBlock)))
            else Ok None)).

(** From the extracted anchors to the response; [Throw] reaches the outer
    [catch]. *)
Definition afterSerp (query serpHtml : jsstring)
           (rawResults : list Candidates.RawResult) : outcome Run :=
  bind (Candidates.preferredCandidates URL_new rawResults)
    (fun preferred =>
       match preferred with
       | [] => Throw noCandidatesMessage
       | _ :: _ =>
           let candidateUrls := Candidates.rankedCandidates URL_new toLowerCase preferred in
           let allResults :=
             Runner.fetchAllWithConcurrency candidateUrls worker schedule 4 in
           let successes := allResults in
           let firstHtml := match allResults with r :: _ => html r | [] => [] end in
           let successUrl := match allResults with r :: _ => Some (url r) | [] => None end in
           let html := if truthy firstHtml then firstHtml else serpHtml in
           Ok (mkRun candidateUrls
                 match summarizeTry query successes html successUrl with
                 | Ok (Some answer) => answer
                 | _ => mkResponse 200 textHtml html
                 end)
       end).

Definition handlerTry (query : jsstring) : outcome Run :=
  bind (rethrow "Failed to create new page: " newPage) (fun _ =>
  bind (rethrow "Failed to apply stealth settings: " stealth) (fun _ =>
  bind (rethrow "Failed to load search results: " (serp (searchUrlOf query))) (fun serpHtml =>
  bind (rethrow "Failed to extract search results: " evaluate) (fun rawResults =>
  afterSerp query serpHtml rawResults)))).

(** The GET handler on the [q] search parameter of the request. *)
Definition GET (q : option jsstring) : Run :=
  let query := queryOf q in
  if negb (truthy query) then
    mkRun [] (mkResponse 400 textPlain
                (lit "Missing " ++ dq ++ lit "q" ++ dq
                 ++ lit " search param. Usage: /api/ddg?q=your+query"))
  else
    match launch with
    | Throw e => mkRun [] (mkResponse 500 textPlain (lit "Failed to launch browser: " ++ e))
    | Ok _ =>
        match handlerTry query with
        | Ok r => r
        | Throw e => mkRun [] (mkResponse 500 textPlain (lit "Search failed: " ++ e))
        end
    end.

End WithPlatform.

End Handler.

(* ------------------------------------------------------------------ *)
(** ** A URL parser for closed examples

    [BasicURL.URL_new] covers absolute [http://] and [https://] URLs whose
    host is made of lower-case letters, [.] and [-] (no port, no credentials,
    no punycode label), whose path has no dot segment and whose query
    needs no escaping; on these it returns what the URL standard prescribes.
    Everything else is refused, so it is used only to run the definitions
    above on concrete inputs. *)

Module BasicURL.

Import JS.

Definition hostChar (c : N) : bool :=
  isLowerAZ c || N.eqb c 46 || N.eqb c 45.

Definition pathChar (c : N) : bool :=
  isLowerAZ c || isUpperAZ c || isDigit c
  || existsb (N.eqb c) [47; 45; 95; 46; 126; 43; 37; 58; 61; 38]%N.

Definition queryChar (c : N) : bool :=
  ((33 <=? c) && (c <=? 126))%N
  && negb (existsb (N.eqb c) [34; 35; 39; 60; 62]%N).

Fixpoint span (p : N -> bool) (s : jsstring) : jsstring * jsstring :=
  match s with
  | c :: s' => if p c then let '(a, b) := span p s' in (c :: a, b) else ([], s)
  | [] => ([], [])
  end.

Definition parseAfterScheme (scheme rest : jsstring) : option URL :=
  let '(h, afterHost) := span hostChar rest in
  let '(p, afterPath) := span pathChar afterHost in
  let path := match p with [] => lit "/" | _ => p end in
  let okPath := (match p with [] => true | c :: _ => N.eqb c 47 end)
                && negb (includes p (lit "/."))
                && negb (includes (asciiLower p) (lit "%2e")) in
  let q :=
    match afterPath with
    | [] => Some None
    | c :: qs =>
        if N.eqb c 63 && forallb queryChar qs then Some (Some qs) else None
    end in
  match h, okPath && negb (includes h (lit "xn--")), q with
  | _ :: _, true, Some q' =>
      Some (mkURL (scheme ++ lit "//" ++ h ++ path
                   ++ match q' with Some qs => lit "?" ++ qs | None => [] end)
                  scheme h h path q')
  | _, _, _ => None
  end.

Definition parse (input : jsstring) : option URL :=
  if startsWith input (lit "https://")
  then parseAfterScheme (lit "https:") (skipn 8 input)
  else if startsWith input (lit "http://")
  then parseAfterScheme (lit "http:") (skipn 7 input)
  else None.

Definition URL_new (input : jsstring) (base : option jsstring) : outcome URL :=
  match parse input with
  | Some u => Ok u
  | None => Throw (lit "Invalid URL")
  end.

End BasicURL.

(* ------------------------------------------------------------------ *)
(** ** Race-mode runner ([firstNonNullWithConcurrency])

    Same event-loop model as the gather-mode runner: a schedule says which
    pending worker completes next. *)

Module Race.

Import JS.

Section Race.

Variables TInput TResult : Type.

Record RState : Type := mkR
  { index : nat;                  (* the shared cursor *)
    resolved : bool;
    result : option TResult;
    running : list nat }.         (* per live runner, the index it awaits *)

Variable inputs : list TInput.
Variable worker : TInput -> outcome (option TResult).

(** [runNext()] up to its first [await], for a runner joining [running]: it
    returns at once when a result is known or no input is left (the cursor
    is advanced all the same). *)
Definition runNext (st : RState) : RState :=
  if resolved st then st
  else
    let myIndex := index st in
    if Nat.leb (List.length inputs) myIndex
    then mkR (S (index st)) (resolved st) (result st) (running st)
    else mkR (S (index st)) (resolved st) (result st) (running st ++ [myIndex]).

(** The [for] loop that starts the runners. *)
Fixpoint launch (n : nat) (st : RState) : RState :=
  match n with
  | O => st
  | S n' => launch n' (runNext st)
  end.

Definition start (concurrency : Z) : RState :=
  launch (Runner.runnerCount inputs concurrency) (mkR 0 false None []).

(** The [k]-th live runner resumes after its [await worker(...)]. *)
Definition step (k : nat) (st : RState) : RState :=
  match nth_error (running st) k with
  | None => st
  | Some myIndex =>
      let others := Runner.removeAt k (running st) in
      match resolved st, Runner.settled inputs worker myIndex with
      | false, Some out => mkR (index st) true (Some out) others
      | false, None => runNext (mkR (index st) false (result st) others)
      | true, _ => mkR (index st) true (result st) others
      end
  end.

Definition choice (schedule : list nat) (st : RState) : nat :=
  match schedule with
  | [] => O
  | k :: _ => (k mod List.length (running st))%nat
  end.

Fixpoint run (fuel : nat) (schedule : list nat) (st : RState) : RState :=
  match fuel with
  | O => st
  | S fuel' =>
      match running st with
      | [] => st
      | _ :: _ => run fuel' (tl schedule) (step (choice schedule st) st)
      end
  end.

(** The indices of the workers in the order in which they complete. *)
Fixpoint completionOrder (fuel : nat) (schedule : list nat) (st : RState)
  : list nat :=
  match fuel with
  | O => []
  | S fuel' =>
      match running st with
      | [] => []
      | _ :: _ =>
          match nth_error (running st) (choice schedule st) with
          | Some myIndex =>
              myIndex :: completionOrder fuel' (tl schedule)
                           (step (choice schedule st) st)
          | None => []
          end
      end
  end.

Definition finalState (schedule : list nat) (concurrency : Z) : RState :=
  run (List.length inputs) schedule (start concurrency).

Definition firstNonNullWithConcurrency (schedule : list nat) (concurrency : Z)
  : option TResult :=
  match inputs with
  | [] => None
  | _ :: _ => result (finalState schedule concurrency)
  end.

(** The workers that ran, in completion order. *)
Definition completions (schedule : list nat) (concurrency : Z) : list nat :=
  completionOrder (List.length inputs) schedule (start concurrency).

(** Workers still to complete if no result turns up. *)
Definition pendingCount (st : RState) : nat :=
  (List.length (running st)
   + (if resolved st then 0 else List.length inputs - index st))%nat.

(** While no result is known every claimed input is awaited or has failed;
    a known result is the result of some input. *)
Definition consistent (st : RState) : Prop :=
  Forall (fun i => (i < List.length inputs)%nat) (running st)
  /\ (running st = [] -> resolved st = false -> (List.length inputs <= index st)%nat)
  /\ (resolved st = false ->
      result st = None
      /\ forall i, (i < index st)%nat -> (i < List.length inputs)%nat ->
                   In i (running st) \/ Runner.contribution inputs worker i = [])
  /\ (resolved st = true ->
      exists i out, (i < List.length inputs)%nat
                    /\ Runner.settled inputs worker i = Some out
                    /\ result st = Some out).

End Race.

End Race.

(** [firstNonNull]: the promises settle in some order; [settled] lists their
    outcomes in that order ([Throw] for a rejection).  [None] is a promise
    that never settles. *)
Module FirstNonNull.

Import JS.

Section FirstNonNull.

Variable T : Type.

Record FState : Type := mkF
  { remaining : nat; resolved : bool; value : option (option T) }.

(** The [then], [catch] and [finally] callbacks of one settled promise. *)
Definition settle (st : FState) (o : outcome (option T)) : FState :=
  let st1 :=
    match o with
    | Ok (Some val) =>
        if resolved st then st
        else mkF (remaining st) true (Some (Some val))
    | _ => st
    end in
  let remaining' := Nat.pred (remaining st1) in
  if Nat.eqb remaining' 0 && negb (resolved st1)
  then mkF remaining' (resolved st1) (Some None)
  else mkF remaining' (resolved st1) (value st1).

Definition firstNonNull (settled : list (outcome (option T))) : option (option T) :=
  value (fold_left settle settled (mkF (List.length settled) false None)).

End FirstNonNull.

End FirstNonNull.

(* ------------------------------------------------------------------ *)
(** ** Reading the rendered page with retries *)

Module Retry.

Import JS.

Definition transient (message : jsstring) : bool :=
  includes message (lit "Execution context was destroyed").

(** The [for] loop of [readContentWithRetry]; [content k] is the outcome of
    the [k]-th [withTimeout(p.content(), ...)].  The result comes with the
    number of reads made. *)
Fixpoint attempts (content : nat -> outcome jsstring) (remaining attempt : nat)
         (lastError : option jsstring) : outcome jsstring * nat :=
  match remaining with
  | O =>
      match lastError with
      | Some e => (Throw e, Nat.pred attempt)
      | None => (content attempt, attempt)
      end
  | S remaining' =>
      match content attempt with
      | Ok html => (Ok html, attempt)
      | Throw e =>
          if transient e
          then attempts content remaining' (S attempt) (Some e)
          else (Throw e, attempt)
      end
  end.

Definition readContentWithRetry (content : nat -> outcome jsstring)
           (maxAttempts : Z) : outcome jsstring * nat :=
  attempts content (Z.to_nat maxAttempts) 1 None.

(** A read that makes the loop go round again. *)
Definition retried (o : outcome jsstring) : Prop :=
  exists e, o = Throw e /\ transient e = true.

End Retry.

(** With one runner the inputs are tried one after the other. *)
Module RaceSequential.

Import JS Race.

Section Sequential.

Variables TInput TResult : Type.
Variable inputs : list TInput.
Variable worker : TInput -> outcome (option TResult).

Definition allFailedBelow (i : nat) : Prop :=
  forall j, (j < i)%nat -> Runner.contribution inputs worker j = [].

Definition sequential (st : RState TResult) : Prop :=
  (resolved st = false /\ result st = None
   /\ exists i, running st = [i] /\ index st = S i
                /\ (i < List.length inputs)%nat /\ allFailedBelow i)
  \/ (resolved st = false /\ result st = None /\ running st = []
      /\ allFailedBelow (List.length inputs))
  \/ (resolved st = true /\ running st = []
      /\ exists i out, (i < List.length inputs)%nat /\ allFailedBelow i
                       /\ Runner.settled inputs worker i = Some out
                       /\ result st = Some out).

End Sequential.

End RaceSequential.

(** The first non-null fulfilled value of a settle order. *)
Fixpoint firstFulfilled (T : Type) (settled : list (JS.outcome (option T)))
  : option T :=
  match settled with
  | [] => None
  | JS.Ok (Some val) :: _ => Some val
  | _ :: rest => firstFulfilled rest
  end.

(* ------------------------------------------------------------------ *)
(** ** Anchor extraction on the results page *)

Module Serp.

Import JS.

(** What the extraction script reads from an anchor element. *)
Record Anchor : Type := mkAnchor
  { hrefProp : jsstring;            (* anchor.href, empty when there is none *)
    hrefAttr : option jsstring;     (* anchor.getAttribute("href") *)
    inAdBlock : bool }.             (* anchor.closest(".result--ad") !== null *)

(** [anchor.href || anchor.getAttribute("href") || null] *)
Definition resolveHref (anchor : Anchor) : option jsstring :=
  if truthy (hrefProp anchor) then Some (hrefProp anchor)
  else match hrefAttr anchor with
       | Some h => if truthy h then Some h else None
       | None => None
       end.

Definition isAd (anchor : Anchor) : bool := inAdBlock anchor.

Definition selectors : list jsstring :=
  [ lit "a.result__a"; lit "a.result__url"; lit "a.result__title";
    lit "a[rel=" ++ [34%N] ++ lit "nofollow noopener" ++ [34%N] ++ lit "][href]" ].

(** The inner loop over the anchors of one selector; the state is the [seen]
    set and the [results] array. *)
Fixpoint scanAnchors (anchors : list Anchor)
         (acc : list jsstring * list Candidates.RawResult)
  : list jsstring * list Candidates.RawResult :=
  match anchors with
  | [] => acc
  | a :: rest =>
      match resolveHref a with
      | None => scanAnchors rest acc
      | Some href =>
          if existsb (JS.eqb href) (fst acc) then scanAnchors rest acc
          else scanAnchors rest
                 (href :: fst acc, snd acc ++ [Candidates.mkRaw href (isAd a)])
      end
  end.

Section WithDocument.

(** [Array.from(document.querySelectorAll(sel))] *)
Variable querySelectorAll : jsstring -> list Anchor.

Definition extractRawResults : list Candidates.RawResult :=
  snd (fold_left (fun acc sel => scanAnchors (querySelectorAll sel) acc)
                 selectors ([], [])).

(** The anchors in the order in which the script meets them. *)
Definition anchorsInOrder : list Anchor := flat_map querySelectorAll selectors.

End WithDocument.

(** The anchor a result stems from: the first one with that href. *)
Definition firstWithHref (all : list Anchor) (r : Candidates.RawResult) : Prop :=
  exists before a after,
    all = before ++ a :: after
    /\ resolveHref a = Some (Candidates.rawHref r)
    /\ Candidates.isAd r = inAdBlock a
    /\ Forall (fun b => resolveHref b <> Some (Candidates.rawHref r)) before.

End Serp.

(* ------------------------------------------------------------------ *)
(** ** Rate limiter (robots-aware route variant)

    Times and delays are whole milliseconds.  [Date.now()] and the random
    jitter are given by the caller of the model. *)

Module RateLimiter.

Record Limiter : Type := mkLimiter
  { lastRequestTime : Z; minDelay : Z; maxDelay : Z; baseDelay : Z }.

(** [new RateLimiter(minDelay, maxDelay, baseDelay)] *)
Definition create (minDelay maxDelay baseDelay : Z) : Limiter :=
  mkLimiter 0 minDelay maxDelay baseDelay.

(** The [delay] of [waitIfNeeded] for a jitter. *)
Definition delayFor (rl : Limiter) (jitter : Z) : Z :=
  Z.max (minDelay rl) (baseDelay rl + jitter).

(** How long [waitIfNeeded] sleeps when entered at time [now]. *)
Definition waitTime (rl : Limiter) (now jitter : Z) : Z :=
  let timeSinceLastRequest := now - lastRequestTime rl in
  let delay := delayFor rl jitter in
  if timeSinceLastRequest <? delay then delay - timeSinceLastRequest else 0.

(** [waitIfNeeded]: [after] is the [Date.now()] read once the sleep is over. *)
Definition waitIfNeeded (rl : Limiter) (now jitter after : Z) : Limiter :=
  mkLimiter after (minDelay rl) (maxDelay rl) (baseDelay rl).

(** [Math.min(baseDelay * Math.pow(2, attempt), maxDelay)] for a whole,
    non-negative [attempt] and whole delays with a positive base, where the
    floating-point result is the exact one. *)
Definition exponentialDelay (rl : Limiter) (attempt : nat) : Z :=
  Z.min (baseDelay rl * 2 ^ Z.of_nat attempt) (maxDelay rl).

(** The [totalDelay] of [backoff]. *)
Definition totalDelay (rl : Limiter) (attempt : nat) (jitter : Z) : Z :=
  exponentialDelay rl attempt + jitter.

End RateLimiter.

(* ------------------------------------------------------------------ *)
(** ** Smaller helpers *)

Module Helpers.

Import JS.

(** [buildAcceptLanguage] *)
Definition buildAcceptLanguage (locale : jsstring) : jsstring :=
  let base := hd [] (split 45 locale) in
  locale ++ lit "," ++ base ++ lit ";q=0.9".

(** One pass over the input doing what the five [replaceAll] calls of
    [escapeHtmlAttribute] do in turn. *)
Definition escapeChar (c : N) : jsstring :=
  if N.eqb c 38 then lit "&amp;"
  else if N.eqb c 60 then lit "&lt;"
  else if N.eqb c 62 then lit "&gt;"
  else if N.eqb c 34 then lit "&quot;"
  else if N.eqb c 39 then lit "&#039;"
  else [c].

Section WithPlatform.

Variable URL_new : jsstring -> option jsstring -> outcome URL.

(** Target of the first result in the Google variant of the browser test:
    [/url?q=<target>&...] links are unwrapped, other relative links are
    resolved. *)
Definition googleTarget (firstResultHref : jsstring) : outcome jsstring :=
  if startsWith firstResultHref (lit "/url?") then
    bind (URL_new firstResultHref (Some (lit "https://www.google.com")))
      (fun urlObj =>
         match searchParamsGet (lit "q") urlObj with
         | Some q => if truthy q then Ok q else Ok (href urlObj)
         | None => Ok (href urlObj)
         end)
  else if startsWith firstResultHref (lit "/") then
    bind (URL_new firstResultHref (Some (lit "https://www.google.com")))
      (fun urlObj => Ok (href urlObj))
  else Ok firstResultHref.

End WithPlatform.

End Helpers.

(* ------------------------------------------------------------------ *)
(** ** Path-absolute references for closed examples

    [RelativeURL.URL_new] adds to [BasicURL.URL_new] the references that
    start with one slash: they are resolved against the origin of an
    [http(s)] base that [BasicURL] parses.  A base is not looked at when the
    input is absolute. *)

Module RelativeURL.

Import JS.

Definition URL_new (input : jsstring) (base : option jsstring) : outcome URL :=
  match base with
  | Some b =>
      if startsWith input (lit "/") && negb (startsWith input (lit "//"))
      then match BasicURL.parse b with
           | Some baseUrl =>
               BasicURL.URL_new (protocol baseUrl ++ lit "//" ++ host baseUrl ++ input) None
           | None => Throw (lit "Invalid URL")
           end
      else BasicURL.URL_new input None
  | None => BasicURL.URL_new input None
  end.

End RelativeURL.

(** The code units the form serializer writes. *)
Definition formWritten (c : N) : Prop :=
  (c = 37 \/ c = 42 \/ c = 43 \/ c = 45 \/ c = 46 \/ c = 95
   \/ 48 <= c <= 57 \/ 65 <= c <= 90 \/ 97 <= c <= 122)%N.

(* ------------------------------------------------------------------ *)
(** ** The robots-aware route variant: page worker and first page

    The worker asks robots.txt first, then opens a page, navigates, reads the
    rendered HTML with retries and applies the admission gate; every failure
    ends in [null].  The candidates are the first 20 preferred ones, raced by
    two runners. *)

Module RobotsRoute.

Import JS.

Section WithPlatform.

Variable URL_new : jsstring -> option jsstring -> outcome URL.
Variable toLowerCase : jsstring -> jsstring.
Variable fetch : jsstring -> jsstring -> outcome Robots.HttpResponse.
Variable chosenUserAgent : jsstring.
(** [browser.newPage()] and [applyPageStealth] in the worker of a candidate. *)
Variable newPage : jsstring -> outcome unit.
Variable stealth : jsstring -> outcome unit.
(** [p.goto(candidateUrl, ...)]: the status of the response, [None] when the
    response is [null]. *)
Variable goto : jsstring -> outcome (option Z).
(** The successive [p.content()] reads on the candidate's page. *)
Variable content : jsstring -> nat -> outcome jsstring.
Variable readability :
  jsstring -> jsstring -> outcome (option Handler.ReadabilityArticle).

(** The check of the response status after [goto]. *)
Definition statusCheck (response : option Z) : outcome unit :=
  match response with
  | Some status =>
      if status >=? 400 then
        if status =? 429 then Throw (lit "Rate limited: HTTP 429")
        else if (status =? 403) || (status =? 503)
        then Throw (lit "Blocked: HTTP " ++ Handler.decimal (Z.to_nat status))
        else Ok tt
      else Ok tt
  | None => Ok tt
  end.

(** The [try] block of the worker once its page is open. *)
Definition pageTry (candidateUrl : jsstring) : outcome (option jsstring) :=
  bind (stealth candidateUrl) (fun _ =>
  bind (goto candidateUrl) (fun response =>
  bind (statusCheck response) (fun _ =>
  bind (fst (Retry.readContentWithRetry (content candidateUrl) 3))
    (fun candidateHtml =>
       match Admission.admission candidateHtml with
       | Some _ => Ok None
       | None =>
           match readability candidateHtml candidateUrl with
           | Ok (Some article) =>
               if truthy (Handler.content article) && truthy (Handler.title article)
               then Ok (Some (Handler.wrapAsHtmlDocument article))
               else Ok (Some candidateHtml)
           | Ok None => Ok (Some candidateHtml)
           | Throw _ => Ok (Some candidateHtml)
           end
       end)))).

Definition worker (candidateUrl : jsstring) : outcome (option jsstring) :=
  let isAllowed :=
    Robots.checkRobotsTxt URL_new toLowerCase fetch candidateUrl chosenUserAgent in
  if negb isAllowed then Ok None
  else
    match newPage candidateUrl with
    | Throw _ => Ok None
    | Ok _ =>
        match pageTry candidateUrl with
        | Ok r => Ok r
        | Throw _ => Ok None
        end
    end.

(** [preferredCandidates.slice(0, 20)] *)
Definition candidateUrls (preferredCandidates : list jsstring) : list jsstring :=
  firstn 20 preferredCandidates.

Definition first (preferredCandidates : list jsstring) (schedule : list nat)
  : option jsstring :=
  Race.firstNonNullWithConcurrency (candidateUrls preferredCandidates) worker schedule 2.

End WithPlatform.

End RobotsRoute.

(* ================================================================== *)
(** * Properties *)

(* ------------------------------------------------------------------ *)
(** ** Strings *)

Lemma len_app (a b : jsstring) : JS.len (a ++ b) = JS.len a + JS.len b.
Proof. unfold JS.len. rewrite length_app. lia. Qed.

Lemma len_nonneg (a : jsstring) : 0 <= JS.len a.
Proof. unfold JS.len. lia. Qed.

Lemma len_slice0 (n : Z) (s : jsstring) : 0 <= n -> JS.len (JS.slice0 n s) <= n.
Proof.
  intros Hn. unfold JS.len, JS.slice0.
  pose proof (firstn_le_length (Z.to_nat n) s) as H.
  rewrite <- (Z2Nat.id n) at 2 by exact Hn.
  apply Nat2Z.inj_le. exact H.
Qed.

Lemma slice0_idem (n : Z) (s : jsstring) :
  JS.slice0 n (JS.slice0 n s) = JS.slice0 n s.
Proof. unfold JS.slice0. rewrite firstn_firstn, Nat.min_id. reflexivity. Qed.

(* ------------------------------------------------------------------ *)
(** ** Admission gate *)

Section AdmissionFacts.

Import Admission.

Lemma admission_parked (html : jsstring) :
  looksLikeParkedOrAd html = true -> admission html = Some parked_or_ad.
Proof. intros H. unfold admission. rewrite H. reflexivity. Qed.

Lemma admission_challenge (html : jsstring) :
  looksLikeParkedOrAd html = false ->
  isCloudflareChallenge html = true ->
  admission html = Some cloudflare_challenge.
Proof. intros H1 H2. unfold admission. rewrite H1, H2. reflexivity. Qed.

Lemma challenge_depends_on_prefix (html html' : jsstring) :
  JS.slice0 200000 html' = JS.slice0 200000 html ->
  isCloudflareChallenge html' = isCloudflareChallenge html.
Proof. intros H. unfold isCloudflareChallenge. cbv zeta. rewrite H. reflexivity. Qed.

(** C2. Any HTML of fewer than 400 code units is skipped with reason
    [parked_or_ad], whatever it contains: the gate says so, and the worker
    that read this HTML returns [null] for its candidate. *)
Theorem short_html_is_parked_or_ad (html : jsstring) :
  JS.len html < 400 ->
  admission html = Some parked_or_ad
  /\ forall readability candidateUrl,
       Handler.worker (fun _ => JS.Ok html) readability candidateUrl = JS.Ok None.
Proof.
  intros Hshort.
  assert (Hp : admission html = Some parked_or_ad).
  { apply admission_parked. unfold looksLikeParkedOrAd.
    apply orb_true_iff. left. apply Z.ltb_lt. exact Hshort. }
  split; [exact Hp|].
  intros readability candidateUrl. unfold Handler.worker. rewrite Hp. reflexivity.
Qed.

Lemma short_html_is_parked_or_ad_witness :
  JS.len (JS.lit "<html><body>Just a moment...</body></html>") < 400
  /\ admission (JS.lit "<html><body>Just a moment...</body></html>")
     = Some parked_or_ad.
Proof.
  split.
  - vm_compute. reflexivity.
  - apply (short_html_is_parked_or_ad
             (JS.lit "<html><body>Just a moment...</body></html>")).
    vm_compute. reflexivity.
Defined.

(** C3, as stated, fails: a page that carries a challenge signature but is
    shorter than 400 code units is reported as [parked_or_ad]. *)
Lemma challenge_signature_short_page_not_challenge :
  let html := JS.lit "<title>Just a moment...</title>" in
  existsb (fun r => Re.test r (JS.slice0 200000 html)) signals = true
  /\ admission html <> Some cloudflare_challenge.
Proof. split; vm_compute; [reflexivity | discriminate]. Qed.

Lemma slice0_app (n : Z) (html suffix : jsstring) :
  n <= JS.len html -> JS.slice0 n (html ++ suffix) = JS.slice0 n html.
Proof.
  unfold JS.slice0, JS.len. intros Hn.
  rewrite firstn_app.
  replace (Z.to_nat n - List.length html)%nat with 0%nat by lia.
  cbn [firstn]. apply app_nil_r.
Qed.

(** C3, amended. A page with a challenge signature in its first 200000 code
    units is always skipped; the reason is [cloudflare_challenge] when the
    page has at least 400 code units and no ad-placeholder signature, and
    [parked_or_ad] otherwise.  Only the first 200000 code units count: two
    pages with the same first 200000 code units get the same challenge
    verdict, whatever is appended to a page of at least 200000 code units
    leaves its verdict as it is, and a page without a signature in its first
    200000 code units is not judged a challenge whatever follows them: the
    parked-or-ad test alone decides, and the page is admitted when it has at
    least 400 code units and no ad-placeholder signature. *)
Theorem challenge_signature_rejected (html : jsstring) :
  (existsb (fun r => Re.test r (JS.slice0 200000 html)) signals = true ->
   (400 <= JS.len html -> Re.test parkedRe html = false ->
    admission html = Some cloudflare_challenge)
   /\ (JS.len html < 400 \/ Re.test parkedRe html = true ->
       admission html = Some parked_or_ad)
   /\ admission html <> None)
  /\ (forall html', JS.slice0 200000 html' = JS.slice0 200000 html ->
                    isCloudflareChallenge html' = isCloudflareChallenge html)
  /\ (forall suffix, 200000 <= JS.len html ->
                     isCloudflareChallenge (html ++ suffix)
                     = isCloudflareChallenge html)
  /\ (existsb (fun r => Re.test r (JS.slice0 200000 html)) signals = false ->
      isCloudflareChallenge html = false
      /\ admission html
         = (if looksLikeParkedOrAd html then Some parked_or_ad else None)
      /\ (400 <= JS.len html -> Re.test parkedRe html = false ->
          admission html = None)).
Proof.
  split; [|split; [|split]].
  - intros Hsig.
    assert (Hc : isCloudflareChallenge html = true) by exact Hsig.
    split; [|split].
    + intros Hlen Hre. apply admission_challenge; [|exact Hc].
      unfold looksLikeParkedOrAd. rewrite Hre, orb_false_r. apply Z.ltb_ge. exact Hlen.
    + intros [Hlen | Hre]; apply admission_parked; unfold looksLikeParkedOrAd.
      * apply orb_true_iff. left. apply Z.ltb_lt. exact Hlen.
      * rewrite Hre. apply orb_true_r.
    + unfold admission. rewrite Hc, orb_true_r. discriminate.
  - intros html' Hpre. apply challenge_depends_on_prefix. exact Hpre.
  - intros suffix Hlen. apply challenge_depends_on_prefix.
    apply slice0_app. exact Hlen.
  - intros Hnone.
    assert (Hc : isCloudflareChallenge html = false) by exact Hnone.
    split; [exact Hc|]. split.
    + unfold admission. rewrite Hc, orb_false_r.
      destruct (looksLikeParkedOrAd html); reflexivity.
    + intros Hlen Hre. unfold admission, looksLikeParkedOrAd.
      rewrite Hc, Hre. replace (JS.len html <? 400) with false; [reflexivity|].
      symmetry. apply Z.ltb_ge. exact Hlen.
Qed.

Lemma challenge_signature_rejected_witness :
  let html := JS.lit "<title>Just a moment...</title>" ++ repeat 120%N 400 in
  let late := repeat 120%N (Z.to_nat 200000) ++ JS.lit "Just a moment..." in
  (existsb (fun r => Re.test r (JS.slice0 200000 html)) signals = true
   /\ admission html = Some cloudflare_challenge)
  /\ (existsb (fun r => Re.test r (JS.slice0 200000 late)) signals = false
      /\ admission late = None).
Proof.
  cbv zeta. split; split.
  - vm_compute. reflexivity.
  - refine (proj1 (proj1 (challenge_signature_rejected
                            (JS.lit "<title>Just a moment...</title>"
                             ++ repeat 120%N 400)) _) _ _).
    + vm_compute. reflexivity.
    + vm_compute. discriminate.
    + vm_compute. reflexivity.
  - vm_compute. reflexivity.
  - refine (proj2 (proj2 (proj2 (proj2 (proj2 (challenge_signature_rejected
              (repeat 120%N (Z.to_nat 200000) ++ JS.lit "Just a moment...")))) _))
              _ _).
    + vm_compute. reflexivity.
    + vm_compute. discriminate.
    + vm_compute. reflexivity.
Defined.

(** A signature that starts after the first 200000 code units is not seen:
    the page is admitted. *)
Example late_signature_is_admitted :
  admission (repeat 120%N (Z.to_nat 200000) ++ JS.lit "Just a moment...") = None.
Proof. vm_compute. reflexivity. Qed.

End AdmissionFacts.

(* ------------------------------------------------------------------ *)
(** ** Aggregation budget *)

Section AggregationFacts.

Import Aggregation.

Variable parseHTML : jsstring -> JS.outcome Doc.

Lemma snippet_within_limit (d : Doc) : JS.len (snippetOf d) <= perSourceLimit.
Proof. unfold snippetOf. apply len_slice0. unfold perSourceLimit. lia. Qed.

(** The loop appends the chunks of a prefix of the sources, stays within the
    budget if it started within it, and stops at the first chunk that does
    not fit. *)
Lemma combineLoop_prefix (srcs : list SourceText) :
  forall combined used,
  exists k,
    (k <= List.length srcs)%nat
    /\ combineLoop combined used srcs
       = (combined ++ flat_map chunkOf (firstn k srcs),
          used ++ map srcUrl (firstn k srcs))
    /\ (JS.len combined <= maxTotal ->
        JS.len (combined ++ flat_map chunkOf (firstn k srcs)) <= maxTotal)
    /\ (forall s, nth_error srcs k = Some s ->
        JS.len (combined ++ flat_map chunkOf (firstn k srcs)) + JS.len (chunkOf s)
        > maxTotal).
Proof.
  induction srcs as [|s rest IH]; intros combined used.
  - exists 0%nat. cbn [firstn flat_map map combineLoop List.length nth_error].
    rewrite !app_nil_r. repeat split; auto. discriminate.
  - cbn [combineLoop].
    destruct (JS.len combined + JS.len (chunkOf s) >? maxTotal) eqn:Hover.
    + exists 0%nat. cbn [firstn flat_map map List.length nth_error].
      rewrite !app_nil_r. repeat split; auto with arith.
      intros s' Hs'. injection Hs' as <-. apply Z.gtb_lt in Hover. lia.
    + destruct (IH (combined ++ chunkOf s) (used ++ [srcUrl s]))
        as (k & Hk & Heq & Hfit & Hstop).
      exists (S k). cbn [firstn flat_map map nth_error List.length].
      rewrite Heq, <- !app_assoc. cbn [app].
      repeat split.
      * lia.
      * intros _. rewrite app_assoc. apply Hfit.
        rewrite len_app.
        rewrite Z.gtb_ltb in Hover. apply Z.ltb_ge in Hover. exact Hover.
      * intros s' Hs'. rewrite app_assoc. apply Hstop. exact Hs'.
Qed.

Lemma chunks_prefix_mono (srcs : list SourceText) :
  forall j k, (j <= k)%nat ->
    JS.len (flat_map chunkOf (firstn j srcs))
    <= JS.len (flat_map chunkOf (firstn k srcs)).
Proof.
  induction srcs as [|s rest IH]; intros j k Hjk.
  - rewrite !firstn_nil. lia.
  - destruct j as [|j]; [cbn [firstn flat_map]; apply len_nonneg|].
    destruct k as [|k]; [lia|].
    cbn [firstn flat_map]. rewrite !len_app.
    specialize (IH j k). lia.
Qed.

Lemma sourceTextsOf_within_limit (successes : list FetchResult) :
  forall srcs, sourceTextsOf parseHTML successes = JS.Ok srcs ->
               Forall (fun s => JS.len (text s) <= perSourceLimit) srcs.
Proof.
  induction successes as [|s rest IH]; cbn [sourceTextsOf]; intros srcs H.
  - injection H as <-. constructor.
  - destruct (parseHTML (html s)) as [d|e]; cbn [JS.bind] in H; [|discriminate].
    destruct (sourceTextsOf parseHTML rest) as [more|e]; cbn [JS.bind] in H;
      [|discriminate].
    specialize (IH more eq_refl).
    destruct (JS.truthy (rawTextOf d)); injection H as <-.
    + constructor; [apply snippet_within_limit | exact IH].
    + exact IH.
Qed.

Lemma aggregate_sources_within_limit successes html successUrl out :
  aggregate parseHTML successes html successUrl = JS.Ok out ->
  Forall (fun s => JS.len (text s) <= perSourceLimit) (sources out)
  /\ combine (sources out) = (combinedText out, usedUrls out).
Proof.
  unfold aggregate. intros H.
  destruct (match successes with
            | [] => fallbackSource parseHTML html successUrl
            | _ :: _ => sourceTextsOf parseHTML successes
            end) as [srcs|e] eqn:Hsrcs; cbn [JS.bind] in H; [|discriminate].
  destruct (combine srcs) as [combined used] eqn:Hc.
  injection H as <-. cbn [sources combinedText usedUrls]. split; [|exact Hc].
  destruct successes as [|s rest].
  - unfold fallbackSource in Hsrcs.
    destruct (parseHTML html) as [d|e]; cbn [JS.bind] in Hsrcs; [|discriminate].
    injection Hsrcs as <-. repeat constructor. apply snippet_within_limit.
  - apply (sourceTextsOf_within_limit _ Hsrcs).
Qed.

(** C1. Whenever the aggregation produces its output, the combined text has
    at most 120000 code units, every source text has at most 20000, and the
    used URLs and the combined text are those of a prefix of the source list:
    every shorter prefix fits, the loop stops, keeping what it has built, at
    the first source whose block would exceed the budget, and nothing after
    that source is used. *)
Theorem aggregate_within_budget successes html successUrl out :
  aggregate parseHTML successes html successUrl = JS.Ok out ->
  JS.len (combinedText out) <= 120000
  /\ Forall (fun s => JS.len (text s) <= 20000) (sources out)
  /\ exists k,
       (k <= List.length (sources out))%nat
       /\ usedUrls out = map srcUrl (firstn k (sources out))
       /\ combinedText out = flat_map chunkOf (firstn k (sources out))
       /\ (forall j, (j <= k)%nat ->
           JS.len (flat_map chunkOf (firstn j (sources out))) <= 120000)
       /\ (forall s, nth_error (sources out) k = Some s ->
           JS.len (combinedText out) + JS.len (chunkOf s) > 120000).
Proof.
  intros H. destruct (aggregate_sources_within_limit _ _ _ H) as [Hlim Hc].
  destruct (combineLoop_prefix (sources out) [] []) as (k & Hk & Heq & Hfit & Hstop).
  unfold combine in Hc. rewrite Hc in Heq. cbn [app] in Heq, Hfit, Hstop.
  injection Heq as Hcomb Hused.
  assert (Hbudget : JS.len (flat_map chunkOf (firstn k (sources out))) <= 120000).
  { apply Hfit. vm_compute. discriminate. }
  split; [|split].
  - rewrite Hcomb. exact Hbudget.
  - exact Hlim.
  - exists k. rewrite Hcomb, Hused.
    split; [exact Hk|]. split; [reflexivity|]. split; [reflexivity|].
    split; [|exact Hstop].
    intros j Hj. pose proof (chunks_prefix_mono (sources out) Hj). lia.
Qed.

(** The aggregation produces its output whenever the DOM parser does not
    throw. *)
Lemma aggregate_returns successes fallbackHtml successUrl :
  (forall h, exists d, parseHTML h = JS.Ok d) ->
  exists out, aggregate parseHTML successes fallbackHtml successUrl = JS.Ok out.
Proof.
  intros Htotal.
  assert (Hs : forall l, exists srcs, sourceTextsOf parseHTML l = JS.Ok srcs).
  { induction l as [|s rest [more IH]]; cbn [sourceTextsOf]; [eauto|].
    destruct (Htotal (html s)) as [d ->]. rewrite IH. cbn [JS.bind].
    destruct (JS.truthy (rawTextOf d)); eauto. }
  unfold aggregate. destruct successes as [|s rest].
  - unfold fallbackSource. destruct (Htotal fallbackHtml) as [d ->]. cbn [JS.bind].
    destruct (combine _); eauto.
  - destruct (Hs (s :: rest)) as [srcs ->]. cbn [JS.bind].
    destruct (combine _); eauto.
Qed.

End AggregationFacts.

Lemma aggregate_within_budget_witness :
  let parse := fun h => JS.Ok (Aggregation.mkDoc (Some h) None None None) in
  let out := Aggregation.mkAgg
               [Aggregation.mkSource (JS.lit "u") (JS.lit "text")]
               ([10; 10]%N ++ JS.lit "[Source: u]" ++ [10%N] ++ JS.lit "text")
               [JS.lit "u"] in
  Aggregation.aggregate parse [Aggregation.mkFetch (JS.lit "u") (JS.lit " text ")]
                        [] None = JS.Ok out
  /\ JS.len (Aggregation.combinedText out) <= 120000.
Proof.
  cbv zeta. split.
  - vm_compute. reflexivity.
  - refine (proj1 (aggregate_within_budget
                     (fun h => JS.Ok (Aggregation.mkDoc (Some h) None None None))
                     [Aggregation.mkFetch (JS.lit "u") (JS.lit " text ")]
                     [] None _)).
    vm_compute. reflexivity.
Defined.

(** Greedy truncation: five full-size sources fit, the sixth does not, and a
    small seventh source that would still fit is not used. *)
Example combine_is_greedy :
  let big := Aggregation.mkSource (JS.lit "b") (repeat 120%N (Z.to_nat 20000)) in
  let small := Aggregation.mkSource (JS.lit "s") (JS.lit "x") in
  let '(combined, used) := Aggregation.combine (repeat big 6 ++ [small]) in
  used = repeat (JS.lit "b") 5
  /\ JS.len combined = 100070
  /\ JS.len combined + JS.len (Aggregation.chunkOf small) <= 120000.
Proof. vm_compute. repeat split; discriminate. Qed.

(* ------------------------------------------------------------------ *)
(** ** Gather-mode runner *)

Section RunnerFacts.

Import Runner.

Variables TInput TResult : Type.
Variable inputs : list TInput.
Variable worker : TInput -> JS.outcome (option TResult).

Local Abbreviation contribution := (contribution inputs worker).
Local Abbreviation accounted := (accounted inputs worker).
Local Abbreviation sequential := (sequential inputs worker).
Local Abbreviation pendingCount := (pendingCount (TResult := TResult) inputs).
Local Abbreviation step := (step inputs worker).
Local Abbreviation run := (run inputs worker).

Lemma contribution_in_order_from (pre l : list TInput) :
  inputs = pre ++ l ->
  flat_map contribution (seq (List.length pre) (List.length l))
  = successesInOrder l worker.
Proof.
  revert pre. induction l as [|x l IH]; intros pre Hin; [reflexivity|].
  cbn [List.length seq flat_map successesInOrder]. f_equal.
  - unfold Runner.contribution, settled. rewrite Hin.
    rewrite nth_error_app2, Nat.sub_diag by lia. cbn [nth_error].
    destruct (worker x) as [[out|]|e]; reflexivity.
  - specialize (IH (pre ++ [x])). rewrite length_app in IH. cbn [List.length] in IH.
    rewrite Nat.add_1_r in IH. apply IH. rewrite <- app_assoc. exact Hin.
Qed.

Lemma contribution_in_order :
  flat_map contribution (seq 0 (List.length inputs)) = successesInOrder inputs worker.
Proof. apply (contribution_in_order_from [] inputs). reflexivity. Qed.

Lemma successes_count :
  List.length (successesInOrder inputs worker)
  = List.length (filter (succeeds worker) inputs).
Proof.
  unfold successesInOrder, succeeds.
  induction inputs as [|x l IH]; [reflexivity|].
  cbn [flat_map filter]. rewrite length_app, IH.
  destruct (worker x) as [[out|]|e]; reflexivity.
Qed.

Lemma running_split (st : GState TResult) (k myIndex : nat) :
  nth_error (running st) k = Some myIndex ->
  running st = firstn k (running st) ++ myIndex :: skipn (S k) (running st)
  /\ (k < List.length (running st))%nat.
Proof.
  intros H. split.
  - destruct (nth_error_split _ _ H) as (l1 & l2 & Heq & Hlen).
    rewrite Heq at 2 3. subst k.
    rewrite firstn_app, firstn_all, Nat.sub_diag. cbn [firstn]. rewrite app_nil_r.
    replace (S (List.length l1)) with (List.length l1 + 1)%nat by lia.
    rewrite skipn_app, skipn_all2 by lia.
    replace (List.length l1 + 1 - List.length l1)%nat with 1%nat by lia.
    cbn [skipn app]. exact Heq.
  - apply nth_error_Some. congruence.
Qed.

(** Resuming a live runner keeps every success accounted for and completes
    exactly one worker. *)
Lemma step_accounted (st : GState TResult) (k : nat) :
  accounted st -> (k < List.length (running st))%nat ->
  accounted (step k st) /\ S (pendingCount (step k st)) = pendingCount st.
Proof.
  intros (Hle & Hdone & Hperm) Hk.
  destruct (nth_error (running st) k) as [myIndex|] eqn:Hnth;
    [|apply nth_error_None in Hnth; lia].
  destruct (running_split _ _ Hnth) as [Hsplit _].
  set (before := firstn k (running st)) in *.
  set (after := skipn (S k) (running st)) in *.
  assert (Hlen : List.length (running st)
                 = S (List.length before + List.length after)).
  { rewrite Hsplit at 1. rewrite length_app. cbn [List.length]. lia. }
  assert (Hcontr : (match settled inputs worker myIndex with
                    | Some out => results st ++ [out]
                    | None => results st
                    end) = results st ++ contribution myIndex).
  { unfold Runner.contribution. destruct (settled inputs worker myIndex);
      [reflexivity | rewrite app_nil_r; reflexivity]. }
  unfold Runner.step. rewrite Hnth, Hcontr. fold before after.
  unfold Runner.replaceAt, Runner.removeAt. fold before after.
  rewrite Hsplit in Hperm. rewrite flat_map_app in Hperm. cbn [flat_map] in Hperm.
  destruct (Nat.ltb (index st) (List.length inputs)) eqn:Hlt.
  - apply Nat.ltb_lt in Hlt. split.
    + unfold Runner.accounted. cbn [index results running]. split; [lia|]. split.
      * intros Hnil. destruct before; discriminate.
      * etransitivity; [|exact Hperm].
        replace (List.length inputs - index st)%nat
          with (S (List.length inputs - S (index st))) by lia.
        cbn [seq flat_map]. rewrite flat_map_app. cbn [flat_map].
        rewrite <- !app_assoc. apply Permutation_app_head.
        etransitivity; [apply Permutation_app_swap_app|].
        apply Permutation_app_head. apply Permutation_app_head.
        apply Permutation_app_swap_app.
    + unfold Runner.pendingCount. cbn [index results running].
      rewrite Hlen, length_app. cbn [List.length]. lia.
  - apply Nat.ltb_ge in Hlt. assert (Heq : index st = List.length inputs) by lia.
    split.
    + unfold Runner.accounted. cbn [index results running]. split; [lia|].
      split; [intros _; exact Heq|].
      etransitivity; [|exact Hperm].
      rewrite flat_map_app, <- !app_assoc. apply Permutation_app_head.
      apply Permutation_app_swap_app.
    + unfold Runner.pendingCount. cbn [index results running].
      rewrite Hlen, length_app. lia.
Qed.

(** Enough fuel lets every runner return. *)
Lemma run_accounted (fuel : nat) :
  forall schedule st,
    accounted st -> (pendingCount st <= fuel)%nat ->
    running (run fuel schedule st) = [] /\ accounted (run fuel schedule st).
Proof.
  induction fuel as [|fuel IH]; intros schedule st Hacc Hfuel.
  - cbn [Runner.run]. split; [|exact Hacc].
    unfold Runner.pendingCount in Hfuel.
    destruct (running st); [reflexivity | cbn [List.length] in Hfuel; lia].
  - cbn [Runner.run]. destruct (running st) as [|r rs] eqn:Hrun; [auto|].
    assert (Hpos : (0 < List.length (running st))%nat)
      by (rewrite Hrun; cbn [List.length]; lia).
    rewrite <- Hrun.
    destruct schedule as [|k schedule'].
    + destruct (step_accounted Hacc Hpos) as [Hacc' Hm]. apply IH; [exact Hacc'|lia].
    + assert (Hk : (k mod List.length (running st) < List.length (running st))%nat)
        by (apply Nat.mod_upper_bound; lia).
      destruct (step_accounted Hacc Hk) as [Hacc' Hm]. apply IH; [exact Hacc'|lia].
Qed.

Lemma runnerCount_bounds (concurrency : Z) :
  inputs <> [] ->
  (1 <= runnerCount inputs concurrency <= List.length inputs)%nat.
Proof.
  intros Hne. unfold runnerCount.
  assert (0 < List.length inputs)%nat by (destruct inputs; [congruence | cbn; lia]).
  lia.
Qed.

Lemma start_accounted (concurrency : Z) :
  inputs <> [] ->
  accounted (start TResult inputs concurrency)
  /\ pendingCount (start TResult inputs concurrency) = List.length inputs.
Proof.
  intros Hne. pose proof (runnerCount_bounds concurrency Hne) as Hn.
  unfold Runner.start, Runner.accounted, Runner.pendingCount.
  cbn [index results running]. rewrite length_seq. repeat split; try lia.
  - intros Hnil. apply (f_equal (@List.length nat)) in Hnil.
    rewrite length_seq in Hnil. cbn in Hnil. lia.
  - cbn [app]. rewrite <- flat_map_app, <- seq_app.
    replace (runnerCount inputs concurrency
             + (List.length inputs - runnerCount inputs concurrency))%nat
      with (List.length inputs) by lia.
    apply Permutation_refl.
Qed.

Lemma final_accounted (schedule : list nat) (concurrency : Z) :
  inputs <> [] ->
  running (finalState inputs worker schedule concurrency) = []
  /\ Permutation (results (finalState inputs worker schedule concurrency))
                 (successesInOrder inputs worker).
Proof.
  intros Hne. destruct (start_accounted concurrency Hne) as [Hacc Hm].
  unfold finalState.
  destruct (@run_accounted (List.length inputs) schedule _ Hacc) as [Hnil Hacc'];
    [lia|].
  split; [exact Hnil|].
  destruct Hacc' as (Hle & Hdone & Hperm).
  rewrite Hnil in Hperm. rewrite (Hdone Hnil), Nat.sub_diag in Hperm.
  cbn [seq flat_map app] in Hperm. rewrite app_nil_r in Hperm.
  rewrite contribution_in_order in Hperm. exact Hperm.
Qed.

Lemma step_sequential (st : GState TResult) :
  sequential st -> sequential (step 0 st).
Proof.
  intros [(i & Hrun & Hidx & Hi & Hres) | [Hrun Hres]].
  - unfold Runner.step. rewrite Hrun. cbn [nth_error].
    assert (Hcontr : (match settled inputs worker i with
                      | Some out => results st ++ [out]
                      | None => results st
                      end) = flat_map contribution (seq 0 (S i))).
    { rewrite seq_S, flat_map_app, <- Hres. cbn [flat_map Nat.add].
      rewrite app_nil_r. unfold Runner.contribution.
      destruct (settled inputs worker i); [reflexivity | rewrite app_nil_r; reflexivity]. }
    rewrite Hcontr, Hidx.
    destruct (Nat.ltb (S i) (List.length inputs)) eqn:Hlt.
    + apply Nat.ltb_lt in Hlt. left. exists (S i). cbn. auto.
    + apply Nat.ltb_ge in Hlt. right. cbn [running results].
      replace (List.length inputs) with (S i) by lia. split; reflexivity.
  - right. unfold Runner.step. rewrite Hrun. cbn [nth_error]. auto.
Qed.

Lemma run_sequential (fuel : nat) :
  forall schedule st, sequential st -> sequential (run fuel schedule st).
Proof.
  induction fuel as [|fuel IH]; intros schedule st Hseq; [exact Hseq|].
  cbn [Runner.run]. destruct (running st) as [|r rs] eqn:Hrun; [exact Hseq|].
  assert (Hone : rs = []).
  { destruct Hseq as [(i & Hr & _) | [Hr _]]; congruence. }
  subst rs. destruct schedule as [|k schedule'].
  - apply IH, step_sequential, Hseq.
  - cbn [List.length]. rewrite Nat.mod_1_r. apply IH, step_sequential, Hseq.
Qed.

Lemma start_sequential (concurrency : Z) :
  inputs <> [] -> concurrency <= 1 ->
  sequential (start TResult inputs concurrency).
Proof.
  intros Hne Hc. pose proof (runnerCount_bounds concurrency Hne) as Hn.
  assert (H1 : runnerCount inputs concurrency = 1%nat) by (unfold runnerCount in *; lia).
  left. exists 0%nat. unfold Runner.start. rewrite H1. cbn. repeat split. lia.
Qed.

(** [results] grows by the contributions of the workers in the order in which
    they complete. *)
Lemma results_in_completion_order (fuel : nat) :
  forall schedule st,
    results (run fuel schedule st)
    = results st ++ flat_map contribution (completionOrder inputs worker fuel schedule st).
Proof.
  induction fuel as [|fuel IH]; intros schedule st;
    cbn [Runner.run completionOrder]; [rewrite app_nil_r; reflexivity|].
  destruct (running st) as [|r rs] eqn:Hrun; [cbn; rewrite app_nil_r; reflexivity|].
  rewrite <- Hrun.
  assert (Hstep : forall k i, nth_error (running st) k = Some i ->
                              results (step k st) = results st ++ contribution i).
  { intros k i Hnth. unfold Runner.step, Runner.contribution. rewrite Hnth.
    destruct (settled inputs worker i), (Nat.ltb (index st) (List.length inputs));
      cbn [results]; rewrite ?app_nil_r; reflexivity. }
  assert (Hk : forall k, (k < List.length (running st))%nat ->
                         exists i, nth_error (running st) k = Some i).
  { intros k Hlt. destruct (nth_error (running st) k) eqn:E; [eauto|].
    apply nth_error_None in E. lia. }
  assert (Hpos : (0 < List.length (running st))%nat)
    by (rewrite Hrun; cbn [List.length]; lia).
  destruct schedule as [|k schedule']; cbn [tl].
  - destruct (Hk 0%nat Hpos) as [i Hi]. rewrite Hi, IH, (Hstep _ _ Hi).
    cbn [flat_map]. rewrite <- app_assoc. reflexivity.
  - destruct (Hk (k mod List.length (running st))%nat) as [i Hi];
      [apply Nat.mod_upper_bound; lia|].
    rewrite Hi, IH, (Hstep _ _ Hi). cbn [flat_map]. rewrite <- app_assoc. reflexivity.
Qed.

(** C9, amended. Given N candidates of which K produce a non-null result and
    the others produce [null] or throw, the gather-mode runner lets every
    runner finish and returns exactly K results, each successful result once.
    They appear in the order in which the workers complete; this is the
    candidate order filtered by success when there is a single runner. *)
Theorem gather_returns_every_success (schedule : list nat) (concurrency : Z) :
  let out := fetchAllWithConcurrency inputs worker schedule concurrency in
  Permutation out (successesInOrder inputs worker)
  /\ List.length out = List.length (filter (succeeds worker) inputs)
  /\ (inputs <> [] ->
      running (finalState inputs worker schedule concurrency) = []
      /\ out = flat_map contribution
                 (completionOrder inputs worker (List.length inputs) schedule
                    (start TResult inputs concurrency)))
  /\ (concurrency <= 1 -> out = successesInOrder inputs worker).
Proof.
  cbv zeta. unfold fetchAllWithConcurrency.
  destruct inputs as [|x l] eqn:Hin.
  - cbn. repeat split; try reflexivity; try constructor; congruence.
  - rewrite <- Hin.
    assert (Hne : inputs <> []) by (rewrite Hin; discriminate).
    destruct (final_accounted schedule concurrency Hne) as [Hnil Hperm].
    split; [exact Hperm|]. split; [|split].
    + rewrite (Permutation_length Hperm). apply successes_count.
    + intros _. split; [exact Hnil|].
      unfold finalState. rewrite results_in_completion_order. reflexivity.
    + intros Hc.
      pose proof (run_sequential (List.length inputs) schedule
                    (start_sequential Hne Hc)) as Hseq.
      fold (finalState inputs worker schedule concurrency) in Hseq.
      destruct Hseq as [(i & Hr & _) | [_ Hres]]; [congruence|].
      rewrite Hres. apply contribution_in_order.
Qed.

(** C9, as stated, fails on the order: with two candidates that both
    succeed, the second page may complete first, and its result then comes
    first. *)
Lemma gather_completion_order_counterexample :
  let candidates := [10; 20]%nat in
  let worker := fun n : nat => JS.Ok (Some n) in
  fetchAllWithConcurrency candidates worker [1; 0]%nat 4 = [20; 10]%nat
  /\ successesInOrder candidates worker = [10; 20]%nat
  /\ fetchAllWithConcurrency candidates worker [1; 0]%nat 4
     <> successesInOrder candidates worker.
Proof. vm_compute. repeat split. discriminate. Qed.

End RunnerFacts.

Lemma gather_returns_every_success_witness :
  let candidates := [10; 20; 30]%nat in
  let worker := fun n : nat => if Nat.eqb n 20 then JS.Ok None else JS.Ok (Some n) in
  candidates <> [] /\ 1 <= 1
  /\ Runner.fetchAllWithConcurrency candidates worker [1; 0]%nat 1 = [10; 30]%nat.
Proof.
  cbv zeta. split; [discriminate|]. split; [lia|].
  refine (proj2 (proj2 (proj2
            (gather_returns_every_success [10; 20; 30]%nat
               (fun n : nat => if Nat.eqb n 20 then JS.Ok None else JS.Ok (Some n))
               [1; 0]%nat 1))) _).
  lia.
Defined.

(* ------------------------------------------------------------------ *)
(** ** Scoring and ranking *)

Section RankingFacts.

Import Candidates.

Variable URL_new : jsstring -> option jsstring -> JS.outcome URL.
Variable toLowerCase : jsstring -> jsstring.

Local Abbreviation scoreDomain := (scoreDomain URL_new toLowerCase).
Local Abbreviation scored := (scored URL_new toLowerCase).

Lemma in_firstn (A : Type) (n : nat) (l : list A) (x : A) :
  In x (firstn n l) -> In x l.
Proof.
  intros H. rewrite <- (firstn_skipn n l). apply in_or_app. left. exact H.
Qed.

Lemma insertByScore_perm (x : jsstring * Z) (l : list (jsstring * Z)) :
  Permutation (insertByScore x l) (x :: l).
Proof.
  induction l as [|y l IH]; cbn [insertByScore]; [apply Permutation_refl|].
  destruct (snd y - snd x <=? 0); [apply Permutation_refl|].
  etransitivity; [apply perm_skip, IH | apply perm_swap].
Qed.

Lemma sortByScore_perm (l : list (jsstring * Z)) : Permutation (sortByScore l) l.
Proof.
  induction l as [|x l IH]; cbn [sortByScore fold_right]; [constructor|].
  etransitivity; [apply insertByScore_perm | apply perm_skip, IH].
Qed.

Lemma insertByScore_sorted (x : jsstring * Z) (l : list (jsstring * Z)) :
  Sorted byScoreDesc l -> Sorted byScoreDesc (insertByScore x l).
Proof.
  induction l as [|y l IH]; cbn [insertByScore]; intros Hs.
  - repeat constructor.
  - destruct (snd y - snd x <=? 0) eqn:Hcmp.
    + apply Z.leb_le in Hcmp. constructor; [exact Hs|].
      constructor. unfold byScoreDesc. lia.
    + apply Z.leb_gt in Hcmp. inversion Hs as [|? ? Hs' Hhd]; subst.
      constructor; [apply IH, Hs'|].
      destruct l as [|z l]; cbn [insertByScore].
      * constructor. unfold byScoreDesc. lia.
      * destruct (snd z - snd x <=? 0).
        -- constructor. unfold byScoreDesc. lia.
        -- inversion Hhd; subst. constructor. assumption.
Qed.

Lemma sortByScore_sorted (l : list (jsstring * Z)) :
  StronglySorted byScoreDesc (sortByScore l).
Proof.
  apply Sorted_StronglySorted.
  - intros a b c Hab Hbc. unfold byScoreDesc in *. lia.
  - induction l as [|x l IH]; cbn [sortByScore fold_right]; [constructor|].
    apply insertByScore_sorted, IH.
Qed.

(** Entries of equal score keep their relative order. *)
Lemma insertByScore_stable (z : Z) (x : jsstring * Z) (l : list (jsstring * Z)) :
  filter (fun p => snd p =? z) (insertByScore x l)
  = filter (fun p => snd p =? z) (x :: l).
Proof.
  induction l as [|y l IH]; cbn [insertByScore]; [reflexivity|].
  destruct (snd y - snd x <=? 0) eqn:Hcmp; [reflexivity|].
  apply Z.leb_gt in Hcmp.
  cbn [filter] in *. rewrite IH.
  destruct (snd x =? z) eqn:Hx, (snd y =? z) eqn:Hy; try reflexivity.
  apply Z.eqb_eq in Hx, Hy. lia.
Qed.

Lemma sortByScore_stable (z : Z) (l : list (jsstring * Z)) :
  filter (fun p => snd p =? z) (sortByScore l) = filter (fun p => snd p =? z) l.
Proof.
  induction l as [|x l IH]; cbn [sortByScore fold_right]; [reflexivity|].
  fold (sortByScore l). rewrite insertByScore_stable. cbn [filter]. rewrite IH.
  reflexivity.
Qed.

(** C8. The score of a URL that parses is the sum of +3 (quality host), -5
    (social host), -10 (ad or tracking host), +1 (starts with [https://]) and
    +1 (fewer than 100 code units); a URL that does not parse scores -1.  The
    ranked candidates are the first 8 of the candidates sorted by descending
    score, candidates of equal score staying in discovery order. *)
Theorem score_and_rank (url : jsstring) (candidates : list jsstring) :
  scoreDomain url
  = match URL_new url None with
    | JS.Throw _ => -1
    | JS.Ok u =>
        let h := toLowerCase (hostname u) in
        (if Re.test qualityRe h then 3 else 0)
        + (if Re.test socialRe h then -5 else 0)
        + (if Re.test adDomainRe h then -10 else 0)
        + (if JS.startsWith url (JS.lit "https://") then 1 else 0)
        + (if JS.len url <? 100 then 1 else 0)
    end
  /\ exists sorted,
       rankedCandidates URL_new toLowerCase candidates = map fst (firstn 8 sorted)
       /\ Permutation sorted (map (fun u => (u, scoreDomain u)) candidates)
       /\ StronglySorted (fun a b => snd a >= snd b) sorted
       /\ (forall z, filter (fun p => snd p =? z) sorted
                     = filter (fun p => snd p =? z)
                              (map (fun u => (u, scoreDomain u)) candidates)).
Proof.
  split.
  - unfold Candidates.scoreDomain, scoreDomainTry.
    destruct (URL_new url None) as [u|e]; cbn [JS.bind]; [|reflexivity].
    cbv zeta.
    destruct (Re.test qualityRe _), (Re.test socialRe _), (Re.test adDomainRe _),
      (JS.startsWith url _), (JS.len url <? 100); reflexivity.
  - exists (sortByScore (scored candidates)). split; [reflexivity|].
    split; [apply sortByScore_perm|]. split; [apply sortByScore_sorted|].
    intros z. apply sortByScore_stable.
Qed.

(** At most 8 candidates are visited, all of them among the given ones. *)
Lemma rankedCandidates_bound (candidates : list jsstring) :
  (List.length (rankedCandidates URL_new toLowerCase candidates) <= 8)%nat
  /\ incl (rankedCandidates URL_new toLowerCase candidates) candidates.
Proof.
  unfold rankedCandidates. split.
  - rewrite length_map. apply firstn_le_length.
  - intros u Hin. apply in_map_iff in Hin. destruct Hin as ([u' z] & <- & Hin).
    apply in_firstn in Hin.
    apply (Permutation_in _ (sortByScore_perm _)) in Hin.
    unfold Candidates.scored in Hin. apply in_map_iff in Hin.
    destruct Hin as (v & Hv & Hin). injection Hv as <- _. exact Hin.
Qed.

End RankingFacts.

(** Ten candidates: the two quality hosts come first, the social host last,
    ties stay in discovery order, and only eight are kept. *)
Example ranking_example :
  Candidates.rankedCandidates BasicURL.URL_new JS.asciiLower
    (map JS.lit ["https://a.example/"; "http://b.example/"; "https://www.facebook.com/x";
                 "https://github.com/r"; "https://c.example/"; "https://d.example/";
                 "https://docs.e.example/"; "https://f.example/"; "https://g.example/";
                 "https://h.example/"]%string)
  = map JS.lit ["https://github.com/r"; "https://docs.e.example/"; "https://a.example/";
                "https://c.example/"; "https://d.example/"; "https://f.example/";
                "https://g.example/"; "https://h.example/"]%string.
Proof. vm_compute. reflexivity. Qed.

(* ------------------------------------------------------------------ *)
(** ** The handler: empty candidate list, query normalization *)

Section HandlerFacts.

Import Candidates Handler.

Variable URL_new : jsstring -> option jsstring -> JS.outcome URL.
Variable toLowerCase : jsstring -> jsstring.
Variable launch : JS.outcome unit.
Variable newPage : JS.outcome unit.
Variable stealth : JS.outcome unit.
Variable serp : jsstring -> JS.outcome jsstring.
Variable evaluate : JS.outcome (list RawResult).
Variable visit : jsstring -> JS.outcome jsstring.
Variable readability : jsstring -> jsstring -> JS.outcome (option ReadabilityArticle).
Variable parseHTML : jsstring -> JS.outcome Aggregation.Doc.
Variable generateContent :
  jsstring -> list jsstring -> jsstring -> JS.outcome (option jsstring).
Variable schedule : list nat.

Lemma unusable_filtered (rawResults : list RawResult) :
  Forall (unusable URL_new) rawResults ->
  exists hrefs,
    JS.mapM (fun r => normalizeDuckHref URL_new (rawHref r))
            (filter (fun r => negb (isAd r)) rawResults) = JS.Ok hrefs
    /\ filter (fun h => negb (Re.test adsenseRe h))
              (filter (fun h => Re.test httpRe h) hrefs) = [].
Proof.
  induction 1 as [|r l Hr _ (hrefs & Hmap & Hfil)]; cbn [filter JS.mapM].
  - exists []. split; reflexivity.
  - destruct (isAd r) eqn:Had; cbn [negb].
    + exists hrefs. split; assumption.
    + destruct Hr as [Hr | (h & Hh & Hbad)]; [congruence|].
      exists (h :: hrefs). cbn [JS.mapM]. rewrite Hh, Hmap. cbn [JS.bind].
      split; [reflexivity|]. cbn [filter].
      destruct (Re.test httpRe h) eqn:Hhttp; [|exact Hfil].
      destruct Hbad as [Hbad | Hbad]; [congruence|].
      cbn [filter]. rewrite Hbad. cbn [negb]. exact Hfil.
Qed.

(** C7. If every extracted anchor is ad-flagged or malformed, the candidate
    list is empty, the pipeline throws the no-candidates error, and the
    client gets a plain-text response with status 500; no candidate is handed
    to the page workers. *)
Theorem no_candidates_is_fatal (q : option jsstring) (serpHtml : jsstring)
        (rawResults : list RawResult) :
  Forall (unusable URL_new) rawResults ->
  JS.truthy (queryOf q) = true ->
  launch = JS.Ok tt -> newPage = JS.Ok tt -> stealth = JS.Ok tt ->
  serp (searchUrlOf (queryOf q)) = JS.Ok serpHtml ->
  evaluate = JS.Ok rawResults ->
  preferredCandidates URL_new rawResults = JS.Ok []
  /\ afterSerp URL_new toLowerCase visit readability parseHTML generateContent
               schedule (queryOf q) serpHtml rawResults
     = JS.Throw noCandidatesMessage
  /\ GET URL_new toLowerCase launch newPage stealth serp evaluate visit readability
         parseHTML generateContent schedule q
     = mkRun [] (mkResponse 500 textPlain
                   (JS.lit "Search failed: Failed to locate any non-ad search result links")).
Proof.
  intros Hbad Hq Hlaunch Hpage Hstealth Hserp Heval.
  destruct (unusable_filtered Hbad) as (hrefs & Hmap & Hfil).
  assert (Hpref : preferredCandidates URL_new rawResults = JS.Ok []).
  { unfold preferredCandidates. rewrite Hmap. cbn [JS.bind]. rewrite Hfil. reflexivity. }
  assert (Hafter : afterSerp URL_new toLowerCase visit readability parseHTML
                     generateContent schedule (queryOf q) serpHtml rawResults
                   = JS.Throw noCandidatesMessage).
  { unfold afterSerp. rewrite Hpref. reflexivity. }
  split; [exact Hpref|]. split; [exact Hafter|].
  unfold GET. cbv zeta. rewrite Hq, Hlaunch. cbn [negb].
  unfold handlerTry. rewrite Hpage, Hstealth, Hserp, Heval. cbn [rethrow JS.bind].
  rewrite Hafter. reflexivity.
Qed.

Lemma normalizedQuery_length (query : jsstring) :
  List.length (normalizedQueryOf query) = List.length query.
Proof. apply length_map. Qed.

Lemma normalizedQuery_no_plus (query : jsstring) :
  ~ In 43%N (normalizedQueryOf query).
Proof.
  unfold normalizedQueryOf. intros Hin. apply in_map_iff in Hin.
  destruct Hin as (c & Hc & _). destruct (N.eqb c 43) eqn:E; [discriminate|].
  apply N.eqb_neq in E. congruence.
Qed.

Lemma normalizedQuery_fixed (query : jsstring) :
  ~ In 43%N query -> normalizedQueryOf query = query.
Proof.
  unfold normalizedQueryOf. induction query as [|c s IH]; intros Hno; [reflexivity|].
  cbn [map]. destruct (N.eqb c 43) eqn:E.
  - apply N.eqb_eq in E. subst c. exfalso. apply Hno. left. reflexivity.
  - rewrite IH; [reflexivity|]. intros Hin. apply Hno. right. exact Hin.
Qed.

(** C10. The query that is searched is the trimmed [q] parameter with every
    plus sign replaced by a space, position by position: the search URL is
    built from it, it contains no plus sign, it differs from the trimmed
    parameter exactly when that contains a plus sign, and the results page is
    requested at that URL. *)
Theorem plus_becomes_space (q : option jsstring) :
  let query := queryOf q in
  let normalizedQuery := normalizedQueryOf query in
  searchUrlOf query
  = JS.lit "https://html.duckduckgo.com/html/?" ++ Uri.serializeQ normalizedQuery
  /\ (forall i, nth_error normalizedQuery i
                = option_map (fun c => if N.eqb c 43 then 32%N else c)
                             (nth_error query i))
  /\ ~ In 43%N normalizedQuery
  /\ (In 43%N query -> normalizedQuery <> query)
  /\ (~ In 43%N query -> normalizedQuery = query)
  /\ (JS.truthy query = true -> launch = JS.Ok tt ->
      newPage = JS.Ok tt -> stealth = JS.Ok tt ->
      forall e, serp (JS.lit "https://html.duckduckgo.com/html/?"
                      ++ Uri.serializeQ normalizedQuery) = JS.Throw e ->
      response (GET URL_new toLowerCase launch newPage stealth serp evaluate visit
                    readability parseHTML generateContent schedule q)
      = mkResponse 500 textPlain
          (JS.lit "Search failed: Failed to load search results: " ++ e)).
Proof.
  cbv zeta. split; [reflexivity|]. split; [|split; [|split; [|split]]].
  - intros i. unfold normalizedQueryOf. apply nth_error_map.
  - apply normalizedQuery_no_plus.
  - intros Hin Heq. rewrite <- Heq in Hin. exact (normalizedQuery_no_plus _ Hin).
  - apply normalizedQuery_fixed.
  - intros Hq Hlaunch Hpage Hstealth e Hserp.
    unfold GET. cbv zeta. rewrite Hq, Hlaunch. cbn [negb].
    unfold handlerTry. rewrite Hpage, Hstealth. cbn [rethrow JS.bind].
    unfold searchUrlOf. rewrite Hserp. cbn [rethrow JS.bind response].
    reflexivity.
Qed.

End HandlerFacts.

Lemma no_candidates_is_fatal_witness :
  let rawResults :=
    [Candidates.mkRaw (JS.lit "https://duckduckgo.com/y.js?ad_domain=shop.example") true;
     Candidates.mkRaw (JS.lit "javascript:void(0)") false;
     Candidates.mkRaw (JS.lit "https://www.google.com/adsense/domains/caf.js") false] in
  let q := Some (JS.lit "rust pricing") in
  let serp := fun _ : jsstring => JS.Ok (JS.lit "<html></html>") in
  Forall (Candidates.unusable BasicURL.URL_new) rawResults
  /\ Handler.GET BasicURL.URL_new JS.asciiLower (JS.Ok tt) (JS.Ok tt) (JS.Ok tt) serp
        (JS.Ok rawResults) (fun u => JS.Ok u) (fun _ _ => JS.Ok None)
        (fun _ => JS.Throw []) (fun _ _ _ => JS.Ok None) [] q
     = Handler.mkRun [] (Handler.mkResponse 500 Handler.textPlain
         (JS.lit "Search failed: Failed to locate any non-ad search result links")).
Proof.
  cbv zeta.
  assert (Hbad : Forall (Candidates.unusable BasicURL.URL_new)
            [Candidates.mkRaw (JS.lit "https://duckduckgo.com/y.js?ad_domain=shop.example") true;
             Candidates.mkRaw (JS.lit "javascript:void(0)") false;
             Candidates.mkRaw (JS.lit "https://www.google.com/adsense/domains/caf.js") false]).
  { apply Forall_cons; [left; reflexivity|].
    apply Forall_cons.
    { right. exists (JS.lit "javascript:void(0)"). split; [reflexivity|].
      left. vm_compute. reflexivity. }
    apply Forall_cons; [|apply Forall_nil].
    right. exists (JS.lit "https://www.google.com/adsense/domains/caf.js").
    split; [reflexivity|]. right. vm_compute. reflexivity. }
  split; [exact Hbad|].
  refine (proj2 (proj2
            (@no_candidates_is_fatal BasicURL.URL_new JS.asciiLower (JS.Ok tt) (JS.Ok tt)
               (JS.Ok tt) (fun _ : jsstring => JS.Ok (JS.lit "<html></html>"))
               (JS.Ok _) (fun u => JS.Ok u) (fun _ _ => JS.Ok None)
               (fun _ => JS.Throw []) (fun _ _ _ => JS.Ok None) []
               (Some (JS.lit "rust pricing")) (JS.lit "<html></html>") _
               Hbad _ _ _ _ _ _))); reflexivity.
Defined.

Lemma plus_becomes_space_witness :
  let query := Handler.queryOf (Some (JS.lit " c++ tutorial ")) in
  query = JS.lit "c++ tutorial"
  /\ In 43%N query
  /\ Handler.normalizedQueryOf query <> query
  /\ Handler.searchUrlOf query = JS.lit "https://html.duckduckgo.com/html/?q=c+++tutorial".
Proof.
  cbv zeta.
  assert (Hin : In 43%N (Handler.queryOf (Some (JS.lit " c++ tutorial ")))).
  { vm_compute. right. left. reflexivity. }
  split; [vm_compute; reflexivity|]. split; [exact Hin|]. split.
  - refine (proj1 (proj2 (proj2 (proj2
              (@plus_becomes_space BasicURL.URL_new JS.asciiLower (JS.Ok tt) (JS.Ok tt)
                 (JS.Ok tt) (fun _ : jsstring => JS.Ok [])
                 (JS.Ok []) (fun u => JS.Ok u) (fun _ _ => JS.Ok None)
                 (fun _ => JS.Throw []) (fun _ _ _ => JS.Ok None) []
                 (Some (JS.lit " c++ tutorial ")))))) Hin).
  - vm_compute. reflexivity.
Defined.

(* ------------------------------------------------------------------ *)
(** ** robots.txt policy *)

Lemma eqb_eq (a b : jsstring) : JS.eqb a b = true <-> a = b.
Proof.
  revert b. induction a as [|x a IH]; intros [|y b]; cbn [JS.eqb];
    try (split; [discriminate | congruence]); [split; reflexivity|].
  destruct (N.eqb x y) eqn:E.
  - apply N.eqb_eq in E. subst y. rewrite IH. split; congruence.
  - apply N.eqb_neq in E. split; [discriminate | congruence].
Qed.

Lemma startsWith_head (s p : jsstring) (c : N) :
  JS.startsWith s (c :: p) = true -> exists s', s = c :: s'.
Proof.
  destruct s as [|y s]; cbn [JS.startsWith]; [discriminate|].
  destruct (N.eqb c y) eqn:E; [|discriminate].
  apply N.eqb_eq in E. subst y. eauto.
Qed.

Section RobotsFacts.

Import Robots.

Variable URL_new : jsstring -> option jsstring -> JS.outcome URL.
Variable toLowerCase : jsstring -> jsstring.
Variable fetch : jsstring -> jsstring -> JS.outcome HttpResponse.

Local Abbreviation checkRobotsTxt := (checkRobotsTxt URL_new toLowerCase fetch).
Local Abbreviation parseLine := (parseLine toLowerCase).
Local Abbreviation isUserAgentLine := (isUserAgentLine toLowerCase).
Local Abbreviation isDisallowLine := (isDisallowLine toLowerCase).
Local Abbreviation isAllowLine := (isAllowLine toLowerCase).
Local Abbreviation userAgentOf := (userAgentOf toLowerCase).
Local Abbreviation disallowPathOf := (disallowPathOf toLowerCase).
Local Abbreviation groupInForce := (groupInForce toLowerCase).
Local Abbreviation nextGroup := (nextGroup toLowerCase).
Local Abbreviation agentMatches := (agentMatches toLowerCase).

(** C5. The check allows the crawl whenever robots.txt cannot be had: the
    URL does not parse, the fetch throws, the response is not 2xx, or reading
    the body throws.  It always returns: the answer is [false] only after a
    successful fetch whose body disallows the path. *)
Theorem robots_fail_open (url userAgent : jsstring) :
  (forall e, URL_new url None = JS.Throw e -> checkRobotsTxt url userAgent = true)
  /\ (forall urlObj, URL_new url None = JS.Ok urlObj ->
        (forall e, fetch (robotsUrlOf urlObj) userAgent = JS.Throw e ->
                   checkRobotsTxt url userAgent = true)
        /\ (forall response,
              fetch (robotsUrlOf urlObj) userAgent = JS.Ok response ->
              (status response < 200 \/ 299 < status response
               \/ exists e, bodyText response = JS.Throw e) ->
              checkRobotsTxt url userAgent = true))
  /\ (checkRobotsTxt url userAgent = false ->
      exists urlObj response robotsText,
        URL_new url None = JS.Ok urlObj
        /\ fetch (robotsUrlOf urlObj) userAgent = JS.Ok response
        /\ 200 <= status response <= 299
        /\ bodyText response = JS.Ok robotsText
        /\ decide toLowerCase urlObj userAgent robotsText = false).
Proof.
  unfold Robots.checkRobotsTxt, checkRobotsTry. split; [|split].
  - intros e ->. reflexivity.
  - intros urlObj ->. cbn [JS.bind]. split.
    + intros e ->. reflexivity.
    + intros response -> Hfail. cbn [JS.bind]. unfold ok.
      destruct Hfail as [Hlo | [Hhi | [e He]]].
      * replace (200 <=? status response) with false by (symmetry; apply Z.leb_gt; lia).
        reflexivity.
      * replace (status response <=? 299) with false by (symmetry; apply Z.leb_gt; lia).
        rewrite andb_false_r. reflexivity.
      * destruct (negb _); [reflexivity|]. rewrite He. reflexivity.
  - destruct (URL_new url None) as [urlObj|e] eqn:Hurl; cbn [JS.bind]; [|discriminate].
    cbv zeta.
    destruct (fetch (robotsUrlOf urlObj) userAgent) as [response|e] eqn:Hfetch;
      cbn [JS.bind]; [|discriminate].
    destruct (ok response) eqn:Hok; cbn [negb]; [|discriminate].
    destruct (bodyText response) as [robotsText|e] eqn:Hbody; cbn [JS.bind];
      [|discriminate].
    intros Hdec. exists urlObj, response, robotsText.
    unfold ok in Hok. apply andb_true_iff in Hok. destruct Hok as [H1 H2].
    apply Z.leb_le in H1. apply Z.leb_le in H2.
    split; [reflexivity|]. split; [exact Hfetch|]. split; [lia|].
    split; [exact Hbody | exact Hdec].
Qed.

Lemma pathAllowed_false_iff (urlPath : jsstring) (disallowed : list jsstring) :
  pathAllowed urlPath disallowed = false
  <-> exists p, In p disallowed
                /\ (p = JS.lit "/" \/ JS.startsWith urlPath p = true).
Proof.
  induction disallowed as [|d rest IH]; cbn [pathAllowed].
  - split; [discriminate | intros (p & [] & _)].
  - destruct (JS.eqb d (JS.lit "/") || JS.startsWith urlPath d) eqn:Hm.
    + split; [intros _ | reflexivity]. exists d. split; [left; reflexivity|].
      apply orb_true_iff in Hm. destruct Hm as [Hm | Hm]; [left | right; exact Hm].
      apply eqb_eq. exact Hm.
    + apply orb_false_iff in Hm. destruct Hm as [Hne Hns].
      rewrite IH. split.
      * intros (p & Hin & Hp). exists p. split; [right; exact Hin | exact Hp].
      * intros (p & [<- | Hin] & Hp); [|exists p; auto].
        destruct Hp as [Hp | Hp]; [|congruence].
        apply eqb_eq in Hp. congruence.
Qed.

(** The three kinds of directive lines exclude each other. *)
Lemma disallow_not_user_agent (line : jsstring) :
  isDisallowLine line = true -> isUserAgentLine line = false.
Proof.
  unfold Robots.isDisallowLine, Robots.isUserAgentLine. intros H.
  change (JS.lit "disallow:") with (100%N :: JS.lit "isallow:") in H.
  destruct (@startsWith_head _ _ _ H) as [s' ->]. reflexivity.
Qed.

Lemma allow_not_directive (line : jsstring) :
  isAllowLine line = true ->
  isUserAgentLine line = false /\ isDisallowLine line = false.
Proof.
  unfold Robots.isAllowLine, Robots.isDisallowLine, Robots.isUserAgentLine. intros H.
  change (JS.lit "allow:") with (97%N :: JS.lit "llow:") in H.
  destruct (@startsWith_head _ _ _ H) as [s' ->]. split; reflexivity.
Qed.

Lemma groupApplies_iff (userAgent : jsstring) (st : ParseState) :
  groupApplies toLowerCase st userAgent = true
  <-> agentMatches userAgent (currentUserAgent st).
Proof.
  unfold groupApplies, Robots.agentMatches. rewrite orb_true_iff, !eqb_eq. reflexivity.
Qed.

Lemma truthy_iff (s : jsstring) : JS.truthy s = true <-> s <> [].
Proof. destruct s; cbn; split; congruence. Qed.

(** What one line does to the user-agent in force and to the disallowed
    paths. *)
Lemma parseLine_effect (userAgent : jsstring) (st : ParseState) (line : jsstring) :
  currentUserAgent (parseLine userAgent st line)
  = (if isUserAgentLine line then userAgentOf line else currentUserAgent st)
  /\ forall p,
       In p (disallowedPaths (parseLine userAgent st line))
       <-> In p (disallowedPaths st)
           \/ (agentMatches userAgent (currentUserAgent st)
               /\ isDisallowLine line = true
               /\ disallowPathOf line = p /\ p <> []).
Proof.
  unfold Robots.parseLine.
  fold (lowered toLowerCase line).
  fold (isUserAgentLine line) (isDisallowLine line) (isAllowLine line).
  fold (userAgentOf line) (disallowPathOf line).
  destruct (isUserAgentLine line) eqn:Hua.
  - cbn [currentUserAgent disallowedPaths]. split; [reflexivity|].
    intros p. split; [auto|]. intros [H | (_ & Hd & _)]; [exact H|].
    apply disallow_not_user_agent in Hd. congruence.
  - destruct (isDisallowLine line) eqn:Hd.
    + destruct (groupApplies toLowerCase st userAgent) eqn:Hg.
      * apply groupApplies_iff in Hg.
        destruct (JS.truthy (disallowPathOf line)) eqn:Ht.
        -- apply truthy_iff in Ht. cbn [currentUserAgent disallowedPaths].
           split; [reflexivity|]. intros p. rewrite in_app_iff. cbn [In].
           split.
           ++ intros [H | [H | []]]; [auto|]. right. subst p. auto.
           ++ intros [H | (_ & _ & H & _)]; auto.
        -- split; [reflexivity|]. intros p. split; [auto|].
           intros [H | (_ & _ & H & Hne)]; [exact H|].
           subst p. apply truthy_iff in Hne. congruence.
      * split; [reflexivity|]. intros p. split; [auto|].
        intros [H | (Hm & _)]; [exact H|].
        apply groupApplies_iff in Hm. congruence.
    + assert (Hsame : forall st',
                 currentUserAgent st' = currentUserAgent st ->
                 disallowedPaths st' = disallowedPaths st ->
                 currentUserAgent st' = currentUserAgent st
                 /\ forall p, In p (disallowedPaths st')
                              <-> In p (disallowedPaths st)
                                  \/ (agentMatches userAgent (currentUserAgent st)
                                      /\ false = true
                                      /\ disallowPathOf line = p /\ p <> [])).
      { intros st' Hc Hp. split; [exact Hc|]. intros p. rewrite Hp.
        split; [auto|]. intros [H | (_ & H & _)]; [exact H | discriminate]. }
      destruct (isAllowLine line); [|apply Hsame; reflexivity].
      destruct (groupApplies toLowerCase st userAgent); [|apply Hsame; reflexivity].
      destruct (JS.truthy _); apply Hsame; reflexivity.
Qed.

(** The disallowed paths after a run of lines: those already there, and the
    paths of the Disallow lines that stand under a matching group. *)
Lemma parse_effect (userAgent : jsstring) (lines : list jsstring) :
  forall st g,
    currentUserAgent st = inForceOr g ->
    forall p,
      In p (disallowedPaths (fold_left (parseLine userAgent) lines st))
      <-> In p (disallowedPaths st)
          \/ exists above line below,
               lines = above ++ line :: below
               /\ agentMatches userAgent (inForceOr (fold_left nextGroup above g))
               /\ isDisallowLine line = true
               /\ disallowPathOf line = p /\ p <> [].
Proof.
  induction lines as [|l lines IH]; intros st g Hcur p; cbn [fold_left].
  - split; [auto|]. intros [H | (above & line & below & Heq & _)]; [exact H|].
    destruct above; discriminate.
  - destruct (parseLine_effect userAgent st l) as [Hcur' Hdis'].
    rewrite (IH (parseLine userAgent st l) (nextGroup g l)).
    2:{ rewrite Hcur'. unfold nextGroup. destruct (isUserAgentLine l);
          [reflexivity | exact Hcur]. }
    rewrite Hdis'. split.
    + intros [[H | (Hm & Hd & Hp & Hne)] | (above & line & below & -> & Hrest)].
      * left. exact H.
      * right. exists [], l, lines. cbn [fold_left app]. rewrite <- Hcur. auto.
      * right. exists (l :: above), line, below. split; [reflexivity|]. exact Hrest.
    + intros [H | (above & line & below & Heq & Hm & Hrest)]; [auto|].
      destruct above as [|l' above]; cbn [app] in Heq; injection Heq as Hl Hlines.
      * subst line below. left. right. rewrite Hcur. cbn [fold_left] in Hm. auto.
      * subst l' lines. right. exists above, line, below. auto.
Qed.

Lemma recorded_iff (userAgent : jsstring) (lines : list jsstring) (p : jsstring) :
  toLowerCase userAgent <> [] ->
  In p (disallowedPaths (fold_left (parseLine userAgent) lines (mkParse [] [] [])))
  <-> PushedDisallow toLowerCase userAgent lines p.
Proof.
  intros Hua.
  rewrite (parse_effect userAgent lines (mkParse [] [] []) None eq_refl p).
  cbn [disallowedPaths In]. unfold PushedDisallow, Robots.groupInForce. split.
  - intros [[] | (above & line & below & Heq & Hm & Hd & Hp & Hne)].
    exists above, line, below.
    destruct (fold_left nextGroup above None) as [group|].
    + exists group. cbn [inForceOr] in Hm. repeat split; auto.
    + exfalso. destruct Hm as [Hm | Hm]; cbn [inForceOr] in Hm;
        [discriminate | congruence].
  - intros (above & line & below & group & Heq & Hg & Hm & Hd & Hp & Hne).
    right. exists above, line, below. rewrite Hg. cbn [inForceOr].
    repeat split; auto.
Qed.

(** A line that begins with [allow:] leaves the user-agent in force and the
    disallowed paths as they are. *)
Lemma allow_line_ignored (userAgent : jsstring) (st : ParseState) (line : jsstring) :
  isAllowLine line = true ->
  currentUserAgent (parseLine userAgent st line) = currentUserAgent st
  /\ disallowedPaths (parseLine userAgent st line) = disallowedPaths st.
Proof.
  intros Ha. destruct (allow_not_directive _ Ha) as [Hua Hd].
  unfold Robots.parseLine.
  fold (lowered toLowerCase line).
  fold (isUserAgentLine line) (isDisallowLine line) (isAllowLine line).
  rewrite Hua, Hd, Ha.
  destruct (groupApplies toLowerCase st userAgent); [|auto].
  destruct (JS.truthy _); auto.
Qed.

Lemma parse_ignores_allowed (userAgent : jsstring) (lines : list jsstring) :
  forall st st',
    currentUserAgent st = currentUserAgent st' ->
    disallowedPaths st = disallowedPaths st' ->
    disallowedPaths (fold_left (parseLine userAgent) lines st)
    = disallowedPaths (fold_left (parseLine userAgent) lines st').
Proof.
  induction lines as [|l lines IH]; intros st st' Hc Hd; cbn [fold_left];
    [exact Hd|].
  apply IH; unfold Robots.parseLine, groupApplies; rewrite Hc, Hd;
    repeat match goal with
           | |- context [if ?b then _ else _] => destruct b
           end; cbn [currentUserAgent disallowedPaths]; auto.
Qed.

(** What the code decides after a successful fetch, for a non-empty
    requesting user-agent: the URL is refused exactly when a path pushed on
    [disallowedPaths] (a lower-cased one) is ["/"] or a prefix of the URL's
    path as written.  Allow lines have no part in it: taking an Allow line
    out leaves the verdict as it is. *)
Lemma robots_verdict_on_pushed_paths (url userAgent : jsstring) (urlObj : URL)
        (response : HttpResponse) (robotsText : jsstring) :
  URL_new url None = JS.Ok urlObj ->
  fetch (robotsUrlOf urlObj) userAgent = JS.Ok response ->
  ok response = true ->
  bodyText response = JS.Ok robotsText ->
  toLowerCase userAgent <> [] ->
  (checkRobotsTxt url userAgent = false
   <-> exists p,
         PushedDisallow toLowerCase userAgent (JS.split 10 robotsText) p
         /\ (p = JS.lit "/" \/ JS.startsWith (pathname urlObj) p = true))
  /\ (forall above line below,
        JS.split 10 robotsText = above ++ line :: below ->
        isAllowLine line = true ->
        checkRobotsTxt url userAgent
        = decideLines toLowerCase urlObj userAgent (above ++ below)).
Proof.
  intros Hurl Hfetch Hok Hbody Hua.
  assert (Hcheck : checkRobotsTxt url userAgent
                   = decideLines toLowerCase urlObj userAgent (JS.split 10 robotsText)).
  { unfold Robots.checkRobotsTxt, checkRobotsTry.
    rewrite Hurl. cbn [JS.bind]. rewrite Hfetch. cbn [JS.bind].
    rewrite Hok. cbn [negb]. rewrite Hbody. reflexivity. }
  rewrite Hcheck. split.
  - unfold decideLines. rewrite pathAllowed_false_iff.
    split; intros (p & Hp & Hmatch); exists p; split; auto;
      apply (@recorded_iff userAgent (JS.split 10 robotsText) p Hua); exact Hp.
  - intros above line below Heq Ha. rewrite Heq. unfold decideLines. f_equal.
    rewrite !fold_left_app. cbn [fold_left].
    destruct (@allow_line_ignored userAgent
                (fold_left (parseLine userAgent) above (mkParse [] [] [])) line Ha)
      as [Hc Hd].
    apply parse_ignores_allowed; assumption.
Qed.

End RobotsFacts.

Lemma robots_fail_open_witness :
  let url := JS.lit "https://site.example/private/page" in
  let fetch := fun _ _ : jsstring =>
                 JS.Throw (A := Robots.HttpResponse) (JS.lit "network error") in
  (exists urlObj, BasicURL.URL_new url None = JS.Ok urlObj)
  /\ Robots.checkRobotsTxt BasicURL.URL_new JS.asciiLower fetch url (JS.lit "Mozilla/5.0")
     = true.
Proof.
  cbv zeta. split; [eexists; vm_compute; reflexivity|].
  refine (proj1 (proj1 (proj2
            (robots_fail_open BasicURL.URL_new JS.asciiLower
               (fun _ _ => JS.Throw (JS.lit "network error"))
               (JS.lit "https://site.example/private/page") (JS.lit "Mozilla/5.0")))
            _ _) (JS.lit "network error") _).
  - vm_compute. reflexivity.
  - reflexivity.
Defined.

(** An Allow line does not lift a refusal. *)
Example robots_allow_does_not_override :
  let url := JS.lit "https://site.example/private/ok/page" in
  let userAgent := JS.lit "Mozilla/5.0" in
  let robotsText :=
    JS.lit "User-agent: *" ++ [10%N] ++ JS.lit "Allow: /private/ok" ++ [10%N]
    ++ JS.lit "Disallow: /Private" ++ [10%N] in
  let fetch := fun _ _ : jsstring => JS.Ok (Robots.mkHttp 200 (JS.Ok robotsText)) in
  JS.asciiLower userAgent <> []
  /\ Robots.checkRobotsTxt BasicURL.URL_new JS.asciiLower fetch url userAgent = false.
Proof.
  cbv zeta. split; [vm_compute; discriminate|].
  refine (proj2 (proj1
            (@robots_verdict_on_pushed_paths BasicURL.URL_new JS.asciiLower
               (fun _ _ => JS.Ok (Robots.mkHttp 200 (JS.Ok _)))
               (JS.lit "https://site.example/private/ok/page") (JS.lit "Mozilla/5.0")
               _ _ _ _ _ _ _ _)) _).
  - vm_compute. reflexivity.
  - reflexivity.
  - reflexivity.
  - reflexivity.
  - vm_compute. discriminate.
  - exists (JS.lit "/private"). split; [|right; vm_compute; reflexivity].
    exists [JS.lit "User-agent: *"; JS.lit "Allow: /private/ok"],
           (JS.lit "Disallow: /Private"), [[]], (JS.lit "*").
    repeat split; try (vm_compute; reflexivity).
    + left. reflexivity.
    + vm_compute. discriminate.
Qed.

(** The recorded paths are in lower case and the URL path is not: a path
    written with a capital letter is not matched by its own Disallow line. *)
Example robots_case_mismatch :
  let robotsText := JS.lit "User-agent: *" ++ [10%N] ++ JS.lit "Disallow: /Private" in
  Robots.checkRobotsTxt BasicURL.URL_new JS.asciiLower
    (fun _ _ => JS.Ok (Robots.mkHttp 200 (JS.Ok robotsText)))
    (JS.lit "https://site.example/Private/page") (JS.lit "Mozilla/5.0") = true.
Proof. vm_compute. reflexivity. Qed.

(** C6 fails on the code for paths that are not in lower case.  The loop
    lower-cases every line before it takes the path from it, and then
    compares the lower-cased path with the URL's path as written: a URL
    under a Disallow path written with a capital letter is allowed, and a
    URL that only matches the lower-cased path is refused.  A Disallow line
    that stands under no User-agent line counts for an empty requesting
    user-agent, since the group starts out as the empty string. *)
Theorem robots_disallow_misses_case :
  let robotsText := JS.lit "User-agent: *" ++ [10%N] ++ JS.lit "Disallow: /Private" in
  let userAgent := JS.lit "Mozilla/5.0" in
  let fetch := fun _ _ : jsstring => JS.Ok (Robots.mkHttp 200 (JS.Ok robotsText)) in
  let check := Robots.checkRobotsTxt BasicURL.URL_new JS.asciiLower fetch in
  let ungrouped := JS.lit "Disallow: /private" in
  (option_map pathname (BasicURL.parse (JS.lit "https://site.example/Private/page"))
   = Some (JS.lit "/Private/page")
   /\ Robots.SpecDisallowed JS.asciiLower userAgent robotsText (JS.lit "/Private/page")
   /\ check (JS.lit "https://site.example/Private/page") userAgent = true)
  /\ (option_map pathname (BasicURL.parse (JS.lit "https://site.example/private/page"))
      = Some (JS.lit "/private/page")
      /\ ~ Robots.SpecDisallowed JS.asciiLower userAgent robotsText
            (JS.lit "/private/page")
      /\ check (JS.lit "https://site.example/private/page") userAgent = false)
  /\ (~ Robots.SpecDisallowed JS.asciiLower [] ungrouped (JS.lit "/private/page")
      /\ Robots.checkRobotsTxt BasicURL.URL_new JS.asciiLower
           (fun _ _ => JS.Ok (Robots.mkHttp 200 (JS.Ok ungrouped)))
           (JS.lit "https://site.example/private/page") [] = false).
Proof.
  cbv zeta. split; [|split].
  - split; [vm_compute; reflexivity|]. split; [|vm_compute; reflexivity].
    exists (JS.lit "/Private"). split; [|right; vm_compute; reflexivity].
    exists [JS.lit "User-agent: *"], (JS.lit "Disallow: /Private"), [], (JS.lit "*").
    split; [vm_compute; reflexivity|]. split; [vm_compute; reflexivity|].
    split; [left; reflexivity|]. split; [vm_compute; reflexivity|].
    split; [vm_compute; reflexivity | vm_compute; discriminate].
  - split; [vm_compute; reflexivity|]. split; [|vm_compute; reflexivity].
    intros (p & (above & line & below & group & Hlines & _ & _ & Hd & Hp & _) & Hmatch).
    change (JS.split 10 (JS.lit "User-agent: *" ++ [10%N] ++ JS.lit "Disallow: /Private"))
      with [JS.lit "User-agent: *"; JS.lit "Disallow: /Private"] in Hlines.
    destruct above as [|l1 [|l2 above]]; cbn [app] in Hlines.
    + injection Hlines as <- _. vm_compute in Hd. discriminate.
    + injection Hlines as _ <- _. subst p.
      destruct Hmatch as [Hroot | Hprefix]; vm_compute in *; discriminate.
    + injection Hlines as _ _ Hrest. destruct above; discriminate.
  - split; [|vm_compute; reflexivity].
    intros (p & (above & line & below & group & Hlines & Hg & _) & _).
    change (JS.split 10 (JS.lit "Disallow: /private"))
      with [JS.lit "Disallow: /private"] in Hlines.
    destruct above as [|l1 above]; cbn [app] in Hlines.
    + vm_compute in Hg. discriminate.
    + injection Hlines as _ Hrest. destruct above; discriminate.
Qed.

(* ------------------------------------------------------------------ *)
(** ** Redirector links: what the form parser returns for an encoded
    destination *)

Ltac Zify.zify_post_hook ::= Z.to_euclidean_division_equations.

(** Settles the comparisons of the goal that linear arithmetic decides. *)
Ltac settle_comparisons :=
  repeat match goal with
    | |- context [(?a <? ?b)%N] =>
        first [ replace (a <? b)%N with true by (symmetry; apply N.ltb_lt; lia)
              | replace (a <? b)%N with false by (symmetry; apply N.ltb_ge; lia) ]
    | |- context [(?a <=? ?b)%N] =>
        first [ replace (a <=? b)%N with true by (symmetry; apply N.leb_le; lia)
              | replace (a <=? b)%N with false by (symmetry; apply N.leb_gt; lia) ]
    | |- context [N.eqb ?a ?b] =>
        first [ replace (N.eqb a b) with true by (symmetry; apply N.eqb_eq; lia)
              | replace (N.eqb a b) with false by (symmetry; apply N.eqb_neq; lia) ]
    end.

Section RedirectFacts.

Import Uri.

Lemma hexVal_hexDigit (v : N) : (v < 16)%N -> hexVal (hexDigit v) = Some v.
Proof.
  intros Hv. destruct v as [|p]; [reflexivity|].
  do 4 (destruct p as [p|p|]; try reflexivity; try lia).
Qed.

Lemma hexByte_pct (b : N) :
  (b < 256)%N -> hexByte (hexDigit (b / 16)) (hexDigit (b mod 16)) = Some b.
Proof.
  intros Hb. unfold hexByte.
  rewrite !hexVal_hexDigit by lia. f_equal. lia.
Qed.

Lemma percentDecode_pct (b : N) (rest : list N) :
  (b < 256)%N -> percentDecode (pct b ++ rest) = b :: percentDecode rest.
Proof.
  intros Hb. unfold pct. cbn [app percentDecode N.eqb Pos.eqb].
  rewrite hexByte_pct by exact Hb. reflexivity.
Qed.

Lemma percentDecode_pctAll (bs rest : list N) :
  Forall (fun b => (b < 256)%N) bs ->
  percentDecode (pctAll bs ++ rest) = bs ++ percentDecode rest.
Proof.
  induction 1 as [|b bs Hb _ IH]; [reflexivity|].
  unfold pctAll in *. cbn [flat_map]. rewrite <- app_assoc.
  rewrite percentDecode_pct by exact Hb. cbn [app]. rewrite IH. reflexivity.
Qed.

Lemma percentDecode_plain (c : N) (rest : list N) :
  c <> 37%N -> percentDecode (c :: rest) = c :: percentDecode rest.
Proof.
  intros Hc. cbn [percentDecode].
  replace (N.eqb c 37) with false by (symmetry; apply N.eqb_neq; exact Hc).
  reflexivity.
Qed.

Lemma utf8_bytes (cp : N) :
  (cp < 1114112)%N -> Forall (fun b => (b < 256)%N) (utf8 cp).
Proof.
  intros Hcp. unfold utf8.
  destruct (cp <? 128)%N eqn:H1; [apply N.ltb_lt in H1; repeat constructor; lia|].
  destruct (cp <? 2048)%N eqn:H2; [apply N.ltb_lt in H2; repeat constructor; lia|].
  destruct (cp <? 65536)%N eqn:H3; [apply N.ltb_lt in H3; repeat constructor; lia|].
  repeat constructor; lia.
Qed.

Lemma pct_plain (b : N) : (b < 256)%N -> Forall formPlain (pct b).
Proof.
  intros Hb. unfold pct.
  assert (Hd : forall v, (v < 16)%N -> formPlain (hexDigit v)).
  { intros v Hv. unfold hexDigit, formPlain.
    destruct (v <? 10)%N eqn:E; [apply N.ltb_lt in E | apply N.ltb_ge in E]; lia. }
  repeat constructor; try (apply Hd; lia); unfold formPlain; lia.
Qed.

Lemma pctAll_plain (bs : list N) :
  Forall (fun b => (b < 256)%N) bs -> Forall formPlain (pctAll bs).
Proof.
  induction 1 as [|b bs Hb _ IH]; [constructor|].
  unfold pctAll in *. cbn [flat_map]. apply Forall_app. split; [|exact IH].
  apply pct_plain, Hb.
Qed.

Lemma unreserved_plain (c : N) :
  unreserved c = true -> formPlain c /\ c <> 37%N.
Proof.
  unfold unreserved, JS.isUpperAZ, JS.isLowerAZ, JS.isDigit, formPlain.
  cbn [existsb]. rewrite !orb_true_iff, !andb_true_iff, !N.leb_le, !N.eqb_eq.
  lia.
Qed.

Lemma pairToCodePoint_range (hi lo : N) :
  isLead hi = true -> isTrail lo = true ->
  (65536 <= pairToCodePoint hi lo < 1114112)%N
  /\ utf16 (pairToCodePoint hi lo) = [hi; lo].
Proof.
  unfold isLead, isTrail, pairToCodePoint, utf16.
  rewrite !andb_true_iff, !N.leb_le. intros [H1 H2] [H3 H4].
  split; [lia|]. settle_comparisons. f_equal; [lia | f_equal; lia].
Qed.

(** Reading one well-formed sequence with the decoder. *)
Lemma decode_one (b : N) (rest : list N) :
  (b <= 127)%N ->
  utf8DecodeFrom utf8Init (b :: rest) = b :: utf8DecodeFrom utf8Init rest.
Proof.
  intros Hb. cbn [utf8DecodeFrom utf8Step utf8Init bytesNeeded]. unfold utf8Start.
  settle_comparisons. reflexivity.
Qed.

Lemma decode_two (b0 b1 : N) (rest : list N) :
  (194 <= b0 <= 223)%N -> (128 <= b1 <= 191)%N ->
  utf8DecodeFrom utf8Init (b0 :: b1 :: rest)
  = utf16 ((b0 - 192) * 64 + (b1 - 128)) ++ utf8DecodeFrom utf8Init rest.
Proof.
  intros H0 H1. cbn [utf8DecodeFrom utf8Step utf8Init bytesNeeded]. unfold utf8Start.
  settle_comparisons.
  cbn [andb app utf8DecodeFrom utf8Step bytesNeeded bytesSeen codePoint lower upper
       Nat.eqb].
  settle_comparisons. reflexivity.
Qed.

Lemma decode_three (b0 b1 b2 : N) (rest : list N) :
  (224 <= b0 <= 239)%N ->
  ((if N.eqb b0 224 then 160 else 128) <= b1
   <= (if N.eqb b0 237 then 159 else 191))%N ->
  (128 <= b2 <= 191)%N ->
  utf8DecodeFrom utf8Init (b0 :: b1 :: b2 :: rest)
  = utf16 (((b0 - 224) * 64 + (b1 - 128)) * 64 + (b2 - 128))
    ++ utf8DecodeFrom utf8Init rest.
Proof.
  intros H0 H1 H2. cbn [utf8DecodeFrom utf8Step utf8Init bytesNeeded]. unfold utf8Start.
  replace (b0 <=? 127)%N with false by (symmetry; apply N.leb_gt; lia).
  replace ((194 <=? b0) && (b0 <=? 223))%N with false
    by (symmetry; apply andb_false_iff; right; apply N.leb_gt; lia).
  replace ((224 <=? b0) && (b0 <=? 239))%N with true
    by (symmetry; apply andb_true_iff; split; apply N.leb_le; lia).
  cbn [app utf8DecodeFrom utf8Step bytesNeeded bytesSeen codePoint lower upper].
  replace ((_ <=? b1) && (b1 <=? _))%N with true
    by (symmetry; apply andb_true_iff; split; apply N.leb_le; lia).
  cbn [app utf8DecodeFrom utf8Step bytesNeeded bytesSeen codePoint lower upper Nat.eqb].
  replace ((128 <=? b2) && (b2 <=? 191))%N with true
    by (symmetry; apply andb_true_iff; split; apply N.leb_le; lia).
  reflexivity.
Qed.

Lemma decode_four (b0 b1 b2 b3 : N) (rest : list N) :
  (240 <= b0 <= 244)%N ->
  ((if N.eqb b0 240 then 144 else 128) <= b1
   <= (if N.eqb b0 244 then 143 else 191))%N ->
  (128 <= b2 <= 191)%N -> (128 <= b3 <= 191)%N ->
  utf8DecodeFrom utf8Init (b0 :: b1 :: b2 :: b3 :: rest)
  = utf16 ((((b0 - 240) * 64 + (b1 - 128)) * 64 + (b2 - 128)) * 64 + (b3 - 128))
    ++ utf8DecodeFrom utf8Init rest.
Proof.
  intros H0 H1 H2 H3.
  cbn [utf8DecodeFrom utf8Step utf8Init bytesNeeded]. unfold utf8Start.
  replace (b0 <=? 127)%N with false by (symmetry; apply N.leb_gt; lia).
  replace ((194 <=? b0) && (b0 <=? 223))%N with false
    by (symmetry; apply andb_false_iff; right; apply N.leb_gt; lia).
  replace ((224 <=? b0) && (b0 <=? 239))%N with false
    by (symmetry; apply andb_false_iff; right; apply N.leb_gt; lia).
  replace ((240 <=? b0) && (b0 <=? 244))%N with true
    by (symmetry; apply andb_true_iff; split; apply N.leb_le; lia).
  cbn [app utf8DecodeFrom utf8Step bytesNeeded bytesSeen codePoint lower upper].
  replace ((_ <=? b1) && (b1 <=? _))%N with true
    by (symmetry; apply andb_true_iff; split; apply N.leb_le; lia).
  cbn [app utf8DecodeFrom utf8Step bytesNeeded bytesSeen codePoint lower upper Nat.eqb].
  replace ((128 <=? b2) && (b2 <=? 191))%N with true
    by (symmetry; apply andb_true_iff; split; apply N.leb_le; lia).
  cbn [app utf8DecodeFrom utf8Step bytesNeeded bytesSeen codePoint lower upper Nat.eqb].
  replace ((128 <=? b3) && (b3 <=? 191))%N with true
    by (symmetry; apply andb_true_iff; split; apply N.leb_le; lia).
  reflexivity.
Qed.

(** The decoder reads back the encoding of a scalar value. *)
Lemma decode_utf8 (cp : N) (rest : list N) :
  scalar cp ->
  utf8DecodeFrom utf8Init (utf8 cp ++ rest) = utf16 cp ++ utf8DecodeFrom utf8Init rest.
Proof.
  unfold scalar. intros Hcp. unfold utf8.
  destruct (cp <? 128)%N eqn:H1.
  { apply N.ltb_lt in H1. cbn [app]. rewrite decode_one by lia.
    unfold utf16. settle_comparisons. reflexivity. }
  apply N.ltb_ge in H1.
  destruct (cp <? 2048)%N eqn:H2.
  { apply N.ltb_lt in H2. cbn [app]. rewrite decode_two by lia.
    do 2 f_equal. lia. }
  apply N.ltb_ge in H2.
  destruct (cp <? 65536)%N eqn:H3.
  { apply N.ltb_lt in H3. cbn [app]. rewrite decode_three.
    - do 2 f_equal. lia.
    - lia.
    - destruct (N.eqb (224 + cp / 4096) 224) eqn:E1;
        [apply N.eqb_eq in E1 | apply N.eqb_neq in E1];
        (destruct (N.eqb (224 + cp / 4096) 237) eqn:E2;
         [apply N.eqb_eq in E2 | apply N.eqb_neq in E2]); lia.
    - lia. }
  apply N.ltb_ge in H3. cbn [app]. rewrite decode_four.
  - do 2 f_equal. lia.
  - lia.
  - destruct (N.eqb (240 + cp / 262144) 240) eqn:E1;
      [apply N.eqb_eq in E1 | apply N.eqb_neq in E1];
      (destruct (N.eqb (240 + cp / 262144) 244) eqn:E2;
       [apply N.eqb_eq in E2 | apply N.eqb_neq in E2]); lia.
  - lia.
  - lia.
Qed.


Lemma utf8Encode_ascii (l : list N) :
  Forall (fun c => (c < 128)%N) l -> utf8Encode l = l.
Proof.
  induction 1 as [|c l Hc _ IH]; [reflexivity|].
  cbn [utf8Encode]. unfold isLead, isTrail, utf8. settle_comparisons.
  cbn [andb app]. rewrite IH. reflexivity.
Qed.

Lemma split_without_separator (sep : N) (l : list N) :
  Forall (fun c => c <> sep) l -> JS.split sep l = [l].
Proof.
  induction 1 as [|c l Hc _ IH]; [reflexivity|].
  cbn [JS.split]. replace (N.eqb c sep) with false
    by (symmetry; apply N.eqb_neq; exact Hc).
  rewrite IH. reflexivity.
Qed.

Lemma plusToSpace_without_plus (l : list N) :
  Forall (fun c => c <> 43%N) l -> plusToSpace l = l.
Proof.
  induction 1 as [|c l Hc _ IH]; [reflexivity|].
  unfold plusToSpace in *. cbn [map]. rewrite IH.
  replace (N.eqb c 43) with false by (symmetry; apply N.eqb_neq; exact Hc).
  reflexivity.
Qed.

(** What [encodeURIComponent] produces for a string of code units: plain
    ASCII whose percent-decoding is the UTF-8 encoding of the string, which
    the decoder reads back. *)
Lemma encode_facts (n : nat) :
  forall d e,
    (List.length d <= n)%nat ->
    Forall (fun c => (c < 65536)%N) d ->
    encodeURIComponent d = Some e ->
    Forall formPlain e
    /\ percentDecode e = utf8Encode d
    /\ utf8DecodeFrom utf8Init (utf8Encode d) = d.
Proof.
  induction n as [|n IH]; intros d e Hlen Hunits Henc.
  - destruct d; [|cbn [List.length] in Hlen; lia].
    injection Henc as <-. repeat split. constructor.
  - destruct d as [|c s1]; [injection Henc as <-; repeat split; constructor|].
    cbn [List.length] in Hlen. inversion Hunits as [|? ? Hc Hs1]; subst.
    cbn [encodeURIComponent] in Henc.
    destruct (unreserved c) eqn:Hun.
    { destruct (encodeURIComponent s1) as [e1|] eqn:He1; [|discriminate].
      injection Henc as <-.
      destruct (IH s1 e1 ltac:(lia) Hs1 He1) as (Hp & Hd & Hr).
      destruct (unreserved_plain _ Hun) as [Hplain H37].
      assert (Hlt : (c < 128)%N) by apply Hplain.
      assert (Henc1 : utf8Encode (c :: s1) = c :: utf8Encode s1).
      { cbn [utf8Encode]. unfold isLead, isTrail, utf8. settle_comparisons.
        reflexivity. }
      split; [constructor; assumption|]. split.
      - rewrite percentDecode_plain by exact H37. rewrite Hd, Henc1. reflexivity.
      - rewrite Henc1, decode_one by lia. rewrite Hr. reflexivity. }
    destruct (isTrail c) eqn:Htr; [discriminate|].
    destruct (isLead c) eqn:Hld.
    { destruct s1 as [|dd s2]; [discriminate|].
      destruct (isTrail dd) eqn:Htr2; [|discriminate].
      destruct (encodeURIComponent s2) as [e2|] eqn:He2; [|discriminate].
      injection Henc as <-.
      inversion Hs1 as [|? ? Hdd Hs2]; subst. cbn [List.length] in Hlen.
      destruct (IH s2 e2 ltac:(lia) Hs2 He2) as (Hp & Hd & Hr).
      destruct (pairToCodePoint_range _ _ Hld Htr2) as [Hrange H16].
      assert (Hbytes := @utf8_bytes (pairToCodePoint c dd) ltac:(lia)).
      assert (Henc1 : utf8Encode (c :: dd :: s2)
                      = utf8 (pairToCodePoint c dd) ++ utf8Encode s2).
      { cbn [utf8Encode]. rewrite Hld, Htr2. reflexivity. }
      split; [apply Forall_app; split; [apply pctAll_plain, Hbytes | exact Hp]|].
      split.
      - rewrite percentDecode_pctAll by exact Hbytes. rewrite Hd, Henc1. reflexivity.
      - rewrite Henc1, decode_utf8 by (unfold scalar; lia).
        rewrite H16, Hr. reflexivity. }
    destruct (encodeURIComponent s1) as [e1|] eqn:He1; [|discriminate].
    injection Henc as <-.
    destruct (IH s1 e1 ltac:(lia) Hs1 He1) as (Hp & Hd & Hr).
    assert (Hscalar : scalar c).
    { unfold scalar, isLead, isTrail in *.
      apply andb_false_iff in Htr, Hld.
      destruct Htr as [Htr | Htr]; apply N.leb_gt in Htr;
        destruct Hld as [Hld | Hld]; apply N.leb_gt in Hld; lia. }
    assert (Hbytes := @utf8_bytes c ltac:(lia)).
    assert (Henc1 : utf8Encode (c :: s1) = utf8 c ++ utf8Encode s1).
    { cbn [utf8Encode]. rewrite Hld, Htr. reflexivity. }
    split; [apply Forall_app; split; [apply pctAll_plain, Hbytes | exact Hp]|].
    split.
    + rewrite percentDecode_pctAll by exact Hbytes. rewrite Hd, Henc1. reflexivity.
    + rewrite Henc1, decode_utf8 by exact Hscalar.
      unfold utf16. settle_comparisons. cbn [app]. rewrite Hr. reflexivity.
Qed.

(** [searchParams.get("uddg")] gives back the destination that was encoded
    into the parameter. *)
Lemma form_returns_destination (d e : jsstring) :
  Forall (fun c => (c < 65536)%N) d ->
  encodeURIComponent d = Some e ->
  paramsGet (JS.lit "uddg") (parseForm (JS.lit "uddg=" ++ e)) = Some d.
Proof.
  intros Hunits Henc.
  destruct (@encode_facts (List.length d) d e (le_n _) Hunits Henc) as (Hp & Hd & Hr).
  assert (Hq : Forall (fun c => (c < 128 /\ c <> 38)%N) (JS.lit "uddg=" ++ e)).
  { apply Forall_app. split.
    - change (JS.lit "uddg=") with [117; 100; 100; 103; 61]%N.
      repeat (apply Forall_cons; [lia|]). apply Forall_nil.
    - eapply Forall_impl; [|exact Hp]. unfold formPlain. intros c Hc. lia. }
  unfold parseForm.
  rewrite utf8Encode_ascii
    by (eapply Forall_impl; [|exact Hq]; intros c Hc; apply Hc).
  rewrite split_without_separator
    by (eapply Forall_impl; [|exact Hq]; intros c Hc; apply Hc).
  change (JS.lit "uddg=" ++ e) with (117 :: 100 :: 100 :: 103 :: 61 :: e)%N.
  cbn [flat_map app splitFirst N.eqb Pos.eqb option_map].
  rewrite (@plusToSpace_without_plus e)
    by (eapply Forall_impl; [|exact Hp]; intros c Hc; apply Hc).
  unfold utf8Decode at 2. rewrite Hd, Hr. reflexivity.
Qed.

Lemma decode_without_percent (s : jsstring) :
  ~ In 37%N s -> decodeURIComponent s = Some s.
Proof.
  unfold decodeURIComponent. induction s as [|c s IH]; intros Hno; [reflexivity|].
  cbn [decodeGo]. replace (N.eqb c 37) with false
    by (symmetry; apply N.eqb_neq; intros ->; apply Hno; left; reflexivity).
  rewrite IH; [reflexivity|]. intros Hin. apply Hno. right. exact Hin.
Qed.

Variable URL_new : jsstring -> option jsstring -> JS.outcome URL.

(** X22. On a redirector link whose query the URL parser leaves as written, the
    result is the destination decoded once more, or the link itself when
    that decoding throws; it is the destination when that has no percent
    sign. *)
Lemma redirect_unwrap (d e : jsstring) (u : URL) :
  Forall (fun c => (c < 65536)%N) d ->
  d <> [] ->
  Uri.encodeURIComponent d = Some e ->
  URL_new (JS.lit "https://duckduckgo.com/l/?uddg=" ++ e)
          (Some (JS.lit "https://duckduckgo.com")) = JS.Ok u ->
  query u = Some (JS.lit "uddg=" ++ e) ->
  Candidates.normalizeDuckHref URL_new (JS.lit "https://duckduckgo.com/l/?uddg=" ++ e)
  = JS.Ok (match decodeURIComponent d with
           | Some decoded => decoded
           | None => JS.lit "https://duckduckgo.com/l/?uddg=" ++ e
           end)
  /\ (~ In 37%N d ->
      Candidates.normalizeDuckHref URL_new (JS.lit "https://duckduckgo.com/l/?uddg=" ++ e)
      = JS.Ok d).
Proof.
  intros Hunits Hne Henc Hurl Hquery.
  assert (Hnorm : Candidates.normalizeDuckHref URL_new
                    (JS.lit "https://duckduckgo.com/l/?uddg=" ++ e)
                  = JS.Ok (match decodeURIComponent d with
                           | Some decoded => decoded
                           | None => JS.lit "https://duckduckgo.com/l/?uddg=" ++ e
                           end)).
  { unfold Candidates.normalizeDuckHref.
    replace (JS.startsWith (JS.lit "https://duckduckgo.com/l/?uddg=" ++ e) (JS.lit "/"))
      with false by reflexivity.
    cbn [JS.bind].
    replace (JS.includes (JS.lit "https://duckduckgo.com/l/?uddg=" ++ e)
                         (JS.lit "duckduckgo.com/l/?"))
      with true by reflexivity.
    cbn [orb]. rewrite Hurl. cbn [JS.bind].
    unfold searchParamsGet. rewrite Hquery.
    rewrite (form_returns_destination Hunits Henc).
    destruct d as [|c d']; [congruence|]. cbn [JS.truthy].
    destruct (decodeURIComponent (c :: d')); reflexivity. }
  split; [exact Hnorm|].
  intros Hno. rewrite Hnorm, (@decode_without_percent d Hno). reflexivity.
Qed.

End RedirectFacts.

(** C4 fails on the code for destinations that contain a percent sign.
    [searchParams.get] already decodes the [uddg] parameter, and
    [normalizeDuckHref] then applies [decodeURIComponent] to the decoded
    value: an escape of the destination is decoded away, and a destination
    with a stray [%] makes the second decoding throw, which leaves the
    redirector link in place. *)
Theorem redirect_roundtrip_breaks_on_percent :
  let d1 := JS.lit "https://en.wikipedia.org/wiki/C%2B%2B" in
  let d2 := JS.lit "https://shop.example/sale?off=100%" in
  Candidates.wrapRedirect d1
  = Some (JS.lit "https://duckduckgo.com/l/?uddg=https%3A%2F%2Fen.wikipedia.org%2Fwiki%2FC%252B%252B")
  /\ option_map (Candidates.normalizeDuckHref BasicURL.URL_new) (Candidates.wrapRedirect d1)
     = Some (JS.Ok (JS.lit "https://en.wikipedia.org/wiki/C++"))
  /\ option_map (Candidates.normalizeDuckHref BasicURL.URL_new) (Candidates.wrapRedirect d1)
     <> Some (JS.Ok d1)
  /\ option_map (Candidates.normalizeDuckHref BasicURL.URL_new) (Candidates.wrapRedirect d2)
     = Some (JS.Ok (JS.lit "https://duckduckgo.com/l/?uddg=https%3A%2F%2Fshop.example%2Fsale%3Foff%3D100%25"))
  /\ option_map (Candidates.normalizeDuckHref BasicURL.URL_new) (Candidates.wrapRedirect d2)
     <> Some (JS.Ok d2).
Proof. vm_compute. repeat split; discriminate. Qed.

(** A destination without a percent sign does come back. *)
Example redirect_roundtrip_plain :
  let d := JS.lit "https://example.com/pricing?plan=pro&x=a b#top" in
  option_map (Candidates.normalizeDuckHref BasicURL.URL_new) (Candidates.wrapRedirect d)
  = Some (JS.Ok d).
Proof. vm_compute. reflexivity. Qed.

(* ------------------------------------------------------------------ *)
(** ** Race-mode runner *)

Lemma nth_error_split_at (A : Type) (l : list A) (k : nat) (x : A) :
  nth_error l k = Some x ->
  l = firstn k l ++ x :: skipn (S k) l /\ (k < List.length l)%nat.
Proof.
  intros H. split; [|apply nth_error_Some; congruence].
  destruct (nth_error_split _ _ H) as (l1 & l2 & Heq & Hlen).
  rewrite Heq at 2 3. subst k.
  rewrite firstn_app, firstn_all, Nat.sub_diag. cbn [firstn]. rewrite app_nil_r.
  replace (S (List.length l1)) with (List.length l1 + 1)%nat by lia.
  rewrite skipn_app, skipn_all2 by lia.
  replace (List.length l1 + 1 - List.length l1)%nat with 1%nat by lia.
  cbn [skipn app]. exact Heq.
Qed.

Lemma removeAt_facts (l : list nat) (k x : nat) :
  nth_error l k = Some x ->
  S (List.length (Runner.removeAt k l)) = List.length l
  /\ (forall i, In i (Runner.removeAt k l) -> In i l)
  /\ (forall i, In i l -> i = x \/ In i (Runner.removeAt k l)).
Proof.
  intros H. destruct (nth_error_split_at _ _ H) as [Hsplit Hk].
  unfold Runner.removeAt. split; [|split].
  - rewrite Hsplit at 3. rewrite !length_app. cbn [List.length]. lia.
  - intros i Hi. rewrite Hsplit. apply in_app_iff in Hi. apply in_app_iff.
    destruct Hi; [left | right; right]; assumption.
  - intros i Hi. rewrite Hsplit in Hi. apply in_app_iff in Hi.
    destruct Hi as [Hi | [Hi | Hi]]; [right | left | right]; auto;
      apply in_app_iff; auto.
Qed.

Section RaceFacts.

Import Race.

Variables TInput TResult : Type.
Variable inputs : list TInput.
Variable worker : TInput -> JS.outcome (option TResult).

Local Abbreviation contribution := (Runner.contribution inputs worker).
Local Abbreviation settled := (Runner.settled inputs worker).
Local Abbreviation consistent := (consistent inputs worker).
Local Abbreviation pendingCount := (pendingCount (TResult := TResult) inputs).
Local Abbreviation runNext := (runNext (TResult := TResult) inputs).
Local Abbreviation step := (step inputs worker).
Local Abbreviation run := (run inputs worker).
Local Abbreviation completionOrder := (completionOrder inputs worker).

Lemma settled_contribution (i : nat) :
  (settled i = None -> contribution i = [])
  /\ (forall out, settled i = Some out -> contribution i = [out]).
Proof.
  unfold Runner.contribution. split; [intros -> | intros out ->]; reflexivity.
Qed.

(** A runner that joins while no result is known. *)
Lemma runNext_consistent (st : RState TResult) :
  resolved st = false ->
  result st = None ->
  Forall (fun i => (i < List.length inputs)%nat) (running st) ->
  (forall i, (i < index st)%nat -> (i < List.length inputs)%nat ->
             In i (running st) \/ contribution i = []) ->
  consistent (runNext st)
  /\ resolved (runNext st) = false
  /\ pendingCount (runNext st) = pendingCount st
  /\ (List.length (running (runNext st)) <= S (List.length (running st)))%nat.
Proof.
  intros Hres Hnone Hrun Hcov. unfold Race.runNext. rewrite Hres.
  destruct (Nat.leb (List.length inputs) (index st)) eqn:Hle.
  - apply Nat.leb_le in Hle.
    unfold Race.consistent, Race.pendingCount. cbn [index resolved result running].
    rewrite Hres.
    split; [|split; [reflexivity | split; lia]].
    split; [exact Hrun|]. split; [intros _ _; lia|].
    split; [|discriminate]. intros _. split; [exact Hnone|].
    intros i Hi Hlen. apply Hcov; lia.
  - apply Nat.leb_gt in Hle.
    unfold Race.consistent, Race.pendingCount. cbn [index resolved result running].
    rewrite Hres, length_app. cbn [List.length].
    split; [|split; [reflexivity | split; lia]].
    split; [apply Forall_app; split; [exact Hrun | repeat constructor; exact Hle]|].
    split; [intros Hnil; destruct (running st); discriminate|].
    split; [|discriminate]. intros _. split; [exact Hnone|].
    intros i Hi Hlen. destruct (Nat.eq_dec i (index st)) as [-> | Hne].
    + left. apply in_app_iff. right. left. reflexivity.
    + destruct (Hcov i ltac:(lia) Hlen) as [Hin | Hc]; [left | right; exact Hc].
      apply in_app_iff. left. exact Hin.
Qed.

(** Each completion keeps the state consistent and leaves less to do. *)
Lemma step_consistent (st : RState TResult) (k : nat) :
  consistent st -> (k < List.length (running st))%nat ->
  consistent (step k st)
  /\ (pendingCount (step k st) < pendingCount st)%nat
  /\ (resolved st = true -> resolved (step k st) = true
                            /\ result (step k st) = result st
                            /\ S (List.length (running (step k st)))
                               = List.length (running st))
  /\ (List.length (running (step k st)) <= List.length (running st))%nat.
Proof.
  intros (Hrun & Hdone & Hopen & Hclosed) Hk.
  destruct (nth_error (running st) k) as [myIndex|] eqn:Hnth;
    [|apply nth_error_None in Hnth; lia].
  destruct (removeAt_facts _ _ Hnth) as (Hlen & Hsub & Hsup).
  assert (Hothers : Forall (fun i => (i < List.length inputs)%nat)
                           (Runner.removeAt k (running st))).
  { apply Forall_forall. intros i Hi. rewrite Forall_forall in Hrun. auto. }
  assert (Hmine : (myIndex < List.length inputs)%nat).
  { rewrite Forall_forall in Hrun. apply Hrun. eapply nth_error_In, Hnth. }
  unfold Race.step. rewrite Hnth.
  destruct (resolved st) eqn:Hres.
  - unfold Race.consistent, Race.pendingCount. cbn [index resolved result running].
    split; [|split; [lia | split; [auto | lia]]].
    split; [exact Hothers|]. split; [discriminate|]. split; [discriminate|].
    intros _. exact (Hclosed eq_refl).
  - destruct (Hopen eq_refl) as [Hnone Hcov].
    destruct (settled myIndex) as [out|] eqn:Hs.
    + unfold Race.consistent, Race.pendingCount. cbn [index resolved result running].
      rewrite Hres.
      split; [|split; [lia | split; [discriminate | lia]]].
      split; [exact Hothers|]. split; [discriminate|]. split; [discriminate|].
      intros _. exists myIndex, out. auto.
    + destruct (@runNext_consistent
                  (mkR (index st) false (result st) (Runner.removeAt k (running st))))
        as (Hc & Hr & Hp & Hl); cbn [index resolved result running]; auto.
      { intros i Hi Hilen. destruct (Hcov i Hi Hilen) as [Hin | Hc]; [|auto].
        destruct (Hsup i Hin) as [-> | Hin']; [right | left; exact Hin'].
        apply settled_contribution, Hs. }
      split; [exact Hc|]. cbn [running] in Hl.
      split; [|split; [discriminate | lia]].
      rewrite Hp. unfold Race.pendingCount. cbn [index resolved result running].
      rewrite Hres. lia.
Qed.

Lemma choice_bound (schedule : list nat) (st : RState TResult) :
  running st <> [] -> (choice schedule st < List.length (running st))%nat.
Proof.
  intros Hne. assert (0 < List.length (running st))%nat
    by (destruct (running st); [congruence | cbn; lia]).
  unfold choice. destruct schedule; [assumption|]. apply Nat.mod_upper_bound. lia.
Qed.

(** With enough fuel every runner returns. *)
Lemma run_consistent (fuel : nat) :
  forall schedule st,
    consistent st -> (pendingCount st <= fuel)%nat ->
    running (run fuel schedule st) = [] /\ consistent (run fuel schedule st).
Proof.
  induction fuel as [|fuel IH]; intros schedule st Hc Hfuel; cbn [Race.run].
  - split; [|exact Hc]. unfold Race.pendingCount in Hfuel.
    destruct (running st); [reflexivity | cbn [List.length] in Hfuel; lia].
  - destruct (running st) as [|r rs] eqn:Hrun; [auto|].
    assert (Hne : running st <> []) by (rewrite Hrun; discriminate).
    destruct (@step_consistent st _ Hc (@choice_bound schedule st Hne)) as (Hc' & Hp & _).
    apply IH; [exact Hc' | lia].
Qed.

Lemma launch_consistent (n : nat) :
  forall st : RState TResult,
    resolved st = false -> result st = None ->
    Forall (fun i => (i < List.length inputs)%nat) (running st) ->
    (forall i, (i < index st)%nat -> (i < List.length inputs)%nat ->
               In i (running st) \/ contribution i = []) ->
    consistent (launch inputs (S n) st)
    /\ resolved (launch inputs (S n) st) = false
    /\ pendingCount (launch inputs (S n) st) = pendingCount st
    /\ (List.length (running (launch inputs (S n) st))
        <= S n + List.length (running st))%nat.
Proof.
  induction n as [|n IH]; intros st Hres Hnone Hrun Hcov.
  - cbn [launch]. destruct (@runNext_consistent st Hres Hnone Hrun Hcov) as (H1 & H2 & H3 & H4).
    split; [exact H1|]. split; [exact H2|]. split; [exact H3|]. lia.
  - change (launch inputs (S (S n)) st) with (launch inputs (S n) (runNext st)).
    destruct (@runNext_consistent st Hres Hnone Hrun Hcov) as (H1 & H2 & H3 & H4).
    destruct H1 as (Hr1 & _ & Hopen & _). destruct (Hopen H2) as [Hn1 Hc1].
    destruct (IH (runNext st) H2 Hn1 Hr1 Hc1) as (G1 & G2 & G3 & G4).
    split; [exact G1|]. split; [exact G2|]. split; [congruence|]. lia.
Qed.

Lemma start_consistent (concurrency : Z) :
  inputs <> [] ->
  consistent (start TResult inputs concurrency)
  /\ resolved (start TResult inputs concurrency) = false
  /\ pendingCount (start TResult inputs concurrency) = List.length inputs
  /\ (List.length (running (start TResult inputs concurrency))
      <= Runner.runnerCount inputs concurrency)%nat.
Proof.
  intros Hne. unfold start.
  assert (Hn : (1 <= Runner.runnerCount inputs concurrency)%nat).
  { unfold Runner.runnerCount. lia. }
  destruct (Runner.runnerCount inputs concurrency) as [|n]; [lia|].
  assert (Hcov : forall i, (i < index (mkR 0 false (@None TResult) []))%nat ->
                           (i < List.length inputs)%nat ->
                           In i (running (mkR 0 false (@None TResult) []))
                           \/ contribution i = []).
  { cbn [index]. intros i Hi. lia. }
  destruct (@launch_consistent n (mkR 0 false None []) eq_refl eq_refl
              (Forall_nil _) Hcov) as (H1 & H2 & H3 & H4).
  split; [exact H1|]. split; [exact H2|]. split.
  - rewrite H3. unfold Race.pendingCount. cbn [running resolved index List.length]. lia.
  - cbn [running List.length] in H4. lia.
Qed.

Lemma flat_map_nil_iff (A B : Type) (f : A -> list B) (l : list A) :
  flat_map f l = [] <-> forall x, In x l -> f x = [].
Proof.
  induction l as [|x l IH]; cbn [flat_map In].
  - split; [intros _ x [] | reflexivity].
  - split.
    + intros H. apply app_eq_nil in H. destruct H as [Hx Hl].
      intros y [<- | Hy]; [exact Hx | apply IH; assumption].
    + intros H. rewrite (H x (or_introl eq_refl)). cbn [app]. apply IH.
      intros y Hy. apply H. right. exact Hy.
Qed.

Lemma no_success_iff :
  Runner.successesInOrder inputs worker = []
  <-> forall i, (i < List.length inputs)%nat -> contribution i = [].
Proof.
  rewrite <- contribution_in_order, flat_map_nil_iff. split.
  - intros H i Hi. apply H, in_seq. lia.
  - intros H i Hi. apply H. apply in_seq in Hi. lia.
Qed.


(** What race mode returns, whatever the order of completion. *)
Lemma race_outcome (schedule : list nat) (concurrency : Z) :
  let out := firstNonNullWithConcurrency inputs worker schedule concurrency in
  (out = None <-> Runner.successesInOrder inputs worker = [])
  /\ (forall r, out = Some r -> In r (Runner.successesInOrder inputs worker))
  /\ (inputs <> [] -> running (finalState inputs worker schedule concurrency) = []).
Proof.
  cbv zeta. unfold firstNonNullWithConcurrency.
  destruct inputs as [|x l] eqn:Hin.
  - cbn. repeat split; congruence.
  - rewrite <- Hin. assert (Hne : inputs <> []) by (rewrite Hin; discriminate).
    destruct (start_consistent concurrency Hne) as (Hc & _ & Hp & _).
    destruct (@run_consistent (List.length inputs) schedule _ Hc ltac:(lia))
      as [Hnil (Hrun & Hdone & Hopen & Hclosed)].
    fold (finalState inputs worker schedule concurrency) in *.
    destruct (resolved (finalState inputs worker schedule concurrency)) eqn:Hres.
    + destruct (Hclosed eq_refl) as (i & out & Hi & Hs & Hr).
      assert (Hin' : In out (Runner.successesInOrder inputs worker)).
      { rewrite <- contribution_in_order. apply in_flat_map. exists i.
        split; [apply in_seq; lia|].
        rewrite (proj2 (settled_contribution i) out Hs). left. reflexivity. }
      rewrite Hr. split; [|split].
      * split; [discriminate|]. intros Hnone. rewrite Hnone in Hin'. destruct Hin'.
      * intros r Hr'. injection Hr' as <-. exact Hin'.
      * intros _. exact Hnil.
    + destruct (Hopen eq_refl) as [Hnone Hcov]. rewrite Hnone.
      assert (Hall : Runner.successesInOrder inputs worker = []).
      { apply no_success_iff. intros i Hi.
        specialize (Hdone Hnil eq_refl).
        destruct (Hcov i ltac:(lia) Hi) as [Hrunning | Hc']; [|exact Hc'].
        rewrite Hnil in Hrunning. destruct Hrunning. }
      split; [|split].
      * split; [intros _; exact Hall | reflexivity].
      * discriminate.
      * intros _. exact Hnil.
Qed.

(** X1. Race mode returns [null] exactly when no candidate succeeds, and
    otherwise the result of a candidate that succeeded; every runner returns,
    whatever the order in which the pages complete. *)
Theorem race_returns_a_success (schedule : list nat) (concurrency : Z) :
  let out := firstNonNullWithConcurrency inputs worker schedule concurrency in
  (out = None <-> Runner.successesInOrder inputs worker = [])
  /\ (forall r, out = Some r -> In r (Runner.successesInOrder inputs worker))
  /\ (inputs <> [] -> running (finalState inputs worker schedule concurrency) = []).
Proof. apply race_outcome. Qed.

Local Abbreviation sequential := (RaceSequential.sequential inputs worker).
Local Abbreviation allFailedBelow := (RaceSequential.allFailedBelow inputs worker).

Lemma step_sequential_race (st : RState TResult) :
  sequential st -> sequential (step 0 st).
Proof.
  intros [(Hres & Hnone & i & Hrun & Hidx & Hi & Hfail)
         | [(Hres & Hnone & Hrun & Hfail) | (Hres & Hrun & Hex)]].
  - unfold Race.step. rewrite Hrun, Hres. cbn [nth_error Runner.removeAt firstn skipn app].
    destruct (settled i) as [out|] eqn:Hs.
    + right. right. cbn [resolved running result]. repeat split.
      exists i, out. auto.
    + unfold Race.runNext. cbn [resolved index result running]. rewrite Hidx.
      assert (Hfail' : allFailedBelow (S i)).
      { intros j Hj. destruct (Nat.eq_dec j i) as [-> | Hne];
          [apply settled_contribution, Hs | apply Hfail; lia]. }
      destruct (Nat.leb (List.length inputs) (S i)) eqn:Hle.
      * apply Nat.leb_le in Hle. right. left. cbn [resolved running result].
        repeat split; auto. intros j Hj. apply Hfail'. lia.
      * apply Nat.leb_gt in Hle. left. cbn [resolved running result index app].
        repeat split; auto. exists (S i). auto.
  - right. left. unfold Race.step. rewrite Hrun. cbn [nth_error]. auto.
  - right. right. unfold Race.step. rewrite Hrun. cbn [nth_error]. auto.
Qed.

Lemma run_sequential_race (fuel : nat) :
  forall schedule st, sequential st -> sequential (run fuel schedule st).
Proof.
  induction fuel as [|fuel IH]; intros schedule st Hseq; [exact Hseq|].
  cbn [Race.run]. destruct (running st) as [|r rs] eqn:Hrun; [exact Hseq|].
  assert (Hone : List.length (running st) = 1%nat).
  { destruct Hseq as [(_ & _ & i & Hr & _) | [(_ & _ & Hr & _) | (_ & Hr & _)]];
      rewrite Hr in *; [reflexivity | discriminate | discriminate]. }
  assert (Hchoice : choice schedule st = 0%nat).
  { unfold choice. destruct schedule; [reflexivity|]. rewrite Hone. apply Nat.mod_1_r. }
  rewrite Hchoice. apply IH, step_sequential_race, Hseq.
Qed.

Lemma start_sequential_race (concurrency : Z) :
  inputs <> [] -> concurrency <= 1 ->
  sequential (start TResult inputs concurrency).
Proof.
  intros Hne Hc.
  assert (Hlen : (0 < List.length inputs)%nat)
    by (destruct inputs; [congruence | cbn; lia]).
  assert (H1 : Runner.runnerCount inputs concurrency = 1%nat)
    by (unfold Runner.runnerCount; lia).
  unfold start. rewrite H1. cbn [launch]. unfold Race.runNext.
  cbn [resolved index result running app].
  replace (Nat.leb (List.length inputs) 0) with false
    by (symmetry; apply Nat.leb_gt; exact Hlen).
  left. cbn [resolved result running index]. repeat split.
  exists 0%nat. repeat split; auto. intros j Hj. lia.
Qed.

Lemma first_success (i : nat) (out : TResult) :
  (i < List.length inputs)%nat -> allFailedBelow i -> settled i = Some out ->
  hd_error (Runner.successesInOrder inputs worker) = Some out.
Proof.
  intros Hi Hfail Hs. rewrite <- contribution_in_order.
  replace (List.length inputs) with (i + S (List.length inputs - S i))%nat by lia.
  rewrite seq_app, flat_map_app. cbn [seq flat_map Nat.add].
  replace (flat_map contribution (seq 0 i)) with (@nil TResult).
  - rewrite (proj2 (settled_contribution i) out Hs). reflexivity.
  - symmetry. apply flat_map_nil_iff. intros j Hj. apply in_seq in Hj.
    apply Hfail. lia.
Qed.

(** X2. With a single runner, race mode returns the result of the first
    candidate, in candidate order, that succeeds. *)
Theorem race_single_runner (schedule : list nat) (concurrency : Z) :
  concurrency <= 1 ->
  firstNonNullWithConcurrency inputs worker schedule concurrency
  = hd_error (Runner.successesInOrder inputs worker).
Proof.
  intros Hc. unfold firstNonNullWithConcurrency.
  destruct inputs as [|x l] eqn:Hin; [reflexivity|].
  rewrite <- Hin. assert (Hne : inputs <> []) by (rewrite Hin; discriminate).
  pose proof (@run_sequential_race (List.length inputs) schedule _
                (start_sequential_race Hne Hc)) as Hseq.
  destruct (start_consistent concurrency Hne) as (Hcons & _ & Hp & _).
  destruct (@run_consistent (List.length inputs) schedule _ Hcons ltac:(lia))
    as [Hnil _].
  fold (finalState inputs worker schedule concurrency) in *.
  destruct Hseq as [(_ & _ & i & Hr & _) | [(_ & Hnone & _ & Hfail)
                                           | (_ & _ & i & out & Hi & Hfail & Hs & Hr)]].
  - congruence.
  - rewrite Hnone. symmetry.
    replace (Runner.successesInOrder inputs worker) with (@nil TResult);
      [reflexivity|].
    symmetry. apply no_success_iff. exact Hfail.
  - rewrite Hr. symmetry. apply (first_success Hi Hfail Hs).
Qed.

(** Once a result is known no worker is started: the runners still awaiting
    a page finish one by one. *)
Lemma after_resolved (fuel : nat) :
  forall schedule st,
    consistent st -> resolved st = true ->
    (List.length (completionOrder fuel schedule st) <= List.length (running st))%nat
    /\ result (run fuel schedule st) = result st.
Proof.
  induction fuel as [|fuel IH]; intros schedule st Hc Hres;
    cbn [Race.run Race.completionOrder]; [split; [cbn; lia | reflexivity]|].
  destruct (running st) as [|r rs] eqn:Hrun; [split; [cbn; lia | reflexivity]|].
  assert (Hne : running st <> []) by (rewrite Hrun; discriminate).
  pose proof (@choice_bound schedule st Hne) as Hk.
  destruct (@step_consistent st _ Hc Hk) as (Hc' & _ & Hkeep & _).
  destruct (Hkeep Hres) as (Hres' & Hresult & Hlen).
  destruct (IH (tl schedule) _ Hc' Hres') as [IH1 IH2].
  rewrite <- Hrun.
  destruct (nth_error (running st) (choice schedule st)) eqn:Hnth;
    [|apply nth_error_None in Hnth; lia].
  cbn [List.length]. split; [lia | congruence].
Qed.

Lemma race_trace (fuel : nat) (n : nat) :
  forall schedule st,
    consistent st -> resolved st = false ->
    (List.length (running st) <= n)%nat ->
    let tr := completionOrder fuel schedule st in
    let fin := run fuel schedule st in
    (resolved fin = false /\ Forall (fun i => settled i = None) tr)
    \/ (exists before w after out,
          tr = before ++ w :: after
          /\ Forall (fun i => settled i = None) before
          /\ settled w = Some out
          /\ result fin = Some out
          /\ (S (List.length after) <= n)%nat).
Proof.
  induction fuel as [|fuel IH]; intros schedule st Hc Hres Hn;
    cbn [Race.run Race.completionOrder]; cbv zeta; [left; auto|].
  destruct (running st) as [|r rs] eqn:Hrun; [left; auto|].
  assert (Hne : running st <> []) by (rewrite Hrun; discriminate).
  pose proof (@choice_bound schedule st Hne) as Hk.
  rewrite <- Hrun. rewrite <- Hrun in Hn.
  destruct (nth_error (running st) (choice schedule st)) as [myIndex|] eqn:Hnth;
    [|apply nth_error_None in Hnth; lia].
  destruct (@step_consistent st _ Hc Hk) as (Hc' & _ & _ & Hlen').
  destruct (removeAt_facts _ _ Hnth) as (Hlen & _ & _).
  destruct (settled myIndex) as [out|] eqn:Hs.
  - right.
    assert (Hst : step (choice schedule st) st
                  = mkR (index st) true (Some out)
                        (Runner.removeAt (choice schedule st) (running st))).
    { unfold Race.step. rewrite Hnth, Hres, Hs. reflexivity. }
    assert (Hres' : resolved (step (choice schedule st) st) = true)
      by (rewrite Hst; reflexivity).
    destruct (@after_resolved fuel (tl schedule) _ Hc' Hres') as [Htr Hfin].
    exists [], myIndex, (completionOrder fuel (tl schedule) (step (choice schedule st) st)), out.
    split; [reflexivity|]. split; [constructor|]. split; [exact Hs|].
    split; [rewrite Hfin, Hst; reflexivity|].
    assert (Hrl : List.length (running (step (choice schedule st) st))
                  = List.length (Runner.removeAt (choice schedule st) (running st)))
      by (rewrite Hst; reflexivity).
    lia.
  - assert (Hres' : resolved (step (choice schedule st) st) = false).
    { unfold Race.step. rewrite Hnth, Hres, Hs. unfold Race.runNext.
      cbn [resolved]. destruct (Nat.leb _ _); reflexivity. }
    destruct (IH (tl schedule) _ Hc' Hres' ltac:(lia))
      as [[Hopen Hall] | (before & w & after & out & Heq & Hb & Hw & Hr & Ha)].
    + left. split; [exact Hopen | constructor; assumption].
    + right. exists (myIndex :: before), w, after, out.
      split; [rewrite Heq; reflexivity|]. split; [constructor; assumption|].
      auto.
Qed.

(** X3. In race mode the workers that complete before the winner all fail,
    and fewer workers than there are runners complete after it: no candidate
    is claimed once a result is known.  Hence at most as many pages succeed
    as there are runners, the winner first. *)
Theorem race_stragglers (schedule : list nat) (concurrency : Z) (out : TResult) :
  firstNonNullWithConcurrency inputs worker schedule concurrency = Some out ->
  exists before w after,
    completions inputs worker schedule concurrency = before ++ w :: after
    /\ Forall (fun i => settled i = None) before
    /\ settled w = Some out
    /\ (S (List.length after) <= Runner.runnerCount inputs concurrency)%nat
    /\ flat_map contribution (completions inputs worker schedule concurrency)
       = out :: flat_map contribution after
    /\ (List.length (flat_map contribution
                       (completions inputs worker schedule concurrency))
        <= Runner.runnerCount inputs concurrency)%nat.
Proof.
  unfold firstNonNullWithConcurrency, completions. intros Hout.
  destruct inputs as [|x l] eqn:Hin; [discriminate|].
  rewrite <- Hin in *. assert (Hne : inputs <> []) by (rewrite Hin; discriminate).
  destruct (start_consistent concurrency Hne) as (Hc & Hres & Hp & Hn).
  destruct (@race_trace (List.length inputs) _ schedule _ Hc Hres Hn)
    as [[Hopen Hall] | (before & w & after & out' & Heq & Hb & Hw & Hr & Ha)].
  - exfalso. fold (finalState inputs worker schedule concurrency) in Hopen.
    destruct (@run_consistent (List.length inputs) schedule _ Hc ltac:(lia))
      as [_ (_ & _ & Hno & _)].
    fold (finalState inputs worker schedule concurrency) in Hno.
    destruct (Hno Hopen) as [Hnone _]. congruence.
  - fold (finalState inputs worker schedule concurrency) in Hr.
    assert (out' = out) by congruence. subst out'.
    assert (Hflat : flat_map contribution (before ++ w :: after)
                    = out :: flat_map contribution after).
    { rewrite flat_map_app. cbn [flat_map].
      replace (flat_map contribution before) with (@nil TResult).
      - rewrite (proj2 (settled_contribution w) out Hw). reflexivity.
      - symmetry. apply flat_map_nil_iff. intros j Hj.
        rewrite Forall_forall in Hb. apply settled_contribution, Hb, Hj. }
    exists before, w, after. rewrite Heq, Hflat.
    repeat split; auto. cbn [List.length].
    assert (Hle : (List.length (flat_map contribution after) <= List.length after)%nat).
    { clear. induction after as [|a l IH]; [cbn; lia|].
      cbn [flat_map List.length]. rewrite length_app.
      unfold Runner.contribution at 1. destruct (settled a); cbn [List.length]; lia. }
    lia.
Qed.

End RaceFacts.

Lemma race_returns_a_success_witness :
  let inputs := [1; 2; 3]%nat in
  let worker := fun n : nat => JS.Ok (if Nat.eqb n 1 then None else Some (10 * n)%nat) in
  inputs <> []
  /\ Race.running (Race.finalState inputs worker [1; 0]%nat 2) = [].
Proof.
  cbv zeta. split; [discriminate|].
  refine (proj2 (proj2 (@race_returns_a_success nat nat [1; 2; 3]%nat
            (fun n : nat => JS.Ok (if Nat.eqb n 1 then None else Some (10 * n)%nat))
            [1; 0]%nat 2)) _).
  discriminate.
Defined.

Lemma race_single_runner_witness :
  let inputs := [1; 2; 3]%nat in
  let worker := fun n : nat => JS.Ok (if Nat.eqb n 1 then None else Some (10 * n)%nat) in
  Race.firstNonNullWithConcurrency inputs worker [0; 0]%nat 1
  = hd_error (Runner.successesInOrder inputs worker).
Proof.
  cbv zeta.
  apply (@race_single_runner nat nat [1; 2; 3]%nat
           (fun n : nat => JS.Ok (if Nat.eqb n 1 then None else Some (10 * n)%nat))
           [0; 0]%nat 1).
  lia.
Defined.

Lemma race_stragglers_witness :
  let inputs := [1; 2; 3; 4]%nat in
  let worker := fun n : nat => JS.Ok (if Nat.eqb n 1 then None else Some (10 * n)%nat) in
  Race.firstNonNullWithConcurrency inputs worker [1; 0; 0]%nat 2 = Some 20%nat
  /\ exists before w after,
       Race.completions inputs worker [1; 0; 0]%nat 2 = before ++ w :: after
       /\ Runner.settled inputs worker w = Some 20%nat
       /\ (S (List.length after) <= Runner.runnerCount inputs 2)%nat.
Proof.
  cbv zeta. split; [vm_compute; reflexivity|].
  destruct (@race_stragglers nat nat [1; 2; 3; 4]%nat
              (fun n : nat => JS.Ok (if Nat.eqb n 1 then None else Some (10 * n)%nat))
              [1; 0; 0]%nat 2 20%nat)
    as (before & w & after & Heq & _ & Hw & Hlen & _).
  - vm_compute. reflexivity.
  - exists before, w, after. split; [exact Heq|]. split; [exact Hw | exact Hlen].
Defined.

(* ------------------------------------------------------------------ *)
(** ** Reading the page with retries; the promise race *)

Section RetryFacts.

Import Retry.

Variable content : nat -> JS.outcome jsstring.

Lemma attempts_stop (remaining : nat) :
  forall attempt lastError,
    exists k,
      (attempt <= k <= attempt + remaining)%nat
      /\ attempts content (S remaining) attempt lastError = (content k, k)
      /\ (forall j, (attempt <= j < k)%nat -> retried (content j))
      /\ ((k < attempt + remaining)%nat -> ~ retried (content k)).
Proof.
  induction remaining as [|remaining IH]; intros attempt lastError.
  - exists attempt. cbn [attempts].
    assert (Hres : (match content attempt with
                    | JS.Ok html => (JS.Ok html, attempt)
                    | JS.Throw e =>
                        if transient e then (JS.Throw e, Nat.pred (S attempt))
                        else (JS.Throw e, attempt)
                    end) = (content attempt, attempt)).
    { destruct (content attempt) as [html|e]; [reflexivity|].
      destruct (transient e); reflexivity. }
    split; [lia|]. split; [exact Hres|]. split; intros; lia.
  - change (attempts content (S (S remaining)) attempt lastError)
      with (match content attempt with
            | JS.Ok html => (JS.Ok html, attempt)
            | JS.Throw e =>
                if transient e
                then attempts content (S remaining) (S attempt) (Some e)
                else (JS.Throw e, attempt)
            end).
    destruct (content attempt) as [html|e] eqn:Hc.
    + exists attempt. rewrite Hc. split; [lia|]. split; [reflexivity|].
      split; [intros; lia|]. intros _ (e & He & _). congruence.
    + destruct (transient e) eqn:Ht.
      * destruct (IH (S attempt) (Some e)) as (k & Hk & Heq & Hbefore & Hat).
        exists k. split; [lia|]. split; [exact Heq|]. split.
        -- intros j Hj. destruct (Nat.eq_dec j attempt) as [-> | Hne].
           ++ exists e. auto.
           ++ apply Hbefore. lia.
        -- intros Hlt. apply Hat. lia.
      * exists attempt. rewrite Hc. split; [lia|]. split; [reflexivity|].
        split; [intros; lia|]. intros _ (e' & He & Ht'). congruence.
Qed.

(** X4. [readContentWithRetry] returns the outcome of the read at which it
    stops, which is the first read that is not a transient failure or else
    the last one allowed: at most [maxAttempts] reads are made, a read is
    repeated only after an "execution context was destroyed" failure, and
    any other failure is thrown at once.  With [maxAttempts] below 1 the
    page is read once. *)
Theorem readContentWithRetry_stops (maxAttempts : Z) :
  (maxAttempts <= 0 -> readContentWithRetry content maxAttempts = (content 1%nat, 1%nat))
  /\ (1 <= maxAttempts ->
      exists k,
        (1 <= k)%nat /\ Z.of_nat k <= maxAttempts
        /\ readContentWithRetry content maxAttempts = (content k, k)
        /\ (forall j, (1 <= j < k)%nat -> retried (content j))
        /\ (Z.of_nat k < maxAttempts -> ~ retried (content k))).
Proof.
  unfold readContentWithRetry. split.
  - intros Hle. replace (Z.to_nat maxAttempts) with 0%nat by lia. reflexivity.
  - intros Hge.
    destruct (Z.to_nat maxAttempts) as [|remaining] eqn:Hm; [lia|].
    destruct (attempts_stop remaining 1 None) as (k & Hk & Heq & Hbefore & Hat).
    exists k. split; [lia|]. split; [lia|]. split; [exact Heq|].
    split; [exact Hbefore|]. intros Hlt. apply Hat. lia.
Qed.

End RetryFacts.

Lemma readContentWithRetry_stops_witness :
  let content := fun k : nat =>
    if Nat.ltb k 3
    then JS.Throw (JS.lit "Protocol error: Execution context was destroyed.")
    else JS.Ok (JS.lit "<html></html>") in
  1 <= 3
  /\ Retry.readContentWithRetry content 3 = (JS.Ok (JS.lit "<html></html>"), 3%nat).
Proof.
  cbv zeta. split; [lia|].
  destruct (proj2 (readContentWithRetry_stops
                     (fun k : nat =>
                        if Nat.ltb k 3
                        then JS.Throw (JS.lit "Protocol error: Execution context was destroyed.")
                        else JS.Ok (JS.lit "<html></html>")) 3) ltac:(lia))
    as (k & _ & _ & Heq & _).
  rewrite Heq. vm_compute in Heq. injection Heq as _ Hk. rewrite <- Hk.
  vm_compute. reflexivity.
Defined.

Section FirstNonNullFacts.

Import FirstNonNull.

Variable T : Type.

Lemma settle_when_resolved (st : FState T) (o : JS.outcome (option T)) :
  resolved st = true ->
  settle st o = mkF (Nat.pred (remaining st)) true (value st).
Proof.
  intros Hres. unfold settle.
  destruct o as [[val|]|e]; rewrite ?Hres; cbv iota; rewrite ?Hres;
    destruct (Nat.eqb _ 0); reflexivity.
Qed.

Lemma settle_when_open (st : FState T) (o : JS.outcome (option T)) :
  resolved st = false ->
  settle st o
  = match o with
    | JS.Ok (Some val) => mkF (Nat.pred (remaining st)) true (Some (Some val))
    | _ => if Nat.eqb (Nat.pred (remaining st)) 0
           then mkF (Nat.pred (remaining st)) false (Some None)
           else mkF (Nat.pred (remaining st)) false (value st)
    end.
Proof.
  intros Hres. unfold settle.
  destruct o as [[val|]|e]; rewrite ?Hres; cbv iota;
    cbn [resolved remaining value negb]; rewrite ?Hres;
    destruct (Nat.eqb _ 0); reflexivity.
Qed.

Lemma settle_resolved (l : list (JS.outcome (option T))) :
  forall st v,
    resolved st = true -> value st = Some (Some v) ->
    value (fold_left (@settle T) l st) = Some (Some v).
Proof.
  induction l as [|o l IH]; intros st v Hres Hval; [exact Hval|].
  cbn [fold_left]. rewrite (@settle_when_resolved st o Hres).
  apply IH; [reflexivity | exact Hval].
Qed.

Lemma settle_open (l : list (JS.outcome (option T))) :
  forall st,
    resolved st = false -> remaining st = List.length l -> l <> [] ->
    value (fold_left (@settle T) l st) = Some (firstFulfilled l).
Proof.
  induction l as [|o l IH]; intros st Hres Hrem Hne; [congruence|].
  cbn [fold_left List.length] in *. rewrite (@settle_when_open st o Hres), Hrem.
  cbn [Nat.pred].
  assert (Hrest : forall st',
             (if Nat.eqb (List.length l) 0
              then mkF (List.length l) false (Some None)
              else mkF (List.length l) false (value st)) = st' ->
             value (fold_left (@settle T) l st') = Some (firstFulfilled l)).
  { intros st' <-. destruct l as [|o' l']; [reflexivity|].
    cbn [List.length Nat.eqb]. apply IH; [reflexivity | reflexivity | discriminate]. }
  destruct o as [[val|]|e]; cbn [firstFulfilled].
  - apply settle_resolved; reflexivity.
  - apply Hrest. reflexivity.
  - apply Hrest. reflexivity.
Qed.

(** X5. When every promise settles, [firstNonNull] resolves with the first
    non-null value in settle order, rejections being skipped, and with
    [null] when there is none; on an empty array it never settles. *)
Theorem firstNonNull_first_value (settled : list (JS.outcome (option T))) :
  firstNonNull settled
  = match settled with
    | [] => None
    | _ :: _ => Some (firstFulfilled settled)
    end.
Proof.
  unfold firstNonNull. destruct settled as [|o l]; [reflexivity|].
  apply settle_open; [reflexivity | reflexivity | discriminate].
Qed.

End FirstNonNullFacts.

(* ------------------------------------------------------------------ *)
(** ** HTML escaping of the title *)

Section EscapeFacts.

Import Handler Helpers.

Lemma flat_map_flat_map (A B C : Type) (f : A -> list B) (g : B -> list C)
      (l : list A) :
  flat_map g (flat_map f l) = flat_map (fun x => flat_map g (f x)) l.
Proof.
  induction l as [|x l IH]; [reflexivity|].
  cbn [flat_map]. rewrite flat_map_app, IH. reflexivity.
Qed.

Lemma escapeChar_unfold (c : N) :
  escapeChar c
  = (if N.eqb c 38 then [38; 97; 109; 112; 59]
     else if N.eqb c 60 then [38; 108; 116; 59]
     else if N.eqb c 62 then [38; 103; 116; 59]
     else if N.eqb c 34 then [38; 113; 117; 111; 116; 59]
     else if N.eqb c 39 then [38; 35; 48; 51; 57; 59]
     else [c])%N.
Proof. reflexivity. Qed.

Lemma escape_one (c : N) : escapeHtmlAttribute [c] = escapeChar c.
Proof.
  rewrite escapeChar_unfold.
  destruct (N.eqb c 38) eqn:E1; [apply N.eqb_eq in E1; subst; reflexivity|].
  destruct (N.eqb c 60) eqn:E2; [apply N.eqb_eq in E2; subst; reflexivity|].
  destruct (N.eqb c 62) eqn:E3; [apply N.eqb_eq in E3; subst; reflexivity|].
  destruct (N.eqb c 34) eqn:E4; [apply N.eqb_eq in E4; subst; reflexivity|].
  destruct (N.eqb c 39) eqn:E5; [apply N.eqb_eq in E5; subst; reflexivity|].
  unfold escapeHtmlAttribute, replaceAll. cbn [flat_map app].
  rewrite E1. cbn [flat_map app]. rewrite E2. cbn [flat_map app].
  rewrite E3. cbn [flat_map app]. rewrite E4. cbn [flat_map app].
  rewrite E5. reflexivity.
Qed.

Lemma escape_app (a b : jsstring) :
  escapeHtmlAttribute (a ++ b) = escapeHtmlAttribute a ++ escapeHtmlAttribute b.
Proof. unfold escapeHtmlAttribute, replaceAll. rewrite !flat_map_app. reflexivity. Qed.

Lemma escape_one_pass (s : jsstring) :
  escapeHtmlAttribute s = flat_map escapeChar s.
Proof.
  induction s as [|c s IH]; [reflexivity|].
  change (c :: s) with ([c] ++ s). rewrite escape_app, escape_one, IH. reflexivity.
Qed.

Lemma escapeChar_safe (c : N) :
  Forall (fun x => x <> 60 /\ x <> 62 /\ x <> 34 /\ x <> 39)%N (escapeChar c).
Proof.
  rewrite escapeChar_unfold.
  destruct (N.eqb c 38) eqn:E1; [repeat constructor; lia|].
  destruct (N.eqb c 60) eqn:E2; [repeat constructor; lia|].
  destruct (N.eqb c 62) eqn:E3; [repeat constructor; lia|].
  destruct (N.eqb c 34) eqn:E4; [repeat constructor; lia|].
  destruct (N.eqb c 39) eqn:E5; [repeat constructor; lia|].
  apply N.eqb_neq in E2, E3, E4, E5. repeat constructor; assumption.
Qed.

(** X6. The five replacements of [escapeHtmlAttribute] act like a single
    pass: every character is replaced once, an entity written by an earlier
    replacement is never escaped again.  The result contains none of
    [< > " '], and a string without [& < > " '] is left as it is. *)
Theorem escape_is_one_pass (input : jsstring) :
  escapeHtmlAttribute input = flat_map escapeChar input
  /\ Forall (fun x => x <> 60 /\ x <> 62 /\ x <> 34 /\ x <> 39)%N
            (escapeHtmlAttribute input)
  /\ (Forall (fun x => x <> 38 /\ x <> 60 /\ x <> 62 /\ x <> 34 /\ x <> 39)%N input ->
      escapeHtmlAttribute input = input).
Proof.
  split; [apply escape_one_pass|]. split.
  - rewrite escape_one_pass. induction input as [|c s IH]; [constructor|].
    cbn [flat_map]. apply Forall_app. split; [apply escapeChar_safe | exact IH].
  - rewrite escape_one_pass. induction 1 as [|c s Hc _ IH]; [reflexivity|].
    cbn [flat_map]. rewrite IH, escapeChar_unfold.
    replace (N.eqb c 38) with false by (symmetry; apply N.eqb_neq; lia).
    replace (N.eqb c 60) with false by (symmetry; apply N.eqb_neq; lia).
    replace (N.eqb c 62) with false by (symmetry; apply N.eqb_neq; lia).
    replace (N.eqb c 34) with false by (symmetry; apply N.eqb_neq; lia).
    replace (N.eqb c 39) with false by (symmetry; apply N.eqb_neq; lia).
    reflexivity.
Qed.

Lemma escape_is_one_pass_witness :
  Forall (fun x => x <> 38 /\ x <> 60 /\ x <> 62 /\ x <> 34 /\ x <> 39)%N
         (JS.lit "Pricing - Example")
  /\ escapeHtmlAttribute (JS.lit "Pricing - Example") = JS.lit "Pricing - Example".
Proof.
  assert (H : Forall (fun x => x <> 38 /\ x <> 60 /\ x <> 62 /\ x <> 34 /\ x <> 39)%N
                     (JS.lit "Pricing - Example")).
  { apply Forall_forall. intros x Hx. vm_compute in Hx.
    repeat (destruct Hx as [<- | Hx]; [lia|]). destruct Hx. }
  split; [exact H|].
  exact (proj2 (proj2 (escape_is_one_pass (JS.lit "Pricing - Example"))) H).
Defined.

(** X7. Escaping loses nothing: two titles with the same escaped form are
    the same title. *)
Theorem escape_injective (a b : jsstring) :
  escapeHtmlAttribute a = escapeHtmlAttribute b -> a = b.
Proof.
  rewrite !escape_one_pass. revert b.
  induction a as [|x a IH]; intros [|y b] H; cbn [flat_map] in H.
  - reflexivity.
  - exfalso. rewrite escapeChar_unfold in H.
    repeat match type of H with
           | context [N.eqb ?v ?k] => destruct (N.eqb v k)
           end; discriminate H.
  - exfalso. rewrite escapeChar_unfold in H.
    repeat match type of H with
           | context [N.eqb ?v ?k] => destruct (N.eqb v k)
           end; discriminate H.
  - rewrite !escapeChar_unfold in H.
    repeat match type of H with
           | context [N.eqb ?v ?k] => destruct (N.eqb v k) eqn:?
           end;
      repeat match goal with
             | E : N.eqb _ _ = true |- _ => apply N.eqb_eq in E
             | E : N.eqb _ _ = false |- _ => apply N.eqb_neq in E
             end;
      cbn [app] in H; try discriminate H;
      injection H; intros; subst; try congruence;
      f_equal; apply IH; assumption.
Qed.

Lemma escape_injective_witness :
  Handler.escapeHtmlAttribute (JS.lit "a<b") = Handler.escapeHtmlAttribute (JS.lit "a<b")
  /\ JS.lit "a<b" = JS.lit "a<b".
Proof.
  split; [reflexivity|].
  exact (escape_injective (JS.lit "a<b") (JS.lit "a<b") eq_refl).
Defined.

End EscapeFacts.

(* ------------------------------------------------------------------ *)
(** ** Anchor extraction *)

Section SerpFacts.

Import Serp Candidates.

Variable querySelectorAll : jsstring -> list Anchor.

Lemma seen_iff (href : jsstring) (seen : list jsstring) :
  existsb (JS.eqb href) seen = true <-> In href seen.
Proof.
  rewrite existsb_exists. split.
  - intros (x & Hin & Heq). apply eqb_eq in Heq. subst x. exact Hin.
  - intros Hin. exists href. split; [exact Hin | apply eqb_eq; reflexivity].
Qed.

Lemma scanAnchors_app (a b : list Anchor) (acc : list jsstring * list RawResult) :
  scanAnchors (a ++ b) acc = scanAnchors b (scanAnchors a acc).
Proof.
  revert acc. induction a as [|x a IH]; intros acc; [reflexivity|].
  cbn [app scanAnchors]. destruct (resolveHref x) as [href|]; [|apply IH].
  destruct (existsb (JS.eqb href) (fst acc)); apply IH.
Qed.

Lemma extract_as_one_scan :
  extractRawResults querySelectorAll
  = snd (scanAnchors (anchorsInOrder querySelectorAll) ([], [])).
Proof.
  unfold extractRawResults, anchorsInOrder. f_equal.
  generalize (@nil jsstring, @nil RawResult).
  induction selectors as [|sel sels IH]; intros acc; [reflexivity|].
  cbn [fold_left flat_map]. rewrite scanAnchors_app. apply IH.
Qed.

Lemma resolveHref_truthy (a : Anchor) (h : jsstring) :
  resolveHref a = Some h -> h <> [].
Proof.
  unfold resolveHref. destruct (JS.truthy (hrefProp a)) eqn:Hp.
  - intros H. injection H as <-. destruct (hrefProp a); [discriminate | discriminate].
  - destruct (hrefAttr a) as [h'|]; [|discriminate].
    destruct (JS.truthy h') eqn:Ha; [|discriminate].
    intros H. injection H as <-. destruct h'; discriminate.
Qed.

(** The scan of a list of anchors that follows the anchors [done]. *)
Lemma scan_invariant (anchors : list Anchor) :
  forall done seen results,
    (forall h, In h seen <-> In h (map rawHref results)) ->
    NoDup (map rawHref results) ->
    (forall a h, In a done -> resolveHref a = Some h -> In h seen) ->
    Forall (firstWithHref done) results ->
    let '(seen', results') := scanAnchors anchors (seen, results) in
    NoDup (map rawHref results')
    /\ (forall a h, In a (done ++ anchors) -> resolveHref a = Some h ->
                    In h (map rawHref results'))
    /\ Forall (firstWithHref (done ++ anchors)) results'.
Proof.
  induction anchors as [|a rest IH]; intros done seen results Hseen Hnd Hcov Hfirst.
  - cbn [scanAnchors]. rewrite app_nil_r. split; [exact Hnd|]. split; [|exact Hfirst].
    intros a h Ha Hh. apply Hseen. eapply Hcov; eassumption.
  - assert (Hext : forall l, (done ++ [a]) ++ l = done ++ a :: l)
      by (intros l; rewrite <- app_assoc; reflexivity).
    assert (Hold : forall r, firstWithHref done r -> firstWithHref (done ++ [a]) r).
    { intros r (before & x & after & Heq & Hrest). exists before, x, (after ++ [a]).
      split; [|exact Hrest]. rewrite Heq, <- app_assoc. reflexivity. }
    cbn [scanAnchors fst snd].
    destruct (resolveHref a) as [href|] eqn:Hres.
    + destruct (existsb (JS.eqb href) seen) eqn:Hex.
      * apply seen_iff in Hex.
        specialize (IH (done ++ [a]) seen results Hseen Hnd).
        rewrite Hext in IH. apply IH.
        -- intros x h Hx Hh. apply in_app_iff in Hx. destruct Hx as [Hx | [<- | []]].
           ++ eapply Hcov; eassumption.
           ++ congruence.
        -- eapply Forall_impl; [|exact Hfirst]. exact Hold.
      * assert (Hnew : ~ In href seen).
        { intros Hin. apply seen_iff in Hin. congruence. }
        specialize (IH (done ++ [a]) (href :: seen) (results ++ [mkRaw href (Serp.isAd a)])).
        rewrite Hext in IH. apply IH.
        -- intros h. rewrite map_app, in_app_iff. cbn [map In rawHref].
           rewrite <- Hseen. tauto.
        -- rewrite map_app. cbn [map rawHref].
           apply NoDup_app; [exact Hnd | repeat constructor; intros [] |].
           intros h Hin [<- | []]. apply Hnew, Hseen, Hin.
        -- intros x h Hx Hh. apply in_app_iff in Hx. destruct Hx as [Hx | [<- | []]].
           ++ right. eapply Hcov; eassumption.
           ++ left. congruence.
        -- apply Forall_app. split.
           ++ eapply Forall_impl; [|exact Hfirst]. exact Hold.
           ++ constructor; [|constructor].
              exists done, a, []. cbn [rawHref Candidates.isAd].
              split; [reflexivity|]. split; [exact Hres|]. split; [reflexivity|].
              apply Forall_forall. intros b Hb Hbh.
              apply Hnew. eapply Hcov; eassumption.
    + specialize (IH (done ++ [a]) seen results Hseen Hnd).
      rewrite Hext in IH. apply IH.
      * intros x h Hx Hh. apply in_app_iff in Hx. destruct Hx as [Hx | [<- | []]].
        -- eapply Hcov; eassumption.
        -- congruence.
      * eapply Forall_impl; [|exact Hfirst]. exact Hold.
Qed.

(** X8. The extraction script returns results with distinct, non-empty
    hrefs; the href of every anchor that has one is among them; and each
    result carries the ad flag of the first anchor with that href, so a link
    that first shows up inside an ad block stays flagged as an ad. *)
Theorem extraction_first_wins :
  let results := extractRawResults querySelectorAll in
  let all := anchorsInOrder querySelectorAll in
  NoDup (map rawHref results)
  /\ (forall a h, In a all -> resolveHref a = Some h -> In h (map rawHref results))
  /\ Forall (fun r => rawHref r <> [] /\ firstWithHref all r) results.
Proof.
  cbv zeta. rewrite extract_as_one_scan.
  pose proof (@scan_invariant (anchorsInOrder querySelectorAll) [] [] []) as H.
  destruct (scanAnchors (anchorsInOrder querySelectorAll) ([], [])) as [seen' results'].
  cbn [app snd] in *.
  destruct H as (Hnd & Hcov & Hfirst).
  - intros h. cbn. tauto.
  - constructor.
  - intros a h [].
  - constructor.
  - split; [exact Hnd|]. split; [exact Hcov|].
    eapply Forall_impl; [|exact Hfirst].
    intros r Hr. split; [|exact Hr].
    destruct Hr as (before & a & after & _ & Hres & _).
    exact (resolveHref_truthy _ Hres).
Qed.

End SerpFacts.

Lemma extraction_first_wins_witness :
  let ad := Serp.mkAnchor (JS.lit "https://shop.example/") None true in
  let organic := Serp.mkAnchor (JS.lit "https://shop.example/") None false in
  let bare := Serp.mkAnchor [] None false in
  let querySelectorAll := fun sel : jsstring =>
    if JS.eqb sel (JS.lit "a.result__a") then [ad; bare; organic] else [organic] in
  Serp.extractRawResults querySelectorAll
  = [Candidates.mkRaw (JS.lit "https://shop.example/") true]
  /\ NoDup (map Candidates.rawHref (Serp.extractRawResults querySelectorAll)).
Proof.
  cbv zeta. split; [vm_compute; reflexivity|].
  exact (proj1 (@extraction_first_wins
                  (fun sel : jsstring =>
                     if JS.eqb sel (JS.lit "a.result__a")
                     then [Serp.mkAnchor (JS.lit "https://shop.example/") None true;
                           Serp.mkAnchor [] None false;
                           Serp.mkAnchor (JS.lit "https://shop.example/") None false]
                     else [Serp.mkAnchor (JS.lit "https://shop.example/") None false]))).
Defined.

(* ------------------------------------------------------------------ *)
(** ** Candidate list: what is kept, what is dropped *)

Lemma dedupe_spec (l : list jsstring) :
  forall seen,
    NoDup (Candidates.dedupe seen l)
    /\ forall x, In x (Candidates.dedupe seen l) <-> In x l /\ ~ In x seen.
Proof.
  induction l as [|y l IH]; intros seen; cbn [Candidates.dedupe].
  - split; [constructor|]. intros x. cbn. tauto.
  - destruct (existsb (JS.eqb y) seen) eqn:Hex.
    + destruct (IH seen) as [Hnd Hin]. split; [exact Hnd|].
      intros x. rewrite Hin. cbn [In]. split; [tauto|].
      intros [[<- | Hx] Hns]; [|tauto].
      exfalso. apply Hns. apply existsb_exists in Hex.
      destruct Hex as (z & Hz & Heq). apply eqb_eq in Heq. subst z. exact Hz.
    + assert (Hny : ~ In y seen).
      { intros Hin. assert (existsb (JS.eqb y) seen = true); [|congruence].
        apply existsb_exists. exists y. split; [exact Hin | apply eqb_eq; reflexivity]. }
      destruct (IH (y :: seen)) as [Hnd Hin]. split.
      * constructor; [|exact Hnd]. rewrite Hin. cbn [In]. tauto.
      * intros x. cbn [In]. rewrite Hin. cbn [In]. split.
        -- intros [<- | [Hx Hns]]; [tauto|]. split; [tauto|]. tauto.
        -- intros [[<- | Hx] Hns]; [tauto|].
           destruct (list_eq_dec N.eq_dec y x) as [-> | Hne]; [tauto|]. right. tauto.
Qed.

Lemma mapM_spec (A B : Type) (f : A -> JS.outcome B) (l : list A) :
  forall ys, JS.mapM f l = JS.Ok ys ->
    (forall y, In y ys -> exists x, In x l /\ f x = JS.Ok y)
    /\ (forall x, In x l -> exists y, f x = JS.Ok y /\ In y ys).
Proof.
  induction l as [|x l IH]; cbn [JS.mapM]; intros ys H.
  - injection H as <-. split; [intros y [] | intros x []].
  - destruct (f x) as [y|e] eqn:Hx; cbn [JS.bind] in H; [|discriminate].
    destruct (JS.mapM f l) as [ys'|e]; cbn [JS.bind] in H; [|discriminate].
    injection H as <-. destruct (IH ys' eq_refl) as [H1 H2]. split.
    + intros z [<- | Hz]; [exists x; split; [left; reflexivity | exact Hx]|].
      destruct (H1 z Hz) as (x' & Hin & Hf). exists x'. split; [right|]; assumption.
    + intros z [<- | Hz]; [exists y; split; [exact Hx | left; reflexivity]|].
      destruct (H2 z Hz) as (y' & Hf & Hin). exists y'. split; [|right]; assumption.
Qed.

Section CandidateFacts.

Import Candidates.

Variable URL_new : jsstring -> option jsstring -> JS.outcome URL.

Lemma preferredCandidates_exact_aux (rawResults : list RawResult)
        (candidates : list jsstring) :
  preferredCandidates URL_new rawResults = JS.Ok candidates ->
  NoDup candidates
  /\ forall h,
       In h candidates
       <-> exists r, In r rawResults /\ isAd r = false
                     /\ normalizeDuckHref URL_new (rawHref r) = JS.Ok h
                     /\ Re.test httpRe h = true /\ Re.test adsenseRe h = false.
Proof.
  unfold preferredCandidates. intros H.
  destruct (JS.mapM _ _) as [hrefs|e] eqn:Hmap; cbn [JS.bind] in H; [|discriminate].
  injection H as <-. destruct (mapM_spec _ _ Hmap) as [Hfrom Hto].
  destruct (dedupe_spec
              (filter (fun h => negb (Re.test adsenseRe h))
                      (filter (fun h => Re.test httpRe h) hrefs)) [])
    as [Hnd Hin].
  split; [exact Hnd|]. intros h. rewrite Hin, !filter_In, negb_true_iff. split.
  - intros [[[Hh Hhttp] Hads] _]. destruct (Hfrom h Hh) as (r & Hr & Hn).
    apply filter_In in Hr. destruct Hr as [Hr Had]. apply negb_true_iff in Had.
    exists r. auto.
  - intros (r & Hr & Had & Hn & Hhttp & Hads).
    destruct (Hto r) as (h' & Hn' & Hh').
    { apply filter_In. split; [exact Hr|]. rewrite Had. reflexivity. }
    assert (h' = h) by congruence. subst h'. cbn [In]. tauto.
Qed.

(** X9. When the candidate list is built, it has no duplicate, and it holds
    exactly the hrefs that some anchor not flagged as an ad normalizes to and
    that are http(s) links outside the ad-network pattern. *)
Theorem preferredCandidates_exact (rawResults : list RawResult)
        (candidates : list jsstring) :
  preferredCandidates URL_new rawResults = JS.Ok candidates ->
  NoDup candidates
  /\ forall h,
       In h candidates
       <-> exists r, In r rawResults /\ isAd r = false
                     /\ normalizeDuckHref URL_new (rawHref r) = JS.Ok h
                     /\ Re.test httpRe h = true /\ Re.test adsenseRe h = false.
Proof. apply preferredCandidates_exact_aux. Qed.

(** X10. The candidate list comes out empty only when every extracted anchor
    is unusable: flagged as an ad, or normalized to something that is not an
    http(s) link or is an ad-network link. *)
Theorem no_candidates_only_if_unusable (rawResults : list RawResult) :
  preferredCandidates URL_new rawResults = JS.Ok [] ->
  Forall (unusable URL_new) rawResults.
Proof.
  intros H. destruct (@preferredCandidates_exact_aux _ _ H) as [_ Hin].
  apply Forall_forall. intros r Hr. unfold unusable.
  destruct (isAd r) eqn:Had; [left; reflexivity | right].
  unfold preferredCandidates in H.
  destruct (JS.mapM _ _) as [hrefs|e] eqn:Hmap; cbn [JS.bind] in H; [|discriminate].
  destruct (mapM_spec _ _ Hmap) as [_ Hto].
  destruct (Hto r) as (h & Hn & _).
  { apply filter_In. split; [exact Hr|]. rewrite Had. reflexivity. }
  exists h. split; [exact Hn|].
  destruct (Re.test httpRe h) eqn:Hhttp; [|left; reflexivity].
  destruct (Re.test adsenseRe h) eqn:Hads; [right; reflexivity|].
  exfalso. apply (proj2 (Hin h)). exists r. auto.
Qed.

End CandidateFacts.

Lemma preferredCandidates_exact_witness :
  let rawResults :=
    [Candidates.mkRaw (JS.lit "https://a.example/x") false;
     Candidates.mkRaw (JS.lit "https://ads.example/y") true;
     Candidates.mkRaw (JS.lit "https://a.example/x") false] in
  Candidates.preferredCandidates BasicURL.URL_new rawResults = JS.Ok [JS.lit "https://a.example/x"]
  /\ NoDup [JS.lit "https://a.example/x"].
Proof.
  cbv zeta. split; [vm_compute; reflexivity|].
  refine (proj1 (@preferredCandidates_exact BasicURL.URL_new
                   [Candidates.mkRaw (JS.lit "https://a.example/x") false;
                    Candidates.mkRaw (JS.lit "https://ads.example/y") true;
                    Candidates.mkRaw (JS.lit "https://a.example/x") false]
                   [JS.lit "https://a.example/x"] _)).
  vm_compute. reflexivity.
Defined.


Lemma no_candidates_only_if_unusable_witness :
  let rawResults :=
    [Candidates.mkRaw (JS.lit "https://duckduckgo.com/y.js?ad_domain=shop.example") true;
     Candidates.mkRaw (JS.lit "javascript:void(0)") false] in
  Candidates.preferredCandidates BasicURL.URL_new rawResults = JS.Ok []
  /\ Forall (Candidates.unusable BasicURL.URL_new) rawResults.
Proof.
  cbv zeta. split; [vm_compute; reflexivity|].
  apply (@no_candidates_only_if_unusable BasicURL.URL_new).
  vm_compute. reflexivity.
Defined.

(* ------------------------------------------------------------------ *)
(** ** Ranking: what the cut to eight keeps *)

Lemma sorted_app_le (A : Type) (R : A -> A -> Prop) (a b : list A) :
  StronglySorted R (a ++ b) -> forall x y, In x a -> In y b -> R x y.
Proof.
  induction a as [|h a IH]; cbn [app]; intros Hs x y Hx Hy; [destruct Hx|].
  inversion Hs as [|? ? Hs' Hall]; subst.
  destruct Hx as [<- | Hx].
  - rewrite Forall_forall in Hall. apply Hall. apply in_or_app. right. exact Hy.
  - apply IH; assumption.
Qed.

Section RankingCut.

Import Candidates.

Variable URL_new : jsstring -> option jsstring -> JS.outcome URL.
Variable toLowerCase : jsstring -> jsstring.

Local Abbreviation score := (scoreDomain URL_new toLowerCase).
Local Abbreviation ranked := (rankedCandidates URL_new toLowerCase).

Lemma ranking_cut (candidates : list jsstring) :
  exists dropped,
    Permutation (ranked candidates ++ dropped) candidates
    /\ (forall k d, In k (ranked candidates) -> In d dropped -> score d <= score k)
    /\ ((List.length candidates <= 8)%nat -> dropped = [])
    /\ (NoDup candidates -> NoDup (ranked candidates)).
Proof.
  set (sorted := sortByScore (scored URL_new toLowerCase candidates)).
  assert (Hperm : Permutation sorted (scored URL_new toLowerCase candidates))
    by apply sortByScore_perm.
  assert (Hfst : map fst (scored URL_new toLowerCase candidates) = candidates).
  { unfold scored. rewrite map_map. cbn [fst]. apply map_id. }
  assert (Hsnd : forall p, In p sorted -> snd p = score (fst p)).
  { intros p Hp. apply (Permutation_in _ Hperm) in Hp. unfold scored in Hp.
    apply in_map_iff in Hp. destruct Hp as (u & <- & _). reflexivity. }
  assert (Hall : Permutation (ranked candidates ++ map fst (skipn 8 sorted)) candidates).
  { unfold rankedCandidates. fold sorted. rewrite <- map_app, firstn_skipn, <- Hfst.
    apply Permutation_map. exact Hperm. }
  exists (map fst (skipn 8 sorted)). split; [exact Hall|]. split; [|split].
  - intros k d Hk Hd. unfold rankedCandidates in Hk. fold sorted in Hk.
    apply in_map_iff in Hk. destruct Hk as (pk & <- & Hk).
    apply in_map_iff in Hd. destruct Hd as (pd & <- & Hd).
    assert (Hs : StronglySorted (fun a b => snd a >= snd b)
                   (firstn 8 sorted ++ skipn 8 sorted)).
    { rewrite firstn_skipn. apply sortByScore_sorted. }
    pose proof (@sorted_app_le _ _ _ _ Hs _ _ Hk Hd) as Hge. cbv beta in Hge.
    rewrite <- (Hsnd pk), <- (Hsnd pd); [lia | |].
    + rewrite <- (firstn_skipn 8 sorted). apply in_or_app. right. exact Hd.
    + rewrite <- (firstn_skipn 8 sorted). apply in_or_app. left. exact Hk.
  - intros Hlen. rewrite skipn_all2; [reflexivity|].
    rewrite (Permutation_length Hperm). unfold scored. rewrite length_map. exact Hlen.
  - intros Hnd. apply (Permutation_NoDup (Permutation_sym Hall)) in Hnd.
    apply NoDup_app_remove_r in Hnd. exact Hnd.
Qed.

Lemma rankedCandidates_length (candidates : list jsstring) :
  List.length (ranked candidates) = Nat.min 8 (List.length candidates).
Proof.
  unfold rankedCandidates. rewrite length_map, length_firstn.
  rewrite (Permutation_length (sortByScore_perm _)). unfold scored.
  rewrite length_map. reflexivity.
Qed.

(** X11. The ranked list is a selection of the candidates: together with the
    candidates it drops it is a rearrangement of the input, no dropped
    candidate scores higher than a kept one, nothing is dropped when there are
    at most eight candidates, and distinct candidates stay distinct. *)
Theorem ranking_keeps_the_best (candidates : list jsstring) :
  exists dropped,
    Permutation (ranked candidates ++ dropped) candidates
    /\ (forall k d, In k (ranked candidates) -> In d dropped -> score d <= score k)
    /\ ((List.length candidates <= 8)%nat -> dropped = [])
    /\ (NoDup candidates -> NoDup (ranked candidates)).
Proof. apply ranking_cut. Qed.

End RankingCut.

Lemma ranking_keeps_the_best_witness :
  let candidates :=
    map JS.lit ["https://www.facebook.com/x"; "http://b.example/";
                "https://github.com/r"]%string in
  exists dropped,
    Permutation (Candidates.rankedCandidates BasicURL.URL_new JS.asciiLower candidates
                 ++ dropped) candidates
    /\ dropped = [].
Proof.
  cbv zeta.
  destruct (@ranking_keeps_the_best BasicURL.URL_new JS.asciiLower
              (map JS.lit ["https://www.facebook.com/x"; "http://b.example/";
                           "https://github.com/r"]%string))
    as (dropped & Hperm & _ & Hnone & _).
  exists dropped. split; [exact Hperm|]. apply Hnone. cbn. lia.
Defined.

(* ------------------------------------------------------------------ *)
(** ** Aggregation: which pages become sources, and when all are used *)

Section AggregationCoverage.

Import Aggregation.

Lemma chunk_len (s : SourceText) :
  JS.len (chunkOf s) = 13 + JS.len (srcUrl s) + JS.len (text s).
Proof.
  unfold chunkOf. rewrite !len_app.
  change (JS.len [10; 10]%N) with 2. change (JS.len (JS.lit "[Source: ")) with 9.
  change (JS.len (JS.lit "]")) with 1. change (JS.len [10%N]) with 1. lia.
Qed.

Lemma combineLoop_all (srcs : list SourceText) :
  forall combined used,
    JS.len combined + JS.len (flat_map chunkOf srcs) <= maxTotal ->
    combineLoop combined used srcs
    = (combined ++ flat_map chunkOf srcs, used ++ map srcUrl srcs).
Proof.
  induction srcs as [|s rest IH]; intros combined used Hfit;
    cbn [combineLoop flat_map map].
  - rewrite !app_nil_r. reflexivity.
  - cbn [flat_map] in Hfit. rewrite len_app in Hfit.
    pose proof (len_nonneg (flat_map chunkOf rest)).
    destruct (JS.len combined + JS.len (chunkOf s) >? maxTotal) eqn:Hover.
    + apply Z.gtb_lt in Hover. lia.
    + rewrite IH, <- !app_assoc; [reflexivity|]. rewrite len_app. lia.
Qed.

Lemma chunks_bound (srcs : list SourceText) :
  Forall (fun s => JS.len (text s) <= perSourceLimit) srcs ->
  Forall (fun s => JS.len (srcUrl s) <= 3987) srcs ->
  JS.len (flat_map chunkOf srcs) <= 24000 * Z.of_nat (List.length srcs).
Proof.
  induction srcs as [|s rest IH]; intros Ht Hu; [cbn; lia|].
  inversion Ht; subst. inversion Hu; subst.
  cbn [flat_map List.length]. rewrite len_app, chunk_len.
  specialize (IH ltac:(assumption) ltac:(assumption)).
  unfold perSourceLimit in *. lia.
Qed.

Variable parseHTML : jsstring -> JS.outcome Doc.

(** X12. With at most five sources whose URLs have at most 3987 code units,
    the aggregation uses every source: the used URLs are those of all the
    sources, in order, and the combined text holds a block for each. *)
Theorem aggregate_uses_every_source successes fallbackHtml successUrl out :
  aggregate parseHTML successes fallbackHtml successUrl = JS.Ok out ->
  (List.length (sources out) <= 5)%nat ->
  Forall (fun s => JS.len (srcUrl s) <= 3987) (sources out) ->
  usedUrls out = map srcUrl (sources out)
  /\ combinedText out = flat_map chunkOf (sources out).
Proof.
  intros H Hlen Hurl.
  destruct (@aggregate_sources_within_limit parseHTML _ _ _ _ H) as [Hlim Hc].
  unfold combine in Hc. rewrite combineLoop_all in Hc.
  - cbn [app] in Hc. injection Hc as Hcomb Hused. split; symmetry; assumption.
  - pose proof (chunks_bound Hlim Hurl). change (JS.len []) with 0.
    unfold maxTotal. lia.
Qed.

Lemma snippet_truthy (d : Doc) :
  JS.truthy (rawTextOf d) = true -> JS.truthy (snippetOf d) = true.
Proof.
  unfold snippetOf, JS.slice0, perSourceLimit. intros Hraw.
  destruct (rawTextOf d) as [|c raw]; [discriminate|].
  destruct (JS.truthy (titleOf d)).
  - reflexivity.
  - reflexivity.
Qed.

Lemma sourceTextsOf_kept (successes : list FetchResult) :
  forall srcs, sourceTextsOf parseHTML successes = JS.Ok srcs ->
    Forall (fun s => JS.truthy (text s) = true) srcs
    /\ (List.length srcs <= List.length successes)%nat
    /\ ((forall s d, In s successes -> parseHTML (html s) = JS.Ok d ->
                     JS.truthy (rawTextOf d) = false) -> srcs = []).
Proof.
  induction successes as [|s rest IH]; cbn [sourceTextsOf]; intros srcs H.
  - injection H as <-. split; [constructor|]. split; [cbn; lia | reflexivity].
  - destruct (parseHTML (html s)) as [d|e] eqn:Hd; cbn [JS.bind] in H; [|discriminate].
    destruct (sourceTextsOf parseHTML rest) as [more|e]; cbn [JS.bind] in H;
      [|discriminate].
    destruct (IH more eq_refl) as (Ht & Hl & Hb).
    destruct (JS.truthy (rawTextOf d)) eqn:Hraw; injection H as <-.
    + split; [constructor; [apply snippet_truthy; exact Hraw | exact Ht]|].
      split; [cbn [List.length]; lia|].
      intros Hblank. rewrite (Hblank s d (or_introl eq_refl) Hd) in Hraw. discriminate.
    + split; [exact Ht|]. split; [cbn [List.length]; lia|].
      intros Hblank. apply Hb. intros s' d' Hin. apply Hblank. right. exact Hin.
Qed.

(** X13. When pages were accepted, a page whose extracted text is blank is not
    a source: every source has a non-empty text, and if all the accepted pages
    are blank there is no source at all, the combined text is empty and no URL
    is used.  When no page was accepted there is exactly one source, the
    fallback HTML, blank or not, under the success URL or ["unknown"]. *)
Theorem blank_pages_are_skipped successes fallbackHtml successUrl out :
  aggregate parseHTML successes fallbackHtml successUrl = JS.Ok out ->
  match successes with
  | _ :: _ =>
      Forall (fun s => JS.truthy (text s) = true) (sources out)
      /\ (List.length (sources out) <= List.length successes)%nat
      /\ ((forall s d, In s successes -> parseHTML (html s) = JS.Ok d ->
                       JS.truthy (rawTextOf d) = false) ->
          out = mkAgg [] [] [])
  | [] =>
      exists d, parseHTML fallbackHtml = JS.Ok d
                /\ sources out
                   = [mkSource (match successUrl with
                                | Some u => u
                                | None => JS.lit "unknown"
                                end) (snippetOf d)]
  end.
Proof.
  unfold aggregate. intros H. destruct successes as [|s rest].
  - unfold fallbackSource in H.
    destruct (parseHTML fallbackHtml) as [d|e]; cbn [JS.bind] in H; [|discriminate].
    destruct (combine _) as [combined used]. injection H as <-.
    exists d. split; reflexivity.
  - destruct (sourceTextsOf parseHTML (s :: rest)) as [srcs|e] eqn:Hs;
      cbn [JS.bind] in H; [|discriminate].
    destruct (sourceTextsOf_kept _ Hs) as (Ht & Hl & Hb).
    destruct (combine srcs) as [combined used] eqn:Hc. injection H as <-.
    cbn [sources]. split; [exact Ht|]. split; [exact Hl|].
    intros Hblank. specialize (Hb Hblank). subst srcs.
    cbn in Hc. injection Hc as <- <-. reflexivity.
Qed.

End AggregationCoverage.

Lemma aggregate_uses_every_source_witness :
  let parseHTML := fun h : jsstring =>
    JS.Ok (Aggregation.mkDoc None (Some h) None (Some (JS.lit "T"))) in
  let successes :=
    [Aggregation.mkFetch (JS.lit "https://a.example/") (JS.lit "alpha");
     Aggregation.mkFetch (JS.lit "https://b.example/") (JS.lit "  ");
     Aggregation.mkFetch (JS.lit "https://c.example/") (JS.lit "gamma")] in
  exists out,
    Aggregation.aggregate parseHTML successes [] None = JS.Ok out
    /\ Aggregation.usedUrls out
       = [JS.lit "https://a.example/"; JS.lit "https://c.example/"]
    /\ Aggregation.usedUrls out = map Aggregation.srcUrl (Aggregation.sources out).
Proof.
  cbv zeta.
  set (parseHTML := fun h : jsstring =>
    JS.Ok (Aggregation.mkDoc None (Some h) None (Some (JS.lit "T")))).
  set (successes :=
    [Aggregation.mkFetch (JS.lit "https://a.example/") (JS.lit "alpha");
     Aggregation.mkFetch (JS.lit "https://b.example/") (JS.lit "  ");
     Aggregation.mkFetch (JS.lit "https://c.example/") (JS.lit "gamma")]).
  destruct (Aggregation.aggregate parseHTML successes [] None) as [out|e] eqn:Hagg;
    [|vm_compute in Hagg; discriminate].
  exists out. split; [reflexivity|].
  assert (Hout : Aggregation.usedUrls out
                 = [JS.lit "https://a.example/"; JS.lit "https://c.example/"]
                 /\ Aggregation.sources out
                    = [Aggregation.mkSource (JS.lit "https://a.example/")
                         (JS.lit "Title: T" ++ [10; 10]%N ++ JS.lit "alpha");
                       Aggregation.mkSource (JS.lit "https://c.example/")
                         (JS.lit "Title: T" ++ [10; 10]%N ++ JS.lit "gamma")]).
  { vm_compute in Hagg. injection Hagg as <-. split; vm_compute; reflexivity. }
  destruct Hout as [Hused Hsrcs]. split; [exact Hused|].
  refine (proj1 (@aggregate_uses_every_source parseHTML successes [] None out Hagg _ _)).
  - rewrite Hsrcs. cbn [List.length]. lia.
  - rewrite Hsrcs. repeat constructor; vm_compute; discriminate.
Defined.

Lemma blank_pages_are_skipped_witness :
  let parseHTML := fun h : jsstring =>
    JS.Ok (Aggregation.mkDoc None (Some h) None (Some (JS.lit "T"))) in
  let successes :=
    [Aggregation.mkFetch (JS.lit "https://a.example/") (JS.lit " ");
     Aggregation.mkFetch (JS.lit "https://b.example/") []] in
  exists out,
    Aggregation.aggregate parseHTML successes [] None = JS.Ok out
    /\ out = Aggregation.mkAgg [] [] [].
Proof.
  cbv zeta.
  set (parseHTML := fun h : jsstring =>
    JS.Ok (Aggregation.mkDoc None (Some h) None (Some (JS.lit "T")))).
  set (successes :=
    [Aggregation.mkFetch (JS.lit "https://a.example/") (JS.lit " ");
     Aggregation.mkFetch (JS.lit "https://b.example/") []]).
  destruct (Aggregation.aggregate parseHTML successes [] None) as [out|e] eqn:Hagg;
    [|vm_compute in Hagg; discriminate].
  exists out. split; [reflexivity|].
  refine (proj2 (proj2 (@blank_pages_are_skipped parseHTML successes [] None out Hagg)) _).
  intros s d [<- | [<- | []]] Hd; injection Hd as <-; vm_compute; reflexivity.
Defined.

(* ------------------------------------------------------------------ *)
(** ** The handler: response classes and degradation *)

Section HandlerResponses.

Import Candidates Handler.

Variable URL_new : jsstring -> option jsstring -> JS.outcome URL.
Variable toLowerCase : jsstring -> jsstring.
Variable launch : JS.outcome unit.
Variable newPage : JS.outcome unit.
Variable stealth : JS.outcome unit.
Variable serp : jsstring -> JS.outcome jsstring.
Variable evaluate : JS.outcome (list RawResult).
Variable visit : jsstring -> JS.outcome jsstring.
Variable readability : jsstring -> jsstring -> JS.outcome (option ReadabilityArticle).
Variable parseHTML : jsstring -> JS.outcome Aggregation.Doc.
Variable generateContent :
  jsstring -> list jsstring -> jsstring -> JS.outcome (option jsstring).
Variable schedule : list nat.

Local Abbreviation get :=
  (GET URL_new toLowerCase launch newPage stealth serp evaluate visit readability
       parseHTML generateContent schedule).
Local Abbreviation pageWorker := (worker visit readability).
Local Abbreviation summarize := (summarizeTry parseHTML generateContent).

Lemma summarizeTry_answer query successes fallbackHtml successUrl answer :
  summarize query successes fallbackHtml successUrl = JS.Ok (Some answer) ->
  status answer = 200 /\ contentType answer = textPlain.
Proof.
  unfold summarizeTry. intros H.
  destruct (Aggregation.aggregate _ _ _ _) as [agg|e]; cbn [JS.bind] in H; [|discriminate].
  destruct (generateContent _ _ _) as [text|e]; cbn [JS.bind] in H; [|discriminate].
  cbv zeta in H.
  destruct (JS.len _ >? 0); [|discriminate].
  injection H as <-. split; reflexivity.
Qed.

Lemma afterSerp_run query serpHtml rawResults r :
  afterSerp URL_new toLowerCase visit readability parseHTML generateContent schedule
            query serpHtml rawResults = JS.Ok r ->
  exists c cs,
    preferredCandidates URL_new rawResults = JS.Ok (c :: cs)
    /\ visited r = rankedCandidates URL_new toLowerCase (c :: cs)
    /\ status (response r) = 200.
Proof.
  unfold afterSerp. intros H.
  destruct (preferredCandidates URL_new rawResults) as [[|c cs]|e];
    cbn [JS.bind] in H; try discriminate.
  cbv zeta in H. injection H as <-. exists c, cs.
  split; [reflexivity|]. split; [reflexivity|]. cbn [response].
  destruct (summarizeTry _ _ _ _ _ _) as [[answer|]|e] eqn:Hs; try reflexivity.
  apply (summarizeTry_answer _ _ _ _ Hs).
Qed.

Lemma handlerTry_run query r :
  handlerTry URL_new toLowerCase newPage stealth serp evaluate visit readability
             parseHTML generateContent schedule query = JS.Ok r ->
  exists rawResults c cs,
    evaluate = JS.Ok rawResults
    /\ preferredCandidates URL_new rawResults = JS.Ok (c :: cs)
    /\ visited r = rankedCandidates URL_new toLowerCase (c :: cs)
    /\ status (response r) = 200.
Proof.
  unfold handlerTry. intros H.
  destruct newPage as [[]|e]; cbn [rethrow JS.bind] in H; [|discriminate].
  destruct stealth as [[]|e]; cbn [rethrow JS.bind] in H; [|discriminate].
  destruct (serp _) as [serpHtml|e]; cbn [rethrow JS.bind] in H; [|discriminate].
  destruct evaluate as [rawResults|e]; cbn [rethrow JS.bind] in H; [|discriminate].
  destruct (afterSerp_run _ _ _ H) as (c & cs & Hp & Hv & Hst).
  exists rawResults, c, cs. auto.
Qed.

(** X14. Every request ends in one of three ways.  400: the trimmed query is
    empty, and nothing is visited.  500: a plain-text message that starts with
    [Failed to launch browser: ] or [Search failed: ], and nothing is visited.
    200: between one and eight pages were handed to the page workers, no URL
    twice, all of them candidates extracted from the results page. *)
Theorem GET_response_classes (q : option jsstring) :
  let r := get q in
  (status (response r) = 400 /\ JS.truthy (queryOf q) = false /\ visited r = []
   /\ contentType (response r) = textPlain)
  \/ (status (response r) = 500 /\ JS.truthy (queryOf q) = true /\ visited r = []
      /\ contentType (response r) = textPlain
      /\ exists e, body (response r) = JS.lit "Failed to launch browser: " ++ e
                   \/ body (response r) = JS.lit "Search failed: " ++ e)
  \/ (status (response r) = 200 /\ JS.truthy (queryOf q) = true
      /\ (1 <= List.length (visited r) <= 8)%nat /\ NoDup (visited r)
      /\ exists rawResults candidates,
           evaluate = JS.Ok rawResults
           /\ preferredCandidates URL_new rawResults = JS.Ok candidates
           /\ incl (visited r) candidates).
Proof.
  cbv zeta. unfold GET.
  destruct (JS.truthy (queryOf q)) eqn:Hq; cbn [negb].
  2:{ left. cbn [response status visited contentType]. auto. }
  destruct launch as [[]|e].
  2:{ right; left. cbn [response status visited contentType body].
      split; [reflexivity|]. split; [reflexivity|]. split; [reflexivity|].
      split; [reflexivity|]. exists e. left. reflexivity. }
  destruct (handlerTry _ _ _ _ _ _ _ _ _ _ _ _) as [r|e] eqn:Hh.
  2:{ right; left. cbn [response status visited contentType body].
      split; [reflexivity|]. split; [reflexivity|]. split; [reflexivity|].
      split; [reflexivity|]. exists e. right. reflexivity. }
  right; right.
  destruct (handlerTry_run _ Hh) as (rawResults & c & cs & He & Hp & Hv & Hst).
  split; [exact Hst|]. split; [reflexivity|].
  destruct (@ranking_cut URL_new toLowerCase (c :: cs)) as (dropped & Hperm & _ & _ & Hnd).
  rewrite Hv. split; [|split].
  - rewrite rankedCandidates_length. cbn [List.length]. lia.
  - apply Hnd. apply (proj1 (@preferredCandidates_exact_aux URL_new _ _ Hp)).
  - exists rawResults, (c :: cs). split; [exact He|]. split; [exact Hp|].
    intros u Hu. apply (Permutation_in _ Hperm). apply in_or_app. left. exact Hu.
Qed.

Lemma no_success_no_result (inputs : list jsstring) :
  (forall u, In u inputs -> pageWorker u = JS.Ok None) ->
  Runner.fetchAllWithConcurrency inputs pageWorker schedule 4 = [].
Proof.
  intros Hnone. unfold Runner.fetchAllWithConcurrency.
  destruct inputs as [|u rest] eqn:Hin; [reflexivity|]. rewrite <- Hin in *.
  assert (Hne : inputs <> []) by (rewrite Hin; discriminate).
  destruct (@final_accounted _ _ inputs pageWorker schedule 4 Hne) as [_ Hperm].
  assert (Hs : Runner.successesInOrder inputs pageWorker = []).
  { unfold Runner.successesInOrder. clear Hin Hne Hperm.
    induction inputs as [|x l IH]; [reflexivity|]. cbn [flat_map].
    rewrite (Hnone x (or_introl eq_refl)). cbn [app]. apply IH.
    intros v Hv. apply Hnone. right. exact Hv. }
  rewrite Hs in Hperm. apply Permutation_sym, Permutation_nil in Hperm. exact Hperm.
Qed.

(** X15. When the results page yields candidates and every page visit fails
    or is rejected, the request is still answered with status 200: either
    with the results page's own HTML (when that page cannot be parsed, or the
    summarizer throws or returns a blank text), or with the trimmed summary of
    the results page alone, asked for under the source name [unknown] and
    returned without any source list. *)
Theorem GET_when_every_visit_fails (q : option jsstring) (serpHtml : jsstring)
        (rawResults : list RawResult) (c : jsstring) (cs : list jsstring) :
  JS.truthy (queryOf q) = true ->
  launch = JS.Ok tt -> newPage = JS.Ok tt -> stealth = JS.Ok tt ->
  serp (searchUrlOf (queryOf q)) = JS.Ok serpHtml ->
  evaluate = JS.Ok rawResults ->
  preferredCandidates URL_new rawResults = JS.Ok (c :: cs) ->
  (forall u, In u (c :: cs) -> pageWorker u = JS.Ok None) ->
  response (get q) = mkResponse 200 textHtml serpHtml
  \/ exists d text,
       parseHTML serpHtml = JS.Ok d
       /\ generateContent (queryOf q) [JS.lit "unknown"]
            (Aggregation.chunkOf
               (Aggregation.mkSource (JS.lit "unknown") (Aggregation.snippetOf d)))
          = JS.Ok (Some text)
       /\ JS.trim text <> []
       /\ response (get q) = mkResponse 200 textPlain (JS.trim text).
Proof.
  intros Hq Hl Hn Hs Hserp He Hp Hnone.
  unfold GET. rewrite Hq, Hl. cbn [negb]. unfold handlerTry.
  rewrite Hn, Hs, Hserp, He. cbn [rethrow JS.bind]. unfold afterSerp.
  rewrite Hp. cbn [JS.bind]. cbv zeta.
  rewrite no_success_no_result.
  2:{ intros u Hu. apply Hnone.
      destruct (@ranking_cut URL_new toLowerCase (c :: cs)) as (dropped & Hperm & _).
      apply (Permutation_in _ Hperm). apply in_or_app. left. exact Hu. }
  cbn [JS.truthy response]. unfold summarizeTry, Aggregation.aggregate,
    Aggregation.fallbackSource.
  destruct (parseHTML serpHtml) as [d|e]; cbn [JS.bind]; [|left; reflexivity].
  unfold Aggregation.combine.
  rewrite (@combineLoop_all [Aggregation.mkSource (JS.lit "unknown")
                               (Aggregation.snippetOf d)] [] []).
  2:{ cbn [flat_map]. rewrite app_nil_r, chunk_len. cbn [Aggregation.srcUrl Aggregation.text].
      pose proof (snippet_within_limit d). change (JS.len []) with 0.
      change (JS.len (JS.lit "unknown")) with 7.
      unfold Aggregation.perSourceLimit, Aggregation.maxTotal in *. lia. }
  cbn [flat_map map app JS.bind Aggregation.usedUrls Aggregation.combinedText
       Aggregation.srcUrl]. rewrite app_nil_r.
  destruct (generateContent _ _ _) as [[text|]|e] eqn:Hg; cbn [JS.bind].
  - cbv zeta. destruct (JS.len (JS.trim text) >? 0) eqn:Hlen; [|left; reflexivity].
    right. exists d, text. split; [reflexivity|]. split; [exact Hg|].
    rewrite app_nil_r. split; [|reflexivity].
    intros Hnil. rewrite Hnil in Hlen. discriminate.
  - left. reflexivity.
  - left. reflexivity.
Qed.

End HandlerResponses.

Lemma GET_when_every_visit_fails_witness :
  let serpHtml := JS.lit "<html><body>results</body></html>" in
  let rawResults := [Candidates.mkRaw (JS.lit "https://a.example/x") false] in
  let get :=
    Handler.GET BasicURL.URL_new JS.asciiLower (JS.Ok tt) (JS.Ok tt) (JS.Ok tt)
      (fun _ => JS.Ok serpHtml) (JS.Ok rawResults)
      (fun _ => JS.Throw (JS.lit "net::ERR_TIMED_OUT")) (fun _ _ => JS.Ok None)
      (fun h => JS.Ok (Aggregation.mkDoc None (Some h) None None))
      (fun _ _ _ => JS.Throw (JS.lit "quota")) [] in
  Handler.response (get (Some (JS.lit "rust pricing")))
  = Handler.mkResponse 200 Handler.textHtml serpHtml
  \/ exists d text,
       JS.Ok (Aggregation.mkDoc None (Some serpHtml) None None) = JS.Ok d
       /\ JS.Throw (JS.lit "quota") = JS.Ok (Some text)
       /\ JS.trim text <> []
       /\ Handler.response (get (Some (JS.lit "rust pricing")))
          = Handler.mkResponse 200 Handler.textPlain (JS.trim text).
Proof.
  cbv zeta.
  apply (@GET_when_every_visit_fails BasicURL.URL_new JS.asciiLower
           (JS.Ok tt) (JS.Ok tt) (JS.Ok tt)
           (fun _ => JS.Ok (JS.lit "<html><body>results</body></html>"))
           (JS.Ok [Candidates.mkRaw (JS.lit "https://a.example/x") false])
           (fun _ => JS.Throw (JS.lit "net::ERR_TIMED_OUT")) (fun _ _ => JS.Ok None)
           (fun h => JS.Ok (Aggregation.mkDoc None (Some h) None None))
           (fun _ _ _ => JS.Throw (JS.lit "quota")) []
           (Some (JS.lit "rust pricing"))
           (JS.lit "<html><body>results</body></html>")
           [Candidates.mkRaw (JS.lit "https://a.example/x") false]
           (JS.lit "https://a.example/x") []).
  - vm_compute. reflexivity.
  - reflexivity.
  - reflexivity.
  - reflexivity.
  - reflexivity.
  - reflexivity.
  - vm_compute. reflexivity.
  - intros u _. reflexivity.
Defined.

(* ------------------------------------------------------------------ *)
(** ** robots.txt: the recorded paths are lower-cased, the URL path is not *)

Lemma trimStart_incl (s : jsstring) (c : N) : In c (JS.trimStart s) -> In c s.
Proof.
  induction s as [|x s IH]; cbn [JS.trimStart]; [auto|].
  destruct (JS.isSpace x); [intros H; right; apply IH; exact H | auto].
Qed.

Lemma trim_incl (s : jsstring) (c : N) : In c (JS.trim s) -> In c s.
Proof.
  unfold JS.trim, JS.trimEnd. intros H. apply in_rev in H.
  apply trimStart_incl in H. apply in_rev in H. apply trimStart_incl in H. exact H.
Qed.

Lemma substring_incl (n : Z) (s : jsstring) (c : N) :
  In c (JS.substring n s) -> In c s.
Proof.
  unfold JS.substring. intros H. rewrite <- (firstn_skipn (Z.to_nat n) s).
  apply in_or_app. right. exact H.
Qed.

Lemma startsWith_prefix (s p : jsstring) :
  JS.startsWith s p = true -> exists t, s = p ++ t.
Proof.
  revert s. induction p as [|x p IH]; intros s H; [exists s; reflexivity|].
  destruct s as [|y s]; cbn [JS.startsWith] in H; [discriminate|].
  destruct (N.eqb x y) eqn:E; [|discriminate]. apply N.eqb_eq in E. subst y.
  destruct (IH s H) as (t & ->). exists t. reflexivity.
Qed.

Lemma asciiLower_no_upper (s : jsstring) :
  Forall (fun c => JS.isUpperAZ c = false) (JS.asciiLower s).
Proof.
  unfold JS.asciiLower. apply Forall_forall. intros c Hc.
  apply in_map_iff in Hc. destruct Hc as (x & <- & _).
  unfold JS.isUpperAZ. destruct ((65 <=? x) && (x <=? 90))%N eqn:E.
  - apply andb_true_iff in E. destruct E as [E1 E2].
    apply N.leb_le in E1. apply N.leb_le in E2.
    apply andb_false_iff. right. apply N.leb_gt. lia.
  - exact E.
Qed.

Section RobotsCase.

Import Robots.

Variable URL_new : jsstring -> option jsstring -> JS.outcome URL.
Variable toLowerCase : jsstring -> jsstring.
Variable fetch : jsstring -> jsstring -> JS.outcome HttpResponse.

Hypothesis toLowerCase_lowers :
  forall s, Forall (fun c => JS.isUpperAZ c = false) (toLowerCase s).

Lemma parseLine_lowercased (userAgent : jsstring) (st : ParseState) (line : jsstring) :
  Forall (fun p => p <> [] /\ Forall (fun c => JS.isUpperAZ c = false) p)
         (disallowedPaths st) ->
  Forall (fun p => p <> [] /\ Forall (fun c => JS.isUpperAZ c = false) p)
         (disallowedPaths (parseLine toLowerCase userAgent st line)).
Proof.
  intros Hst. unfold parseLine.
  destruct (JS.startsWith _ (JS.lit "user-agent:")); [exact Hst|].
  destruct (JS.startsWith _ (JS.lit "disallow:")).
  - destruct (groupApplies toLowerCase st userAgent); [|exact Hst].
    destruct (JS.truthy _) eqn:Ht; [|exact Hst].
    cbn [disallowedPaths]. apply Forall_app. split; [exact Hst|].
    constructor; [|constructor]. split.
    + intros Hnil. rewrite Hnil in Ht. discriminate.
    + apply Forall_forall. intros c Hc.
      apply trim_incl, substring_incl in Hc.
      pose proof (toLowerCase_lowers (JS.trim line)) as Hlow.
      rewrite Forall_forall in Hlow. apply Hlow. exact Hc.
  - destruct (JS.startsWith _ (JS.lit "allow:")); [|exact Hst].
    destruct (groupApplies toLowerCase st userAgent); [|exact Hst].
    destruct (JS.truthy _); exact Hst.
Qed.

Lemma parse_lowercased (userAgent : jsstring) (lines : list jsstring) :
  forall st,
    Forall (fun p => p <> [] /\ Forall (fun c => JS.isUpperAZ c = false) p)
           (disallowedPaths st) ->
    Forall (fun p => p <> [] /\ Forall (fun c => JS.isUpperAZ c = false) p)
           (disallowedPaths (fold_left (parseLine toLowerCase userAgent) lines st)).
Proof.
  induction lines as [|l lines IH]; intros st Hst; cbn [fold_left]; [exact Hst|].
  apply IH. apply parseLine_lowercased. exact Hst.
Qed.

(** X16. The Disallow paths are recorded in lower case while the URL path is
    compared as it is.  So a refusal after a successful fetch always rests on
    a recorded path without capital letters, and a URL whose path starts with
    a capital letter after the slash is refused only by a recorded [/]. *)
Theorem robots_paths_lowercased (url userAgent : jsstring) (urlObj : URL)
        (response : HttpResponse) (robotsText : jsstring) :
  URL_new url None = JS.Ok urlObj ->
  fetch (robotsUrlOf urlObj) userAgent = JS.Ok response ->
  ok response = true ->
  bodyText response = JS.Ok robotsText ->
  checkRobotsTxt URL_new toLowerCase fetch url userAgent = false ->
  (exists p,
     In p (disallowedPaths (parseRobots toLowerCase userAgent robotsText))
     /\ p <> []
     /\ Forall (fun c => JS.isUpperAZ c = false) p
     /\ (p = JS.lit "/" \/ JS.startsWith (pathname urlObj) p = true))
  /\ (forall c rest,
        pathname urlObj = 47%N :: c :: rest -> JS.isUpperAZ c = true ->
        In (JS.lit "/") (disallowedPaths (parseRobots toLowerCase userAgent robotsText))).
Proof.
  intros Hurl Hfetch Hok Hbody Hno.
  unfold checkRobotsTxt, checkRobotsTry in Hno.
  rewrite Hurl in Hno. cbn [JS.bind] in Hno. rewrite Hfetch in Hno. cbn [JS.bind] in Hno.
  rewrite Hok in Hno. cbn [negb] in Hno. rewrite Hbody in Hno. cbn [JS.bind] in Hno.
  unfold decide, decideLines in Hno. fold (parseRobots toLowerCase userAgent robotsText) in Hno.
  apply pathAllowed_false_iff in Hno. destruct Hno as (p & Hin & Hmatch).
  pose proof (@parse_lowercased userAgent (JS.split 10 robotsText) (mkParse [] [] [])
                (Forall_nil _)) as Hall.
  fold (parseRobots toLowerCase userAgent robotsText) in Hall.
  rewrite Forall_forall in Hall. destruct (Hall p Hin) as [Hne Hlow].
  split; [exists p; auto|].
  intros c rest Hpath Hup. destruct Hmatch as [-> | Hsw]; [exact Hin|].
  apply startsWith_prefix in Hsw. destruct Hsw as (t & Ht). rewrite Hpath in Ht.
  destruct p as [|x [|y p]]; [congruence | |].
  - injection Ht as <- _. exact Hin.
  - injection Ht as _ <- _. inversion Hlow as [|? ? _ Hlow']; subst.
    inversion Hlow' as [|? ? Hc _]; subst. congruence.
Qed.

End RobotsCase.

Lemma robots_paths_lowercased_witness :
  let robotsText := JS.lit "User-agent: *" ++ [10%N] ++ JS.lit "Disallow: /" in
  let fetch := fun _ _ : jsstring => JS.Ok (Robots.mkHttp 200 (JS.Ok robotsText)) in
  Robots.checkRobotsTxt BasicURL.URL_new JS.asciiLower fetch
    (JS.lit "https://site.example/Private/page") (JS.lit "Mozilla/5.0") = false
  /\ In (JS.lit "/")
        (Robots.disallowedPaths
           (Robots.parseRobots JS.asciiLower (JS.lit "Mozilla/5.0") robotsText)).
Proof.
  cbv zeta. split; [vm_compute; reflexivity|].
  refine (proj2 (@robots_paths_lowercased BasicURL.URL_new JS.asciiLower
                   (fun _ _ => JS.Ok (Robots.mkHttp 200 (JS.Ok _)))
                   asciiLower_no_upper
                   (JS.lit "https://site.example/Private/page") (JS.lit "Mozilla/5.0")
                   _ _ _ _ _ _ _ _) 80%N (JS.lit "rivate/page") _ _).
  - vm_compute. reflexivity.
  - reflexivity.
  - reflexivity.
  - reflexivity.
  - vm_compute. reflexivity.
  - vm_compute. reflexivity.
  - reflexivity.
Defined.

(* ------------------------------------------------------------------ *)
(** ** Query strings: what is written is what is read back *)

Section QueryFacts.

Import Uri.

Lemma utf8Encode_facts (n : nat) :
  forall d,
    (List.length d <= n)%nat ->
    Forall (fun c => (c < 65536)%N) d ->
    Forall (fun b => (b < 256)%N) (utf8Encode d).
Proof.
  induction n as [|n IH]; intros d Hlen Hunits.
  - destruct d; [constructor | cbn [List.length] in Hlen; lia].
  - destruct d as [|c s1]; [constructor|].
    cbn [List.length] in Hlen. inversion Hunits as [|? ? Hc Hs1]; subst.
    cbn [utf8Encode].
    destruct (isLead c) eqn:Hlead.
    + destruct s1 as [|d s2]; [apply utf8_bytes; lia|].
      inversion Hs1 as [|? ? Hd Hs2]; subst. cbn [List.length] in Hlen.
      destruct (isTrail d) eqn:Htrail.
      * apply Forall_app. split.
        -- apply utf8_bytes. destruct (pairToCodePoint_range _ _ Hlead Htrail). lia.
        -- apply IH; [lia | exact Hs2].
      * apply Forall_app. split; [apply utf8_bytes; lia|].
        apply IH; [cbn [List.length]; lia | exact Hs1].
    + destruct (isTrail c).
      * apply Forall_app. split; [apply utf8_bytes; lia|]. apply IH; [lia | exact Hs1].
      * apply Forall_app. split; [apply utf8_bytes; lia|]. apply IH; [lia | exact Hs1].
Qed.

Lemma hexDigit_written (v : N) :
  (v < 16)%N -> (48 <= hexDigit v <= 57 \/ 65 <= hexDigit v <= 70)%N.
Proof.
  intros Hv. unfold hexDigit.
  destruct (v <? 10)%N eqn:E; [apply N.ltb_lt in E | apply N.ltb_ge in E]; lia.
Qed.

Lemma formSafe_written (b : N) :
  formSafe b = true -> formWritten b /\ b <> 37%N /\ b <> 43%N.
Proof.
  unfold formSafe, JS.isUpperAZ, JS.isLowerAZ, JS.isDigit, formWritten.
  cbn [existsb]. rewrite !orb_true_iff, !andb_true_iff, !N.leb_le, !N.eqb_eq.
  lia.
Qed.

Lemma formByte_written (b : N) : (b < 256)%N -> Forall formWritten (formByte b).
Proof.
  intros Hb. unfold formByte.
  destruct (N.eqb b 32).
  { apply Forall_cons; [unfold formWritten; lia | apply Forall_nil]. }
  destruct (formSafe b) eqn:Hs.
  - apply Forall_cons; [apply (proj1 (formSafe_written _ Hs)) | apply Forall_nil].
  - unfold pct.
    pose proof (@hexDigit_written (b / 16) ltac:(lia)).
    pose proof (@hexDigit_written (b mod 16) ltac:(lia)).
    repeat (apply Forall_cons; [unfold formWritten; lia|]). apply Forall_nil.
Qed.

Lemma plusToSpace_pct (b : N) : (b < 256)%N -> plusToSpace (pct b) = pct b.
Proof.
  intros Hb. unfold pct, plusToSpace. cbn [map].
  pose proof (@hexDigit_written (b / 16) ltac:(lia)).
  pose proof (@hexDigit_written (b mod 16) ltac:(lia)).
  cbn [N.eqb Pos.eqb]. settle_comparisons. reflexivity.
Qed.

Lemma formByte_decodes (b : N) (rest : list N) :
  (b < 256)%N ->
  percentDecode (plusToSpace (formByte b ++ rest))
  = b :: percentDecode (plusToSpace rest).
Proof.
  intros Hb. unfold plusToSpace at 1. rewrite map_app.
  fold (plusToSpace (formByte b)). fold (plusToSpace rest). unfold formByte.
  destruct (N.eqb b 32) eqn:E32.
  - apply N.eqb_eq in E32. subst b. reflexivity.
  - destruct (formSafe b) eqn:Hs.
    + destruct (formSafe_written _ Hs) as (_ & H37 & H43).
      unfold plusToSpace at 1. cbn [map app].
      replace (N.eqb b 43) with false by (symmetry; apply N.eqb_neq; exact H43).
      apply percentDecode_plain. exact H37.
    + rewrite plusToSpace_pct by exact Hb. apply percentDecode_pct. exact Hb.
Qed.

Lemma formBytes_decode (bs : list N) :
  Forall (fun b => (b < 256)%N) bs ->
  percentDecode (plusToSpace (flat_map formByte bs)) = bs.
Proof.
  induction 1 as [|b bs Hb _ IH]; [reflexivity|].
  cbn [flat_map]. rewrite formByte_decodes by exact Hb. rewrite IH. reflexivity.
Qed.

Lemma formBytes_written (bs : list N) :
  Forall (fun b => (b < 256)%N) bs -> Forall formWritten (flat_map formByte bs).
Proof.
  induction 1 as [|b bs Hb _ IH]; [constructor|].
  cbn [flat_map]. apply Forall_app. split; [apply formByte_written, Hb | exact IH].
Qed.

Lemma split_first_field (sep : N) (a tail : list N) :
  Forall (fun c => c <> sep) a ->
  JS.split sep (a ++ sep :: tail) = a :: JS.split sep tail.
Proof.
  induction 1 as [|c a Hc _ IH]; cbn [app JS.split].
  - rewrite N.eqb_refl. reflexivity.
  - replace (N.eqb c sep) with false by (symmetry; apply N.eqb_neq; exact Hc).
    rewrite IH. reflexivity.
Qed.

Lemma q_field (ev : list N) :
  Forall (fun c => (c < 128 /\ c <> 38)%N) ev ->
  Forall (fun c => (c < 128 /\ c <> 38)%N) (JS.lit "q=" ++ ev).
Proof.
  intros Hev. change (JS.lit "q=") with [113; 61]%N. cbn [app].
  repeat (apply Forall_cons; [lia|]). exact Hev.
Qed.

(** A query that is the single field [q=value]. *)
Lemma parseForm_q_only (ev : list N) :
  Forall (fun c => (c < 128 /\ c <> 38)%N) ev ->
  parseForm (JS.lit "q=" ++ ev)
  = [(JS.lit "q", utf8Decode (percentDecode (plusToSpace ev)))].
Proof.
  intros Hev. pose proof (q_field Hev) as Hfield. unfold parseForm.
  rewrite utf8Encode_ascii
    by (eapply Forall_impl; [|exact Hfield]; intros c Hc; apply Hc).
  rewrite split_without_separator
    by (eapply Forall_impl; [|exact Hfield]; intros c Hc; apply Hc).
  change (JS.lit "q=" ++ ev) with (113 :: 61 :: ev)%N.
  cbn [flat_map app splitFirst N.eqb Pos.eqb option_map]. reflexivity.
Qed.

(** An ASCII query whose first field is [q=value]. *)
Lemma parseForm_q_first (ev more : list N) :
  Forall (fun c => (c < 128 /\ c <> 38)%N) ev ->
  Forall (fun c => (c < 128)%N) more ->
  exists others,
    parseForm (JS.lit "q=" ++ ev ++ 38%N :: more)
    = (JS.lit "q", utf8Decode (percentDecode (plusToSpace ev))) :: others.
Proof.
  intros Hev Hmore. pose proof (q_field Hev) as Hfield. unfold parseForm.
  rewrite utf8Encode_ascii.
  2:{ rewrite app_assoc. apply Forall_app. split.
      - eapply Forall_impl; [|exact Hfield]. intros c Hc. apply Hc.
      - constructor; [lia | exact Hmore]. }
  rewrite app_assoc, split_first_field
    by (eapply Forall_impl; [|exact Hfield]; intros c Hc; apply Hc).
  eexists.
  change (JS.lit "q=" ++ ev) with (113 :: 61 :: ev)%N.
  cbn [flat_map app splitFirst N.eqb Pos.eqb option_map]. reflexivity.
Qed.

Lemma written_is_queryChar (c : N) :
  formWritten c -> BasicURL.queryChar c = true /\ (c < 128 /\ c <> 38)%N.
Proof.
  unfold formWritten, BasicURL.queryChar. cbn [existsb]. intros H.
  split; [|lia].
  rewrite !andb_true_iff, negb_true_iff, !orb_false_iff, !N.leb_le, !N.eqb_neq.
  lia.
Qed.

(** X17. The search URL carries the normalized query intact: its query string
    is made of code units that a URL parser leaves as written, and a form
    parser reads back from it exactly one parameter, [q], whose value is the
    normalized query (for a query without a lone surrogate). *)
Theorem search_url_carries_query (query : jsstring) :
  Forall (fun c => (c < 65536)%N) query ->
  encodeURIComponent (Handler.normalizedQueryOf query) <> None ->
  exists qs,
    Handler.searchUrlOf query = JS.lit "https://html.duckduckgo.com/html/?" ++ qs
    /\ Forall (fun c => BasicURL.queryChar c = true) qs
    /\ parseForm qs = [(JS.lit "q", Handler.normalizedQueryOf query)].
Proof.
  intros Hunits Hwf.
  set (v := Handler.normalizedQueryOf query) in *.
  assert (Hv : Forall (fun c => (c < 65536)%N) v).
  { unfold v, Handler.normalizedQueryOf. apply Forall_forall. intros c Hc.
    apply in_map_iff in Hc. destruct Hc as (x & <- & Hx).
    rewrite Forall_forall in Hunits. specialize (Hunits x Hx).
    destruct (N.eqb x 43); lia. }
  destruct (encodeURIComponent v) as [e|] eqn:Henc; [|congruence].
  destruct (@encode_facts (List.length v) v e (le_n _) Hv Henc) as (_ & _ & Hr).
  pose proof (@utf8Encode_facts (List.length v) v (le_n _) Hv) as Hbytes.
  pose proof (formBytes_written Hbytes) as Hw.
  exists (serializeQ v). split; [reflexivity|]. split.
  - unfold serializeQ. apply Forall_app. split; [repeat constructor|].
    eapply Forall_impl; [|exact Hw]. intros c Hc. apply written_is_queryChar, Hc.
  - unfold serializeQ.
    rewrite parseForm_q_only
      by (eapply Forall_impl; [|exact Hw]; intros c Hc; apply written_is_queryChar, Hc).
    rewrite formBytes_decode by exact Hbytes. unfold utf8Decode. rewrite Hr.
    reflexivity.
Qed.

Variable URL_new : jsstring -> option jsstring -> JS.outcome URL.

(** X18. In the Google variant a wrapped first result [/url?q=<encoded
    destination>&...] is unwrapped to the destination itself, percent signs
    included: the [q] parameter is used as [searchParams.get] returns it,
    with no second decoding. *)
Theorem google_unwrap_returns_destination (d e more : jsstring) (u : URL) :
  Forall (fun c => (c < 65536)%N) d ->
  d <> [] ->
  encodeURIComponent d = Some e ->
  Forall (fun c => (c < 128)%N) more ->
  URL_new (JS.lit "/url?q=" ++ e ++ 38%N :: more)
          (Some (JS.lit "https://www.google.com")) = JS.Ok u ->
  query u = Some (JS.lit "q=" ++ e ++ 38%N :: more) ->
  Helpers.googleTarget URL_new (JS.lit "/url?q=" ++ e ++ 38%N :: more) = JS.Ok d.
Proof.
  intros Hunits Hne Henc Hmore Hurl Hquery.
  destruct (@encode_facts (List.length d) d e (le_n _) Hunits Henc) as (Hp & Hd & Hr).
  unfold Helpers.googleTarget.
  replace (JS.startsWith (JS.lit "/url?q=" ++ e ++ 38%N :: more) (JS.lit "/url?"))
    with true by reflexivity.
  rewrite Hurl. cbn [JS.bind]. unfold searchParamsGet. rewrite Hquery.
  destruct (@parseForm_q_first e more) as (others & Hpf); [|exact Hmore|].
  { eapply Forall_impl; [|exact Hp]. unfold formPlain. intros c Hc. lia. }
  rewrite Hpf. unfold paramsGet. cbn [find fst snd option_map].
  replace (JS.eqb (JS.lit "q") (JS.lit "q")) with true by reflexivity.
  cbn [option_map snd].
  rewrite (@plusToSpace_without_plus e)
    by (eapply Forall_impl; [|exact Hp]; intros c Hc; apply Hc).
  unfold utf8Decode. rewrite Hd, Hr.
  destruct d as [|c d']; [congruence|]. reflexivity.
Qed.

End QueryFacts.

Lemma search_url_carries_query_witness :
  let query := JS.lit "c++ tutorial" ++ [32; 233; 55357; 56832]%N in
  exists qs,
    Handler.searchUrlOf query = JS.lit "https://html.duckduckgo.com/html/?" ++ qs
    /\ Forall (fun c => BasicURL.queryChar c = true) qs
    /\ Uri.parseForm qs = [(JS.lit "q", Handler.normalizedQueryOf query)].
Proof.
  cbv zeta.
  apply (@search_url_carries_query (JS.lit "c++ tutorial" ++ [32; 233; 55357; 56832]%N)).
  - repeat (apply Forall_cons; [reflexivity|]). apply Forall_nil.
  - vm_compute. discriminate.
Defined.

Lemma google_unwrap_returns_destination_witness :
  let d := JS.lit "https://en.wikipedia.org/wiki/C%2B%2B" in
  let link :=
    JS.lit "/url?q=https%3A%2F%2Fen.wikipedia.org%2Fwiki%2FC%252B%252B&sa=U&ved=2ah" in
  Helpers.googleTarget RelativeURL.URL_new link = JS.Ok d.
Proof.
  cbv zeta.
  refine (@google_unwrap_returns_destination RelativeURL.URL_new
            (JS.lit "https://en.wikipedia.org/wiki/C%2B%2B")
            (JS.lit "https%3A%2F%2Fen.wikipedia.org%2Fwiki%2FC%252B%252B")
            (JS.lit "sa=U&ved=2ah")
            (mkURL
               (JS.lit "https://www.google.com/url?q=https%3A%2F%2Fen.wikipedia.org%2Fwiki%2FC%252B%252B&sa=U&ved=2ah")
               (JS.lit "https:") (JS.lit "www.google.com") (JS.lit "www.google.com")
               (JS.lit "/url")
               (Some (JS.lit "q=https%3A%2F%2Fen.wikipedia.org%2Fwiki%2FC%252B%252B&sa=U&ved=2ah")))
            _ _ _ _ _ _).
  - repeat (apply Forall_cons; [reflexivity|]). apply Forall_nil.
  - discriminate.
  - vm_compute. reflexivity.
  - repeat (apply Forall_cons; [reflexivity|]). apply Forall_nil.
  - vm_compute. reflexivity.
  - reflexivity.
Defined.

Lemma redirect_unwrap_witness :
  let d := JS.lit "https://example.com/pricing?plan=pro&x=a b#top" in
  let link :=
    JS.lit "https://duckduckgo.com/l/?uddg=https%3A%2F%2Fexample.com%2Fpricing%3Fplan%3Dpro%26x%3Da%20b%23top" in
  Candidates.normalizeDuckHref BasicURL.URL_new link = JS.Ok d.
Proof.
  cbv zeta.
  refine (proj2 (@redirect_unwrap BasicURL.URL_new
            (JS.lit "https://example.com/pricing?plan=pro&x=a b#top")
            (JS.lit "https%3A%2F%2Fexample.com%2Fpricing%3Fplan%3Dpro%26x%3Da%20b%23top")
            (mkURL
               (JS.lit "https://duckduckgo.com/l/?uddg=https%3A%2F%2Fexample.com%2Fpricing%3Fplan%3Dpro%26x%3Da%20b%23top")
               (JS.lit "https:") (JS.lit "duckduckgo.com") (JS.lit "duckduckgo.com")
               (JS.lit "/l/")
               (Some (JS.lit "uddg=https%3A%2F%2Fexample.com%2Fpricing%3Fplan%3Dpro%26x%3Da%20b%23top")))
            _ _ _ _ _) _).
  - repeat (apply Forall_cons; [reflexivity|]). apply Forall_nil.
  - discriminate.
  - vm_compute. reflexivity.
  - vm_compute. reflexivity.
  - reflexivity.
  - vm_compute. intros H. repeat (destruct H as [H | H]; [discriminate|]). exact H.
Defined.

(* ------------------------------------------------------------------ *)
(** ** Rate limiter *)

Section RateLimiterFacts.

Import RateLimiter.

(** X19. The exponential delay starts at the base delay, doubles with each
    attempt while the double stays within the maximum, never decreases, never
    exceeds the maximum, and is the maximum from the first attempt whose
    doubling reaches it. *)
Theorem backoff_doubles_up_to_the_cap (rl : Limiter) (attempt : nat) :
  0 < baseDelay rl <= maxDelay rl ->
  exponentialDelay rl 0 = baseDelay rl
  /\ baseDelay rl <= exponentialDelay rl attempt <= maxDelay rl
  /\ exponentialDelay rl attempt <= exponentialDelay rl (S attempt)
  /\ (2 * exponentialDelay rl attempt <= maxDelay rl ->
      exponentialDelay rl (S attempt) = 2 * exponentialDelay rl attempt)
  /\ (maxDelay rl <= baseDelay rl * 2 ^ Z.of_nat attempt ->
      forall later, (attempt <= later)%nat -> exponentialDelay rl later = maxDelay rl).
Proof.
  intros Hb. unfold exponentialDelay.
  assert (Hpow : forall n, 1 <= 2 ^ Z.of_nat n).
  { intros n. pose proof (Z.pow_pos_nonneg 2 (Z.of_nat n)). lia. }
  assert (Hstep : forall n, 2 ^ Z.of_nat (S n) = 2 * 2 ^ Z.of_nat n).
  { intros n. rewrite Nat2Z.inj_succ, Z.pow_succ_r by lia. reflexivity. }
  pose proof (Hpow attempt) as Hp. pose proof (Hstep attempt) as Hs.
  split; [|split; [|split; [|split]]].
  - change (2 ^ Z.of_nat 0) with 1. lia.
  - nia.
  - rewrite Hs. nia.
  - rewrite Hs. intros H2. nia.
  - intros Hcap later Hlater.
    assert (Hmono : 2 ^ Z.of_nat attempt <= 2 ^ Z.of_nat later)
      by (apply Z.pow_le_mono_r; lia).
    nia.
Qed.

(** X20. After [waitIfNeeded], when the sleep lasts at least the time asked
    for, the new request time is at least the delay after the previous one:
    at least the minimum delay, and at least the base delay plus the jitter.
    No sleep is asked for exactly when that much time has already passed. *)
Theorem limiter_spaces_requests (rl : Limiter) (now jitter after : Z) :
  now + waitTime rl now jitter <= after ->
  0 <= waitTime rl now jitter
  /\ (waitTime rl now jitter = 0 <-> delayFor rl jitter <= now - lastRequestTime rl)
  /\ minDelay rl
     <= lastRequestTime (waitIfNeeded rl now jitter after) - lastRequestTime rl
  /\ baseDelay rl + jitter
     <= lastRequestTime (waitIfNeeded rl now jitter after) - lastRequestTime rl
  /\ minDelay (waitIfNeeded rl now jitter after) = minDelay rl
  /\ maxDelay (waitIfNeeded rl now jitter after) = maxDelay rl
  /\ baseDelay (waitIfNeeded rl now jitter after) = baseDelay rl.
Proof.
  unfold waitTime, waitIfNeeded, delayFor. cbn [lastRequestTime minDelay maxDelay baseDelay].
  cbv zeta. intros Hafter.
  destruct (now - lastRequestTime rl <? Z.max (minDelay rl) (baseDelay rl + jitter)) eqn:E;
    [apply Z.ltb_lt in E | apply Z.ltb_ge in E]; repeat split; try lia.
Qed.

End RateLimiterFacts.

Lemma backoff_doubles_up_to_the_cap_witness :
  let rl := RateLimiter.create 1500 8000 1500 in
  RateLimiter.exponentialDelay rl 2 = 6000
  /\ RateLimiter.exponentialDelay rl 3 = 8000
  /\ RateLimiter.baseDelay rl <= RateLimiter.exponentialDelay rl 3 <= RateLimiter.maxDelay rl.
Proof.
  cbv zeta. split; [reflexivity|]. split; [reflexivity|].
  refine (proj1 (proj2 (@backoff_doubles_up_to_the_cap
                          (RateLimiter.create 1500 8000 1500) 3 _))).
  cbn. lia.
Defined.

Lemma limiter_spaces_requests_witness :
  let rl := RateLimiter.mkLimiter 10000 1500 8000 1500 in
  RateLimiter.waitTime rl 10400 250 = 1350
  /\ 1500 <= RateLimiter.lastRequestTime (RateLimiter.waitIfNeeded rl 10400 250 11750)
             - RateLimiter.lastRequestTime rl.
Proof.
  cbv zeta. split; [reflexivity|].
  refine (proj1 (proj2 (proj2 (@limiter_spaces_requests
                                 (RateLimiter.mkLimiter 10000 1500 8000 1500)
                                 10400 250 11750 _)))).
  vm_compute. discriminate.
Defined.

(* ------------------------------------------------------------------ *)
(** ** Accept-Language *)

Lemma split_head (sep : N) (s : jsstring) :
  exists base,
    hd [] (JS.split sep s) = base
    /\ ~ In sep base
    /\ (s = base \/ exists rest, s = base ++ sep :: rest).
Proof.
  induction s as [|c s (base & Hhd & Hno & Hs)]; cbn [JS.split].
  - exists []. split; [reflexivity|]. split; [intros []|]. left. reflexivity.
  - destruct (N.eqb c sep) eqn:E.
    + apply N.eqb_eq in E. subst c. exists []. split; [reflexivity|].
      split; [intros []|]. right. exists s. reflexivity.
    + apply N.eqb_neq in E. exists (c :: base).
      destruct (JS.split sep s) as [|w ws] eqn:Hsp.
      * cbn [hd] in *. subst base. split.
        -- destruct Hs as [-> | (rest & ->)]; [reflexivity|].
           exfalso. clear - Hsp. cbn [app JS.split] in Hsp.
           rewrite N.eqb_refl in Hsp. discriminate.
        -- split; [intros [H | []]; congruence|].
           destruct Hs as [-> | (rest & ->)]; [left; reflexivity|].
           right. exists rest. reflexivity.
      * cbn [hd] in *. subst w. split; [reflexivity|]. split.
        -- intros [H | H]; [congruence | exact (Hno H)].
        -- destruct Hs as [-> | (rest & ->)]; [left; reflexivity|].
           right. exists rest. reflexivity.
Qed.

(** X21. The Accept-Language value is the locale, a comma, the part of the
    locale before its first hyphen (the whole locale when it has none), and
    the weight [;q=0.9]. *)
Theorem acceptLanguage_shape (locale : jsstring) :
  exists base,
    Helpers.buildAcceptLanguage locale
    = locale ++ JS.lit "," ++ base ++ JS.lit ";q=0.9"
    /\ ~ In 45%N base
    /\ (locale = base \/ exists region, locale = base ++ JS.lit "-" ++ region).
Proof.
  destruct (split_head 45 locale) as (base & Hhd & Hno & Hs).
  exists base. unfold Helpers.buildAcceptLanguage. rewrite Hhd.
  split; [reflexivity|]. split; [exact Hno | exact Hs].
Qed.

(* ------------------------------------------------------------------ *)
(** ** What reaches the summarizer passed the gates *)

Lemma successes_from_workers (TInput TResult : Type) (inputs : list TInput)
      (worker : TInput -> JS.outcome (option TResult)) (r : TResult) :
  In r (Runner.successesInOrder inputs worker)
  <-> exists u, In u inputs /\ worker u = JS.Ok (Some r).
Proof.
  unfold Runner.successesInOrder. rewrite in_flat_map. split.
  - intros (u & Hu & Hr). exists u. split; [exact Hu|].
    destruct (worker u) as [[x|]|e]; cbn [In] in Hr;
      [destruct Hr as [-> | []]; reflexivity | destruct Hr | destruct Hr].
  - intros (u & Hu & Hw). exists u. split; [exact Hu|]. rewrite Hw. left. reflexivity.
Qed.

Section GatherGate.

Import Handler.

Variable visit : jsstring -> JS.outcome jsstring.
Variable readability : jsstring -> jsstring -> JS.outcome (option ReadabilityArticle).
Variable schedule : list nat.

Local Abbreviation pageWorker := (worker visit readability).

Lemma worker_success (u : jsstring) (r : Aggregation.FetchResult) :
  pageWorker u = JS.Ok (Some r) ->
  Aggregation.url r = u
  /\ exists candidateHtml,
       visit u = JS.Ok candidateHtml
       /\ Admission.admission candidateHtml = None
       /\ (Aggregation.html r = candidateHtml
           \/ exists article,
                readability candidateHtml u = JS.Ok (Some article)
                /\ Aggregation.html r = wrapAsHtmlDocument article).
Proof.
  unfold worker. intros H.
  destruct (visit u) as [candidateHtml|e]; [|discriminate].
  destruct (Admission.admission candidateHtml) eqn:Hadm; [discriminate|].
  assert (Hhtml : Aggregation.url r = u
                  /\ (Aggregation.html r = candidateHtml
                      \/ exists article,
                           readability candidateHtml u = JS.Ok (Some article)
                           /\ Aggregation.html r = wrapAsHtmlDocument article)).
  { destruct (readability candidateHtml u) as [[article|]|e] eqn:Hread.
    - destruct (JS.truthy (content article) && JS.truthy (title article));
        injection H as <-; (split; [reflexivity|]).
      + right. exists article. split; reflexivity.
      + left. reflexivity.
    - injection H as <-. split; [reflexivity | left; reflexivity].
    - injection H as <-. split; [reflexivity | left; reflexivity]. }
  destruct Hhtml as [Hurl Hhtml]. split; [exact Hurl|].
  exists candidateHtml. split; [reflexivity|]. split; [exact Hadm | exact Hhtml].
Qed.

Lemma success_urls (candidates : list jsstring) :
  map Aggregation.url (Runner.successesInOrder candidates pageWorker)
  = filter (Runner.succeeds pageWorker) candidates.
Proof.
  unfold Runner.successesInOrder, Runner.succeeds.
  induction candidates as [|u l IH]; [reflexivity|].
  cbn [flat_map filter]. rewrite map_app, IH.
  destruct (pageWorker u) as [[r|]|e] eqn:Hw; try reflexivity.
  cbn [map app]. rewrite (proj1 (worker_success _ Hw)). reflexivity.
Qed.

(** X23. Every page that gather mode hands on was visited on one of the
    candidates, passed the admission gate (at least 400 code units, no
    parked-domain script, no Cloudflare challenge signature), and is either
    the page as read or the article Readability extracted from it.  No
    candidate contributes twice. *)
Theorem accepted_pages_passed_the_gate (candidates : list jsstring) :
  let allResults := Runner.fetchAllWithConcurrency candidates pageWorker schedule 4 in
  Forall (fun r =>
            In (Aggregation.url r) candidates
            /\ exists candidateHtml,
                 visit (Aggregation.url r) = JS.Ok candidateHtml
                 /\ 400 <= JS.len candidateHtml
                 /\ Re.test Admission.parkedRe candidateHtml = false
                 /\ Admission.isCloudflareChallenge candidateHtml = false
                 /\ (Aggregation.html r = candidateHtml
                     \/ exists article,
                          readability candidateHtml (Aggregation.url r)
                          = JS.Ok (Some article)
                          /\ Aggregation.html r = wrapAsHtmlDocument article))
         allResults
  /\ (List.length allResults <= List.length candidates)%nat
  /\ (NoDup candidates -> NoDup (map Aggregation.url allResults)).
Proof.
  cbv zeta. unfold Runner.fetchAllWithConcurrency.
  destruct candidates as [|c cs] eqn:Hc.
  { split; [constructor|]. split; [apply le_n|]. intros _. constructor. }
  rewrite <- Hc. assert (Hne : candidates <> []) by (rewrite Hc; discriminate).
  destruct (@final_accounted _ _ candidates pageWorker schedule 4 Hne) as [_ Hperm].
  split; [|split].
  - apply Forall_forall. intros r Hr.
    apply (Permutation_in _ Hperm) in Hr. apply successes_from_workers in Hr.
    destruct Hr as (u & Hu & Hw).
    destruct (worker_success _ Hw) as (Hurl & candidateHtml & Hv & Hadm & Hhtml).
    rewrite Hurl. split; [exact Hu|]. exists candidateHtml.
    unfold Admission.admission in Hadm.
    destruct (Admission.looksLikeParkedOrAd candidateHtml
              || Admission.isCloudflareChallenge candidateHtml) eqn:Hgate;
      [discriminate|].
    apply orb_false_iff in Hgate. destruct Hgate as [Hp Hcf].
    unfold Admission.looksLikeParkedOrAd in Hp. apply orb_false_iff in Hp.
    destruct Hp as [Hlen Hparked]. apply Z.ltb_ge in Hlen.
    split; [exact Hv|]. split; [exact Hlen|]. split; [exact Hparked|].
    split; [exact Hcf | exact Hhtml].
  - rewrite (Permutation_length Hperm), successes_count. apply filter_length_le.
  - intros Hnd. apply (Permutation_NoDup (Permutation_sym (Permutation_map _ Hperm))).
    rewrite success_urls. apply NoDup_filter. exact Hnd.
Qed.

End GatherGate.

Section RobotsRouteFacts.

Import RobotsRoute.

Variable URL_new : jsstring -> option jsstring -> JS.outcome URL.
Variable toLowerCase : jsstring -> jsstring.
Variable fetch : jsstring -> jsstring -> JS.outcome Robots.HttpResponse.
Variable chosenUserAgent : jsstring.
Variable newPage : jsstring -> JS.outcome unit.
Variable stealth : jsstring -> JS.outcome unit.
Variable goto : jsstring -> JS.outcome (option Z).
Variable content : jsstring -> nat -> JS.outcome jsstring.
Variable readability :
  jsstring -> jsstring -> JS.outcome (option Handler.ReadabilityArticle).

Local Abbreviation allowed :=
  (fun u => Robots.checkRobotsTxt URL_new toLowerCase fetch u chosenUserAgent).
Local Abbreviation routeWorker :=
  (worker URL_new toLowerCase fetch chosenUserAgent newPage stealth goto content
          readability).
Local Abbreviation firstPage :=
  (first URL_new toLowerCase fetch chosenUserAgent newPage stealth goto content
         readability).

Lemma statusCheck_ok (response : option Z) :
  statusCheck response = JS.Ok tt ->
  forall status, response = Some status ->
                 status <> 429 /\ status <> 403 /\ status <> 503.
Proof.
  intros H status ->. unfold statusCheck in H.
  destruct (status >=? 400) eqn:H400.
  - destruct (status =? 429) eqn:H429; [discriminate|].
    destruct ((status =? 403) || (status =? 503)) eqn:Hb; [discriminate|].
    apply orb_false_iff in Hb. destruct Hb as [H403 H503].
    apply Z.eqb_neq in H429, H403, H503. auto.
  - rewrite Z.geb_leb in H400. apply Z.leb_gt in H400. lia.
Qed.

Lemma routeWorker_success (u h : jsstring) :
  routeWorker u = JS.Ok (Some h) ->
  allowed u = true
  /\ (forall status, goto u = JS.Ok (Some status) ->
                     status <> 429 /\ status <> 403 /\ status <> 503)
  /\ exists candidateHtml reads,
       Retry.readContentWithRetry (content u) 3 = (JS.Ok candidateHtml, reads)
       /\ Admission.admission candidateHtml = None
       /\ (h = candidateHtml
           \/ exists article,
                readability candidateHtml u = JS.Ok (Some article)
                /\ h = Handler.wrapAsHtmlDocument article).
Proof.
  unfold worker. cbv zeta. intros H.
  destruct (Robots.checkRobotsTxt _ _ _ _ _) eqn:Hallowed; cbn [negb] in H;
    [|discriminate].
  split; [reflexivity|].
  destruct (newPage u); [|discriminate].
  destruct (pageTry stealth goto content readability u) as [r|e] eqn:Hpage;
    [|discriminate].
  injection H as ->. unfold pageTry in Hpage.
  destruct (stealth u); cbn [JS.bind] in Hpage; [|discriminate].
  destruct (goto u) as [response|e]; cbn [JS.bind] in Hpage; [|discriminate].
  destruct (statusCheck response) as [[]|e] eqn:Hstatus; cbn [JS.bind] in Hpage;
    [|discriminate].
  split.
  { intros status Hs. injection Hs as ->. exact (@statusCheck_ok _ Hstatus _ eq_refl). }
  destruct (Retry.readContentWithRetry (content u) 3) as [[candidateHtml|e] reads];
    cbn [fst JS.bind] in Hpage; [|discriminate].
  exists candidateHtml, reads. split; [reflexivity|].
  destruct (Admission.admission candidateHtml) eqn:Hadm; [discriminate|].
  split; [reflexivity|].
  destruct (readability candidateHtml u) as [[article|]|e'] eqn:Hread.
  - destruct (JS.truthy (Handler.content article) && JS.truthy (Handler.title article));
      injection Hpage as <-.
    + right. exists article. split; reflexivity.
    + left. reflexivity.
  - injection Hpage as <-. left. reflexivity.
  - injection Hpage as <-. left. reflexivity.
Qed.

(** X24. In the robots-aware variant the page that is used comes from one of
    the first 20 candidates, which robots.txt allowed, whose navigation was
    not answered with 429, 403 or 503, and whose content passed the admission
    gate; it is that content or the article extracted from it.  When
    robots.txt disallows all of these candidates, no page is used, whatever
    the pages would have returned. *)
Theorem robots_route_page (preferredCandidates : list jsstring) (schedule : list nat) :
  (forall h,
     firstPage preferredCandidates schedule = Some h ->
     exists u candidateHtml reads,
       In u (firstn 20 preferredCandidates)
       /\ allowed u = true
       /\ (forall status, goto u = JS.Ok (Some status) ->
                          status <> 429 /\ status <> 403 /\ status <> 503)
       /\ Retry.readContentWithRetry (content u) 3 = (JS.Ok candidateHtml, reads)
       /\ Admission.admission candidateHtml = None
       /\ (h = candidateHtml
           \/ exists article,
                readability candidateHtml u = JS.Ok (Some article)
                /\ h = Handler.wrapAsHtmlDocument article))
  /\ ((forall u, In u (firstn 20 preferredCandidates) -> allowed u = false) ->
      firstPage preferredCandidates schedule = None).
Proof.
  unfold first, candidateUrls.
  destruct (@race_outcome _ _ (firstn 20 preferredCandidates) routeWorker schedule 2)
    as (Hnone & Hsome & _).
  cbv zeta in Hnone, Hsome. split.
  - intros h Hh. apply Hsome, successes_from_workers in Hh.
    destruct Hh as (u & Hu & Hw).
    destruct (routeWorker_success _ Hw)
      as (Hallowed & Hstatus & candidateHtml & reads & Hread & Hadm & Hhtml).
    exists u, candidateHtml, reads. auto 10.
  - intros Hdis. apply Hnone.
    destruct (Runner.successesInOrder _ _) as [|r l] eqn:Hs; [reflexivity|].
    assert (Hin : In r (Runner.successesInOrder (firstn 20 preferredCandidates)
                          routeWorker)) by (rewrite Hs; left; reflexivity).
    apply successes_from_workers in Hin. destruct Hin as (u & Hu & Hw).
    destruct (routeWorker_success _ Hw) as (Hallowed & _).
    rewrite (Hdis u Hu) in Hallowed. discriminate.
Qed.

End RobotsRouteFacts.

Lemma robots_route_page_witness :
  let robotsText := JS.lit "User-agent: *" ++ [10%N] ++ JS.lit "Disallow: /" in
  let fetch := fun _ _ : jsstring => JS.Ok (Robots.mkHttp 200 (JS.Ok robotsText)) in
  let page := fun (_ : jsstring) (_ : nat) => JS.Ok (repeat 120%N 500) in
  RobotsRoute.first BasicURL.URL_new JS.asciiLower fetch (JS.lit "Mozilla/5.0")
    (fun _ => JS.Ok tt) (fun _ => JS.Ok tt) (fun _ => JS.Ok (Some 200)) page
    (fun _ _ => JS.Ok None)
    [JS.lit "https://a.example/x"; JS.lit "https://b.example/y"] [1%nat]
  = None.
Proof.
  cbv zeta.
  refine (proj2 (@robots_route_page BasicURL.URL_new JS.asciiLower
                   (fun _ _ => JS.Ok (Robots.mkHttp 200 (JS.Ok _)))
                   (JS.lit "Mozilla/5.0")
                   (fun _ => JS.Ok tt) (fun _ => JS.Ok tt) (fun _ => JS.Ok (Some 200))
                   (fun _ _ => JS.Ok (repeat 120%N 500)) (fun _ _ => JS.Ok None)
                   [JS.lit "https://a.example/x"; JS.lit "https://b.example/y"]
                   [1%nat]) _).
  intros u [<- | [<- | []]]; vm_compute; reflexivity.
Defined.
